(** * codegraphgen: the identity scheme, the in-memory store and the
      extraction orchestrator, embedded from the Go sources.

    Layout: Go helpers ([strings], [fmt], [path/filepath]) first, then the
    packages [db], [graph] and [core] as the repository has them, then the
    properties of each.

    Modelling conventions.
    - A Go [string] is a sequence of bytes: Rocq's [string] of [ascii].
      [strings.ToLower] is modelled on ASCII text, where Go lower-cases byte
      by byte; bytes at or above 0x80 are left as they are (Go applies the
      Unicode tables there).
    - [Properties] (a [map[string]interface{}]) is a [gmap string Value];
      a nil map and an empty map are both the empty map.  Records own their
      property map: every record of the repository is built from a fresh map
      literal, so no two records share one map object.
    - [Confidence] is a [float64] that the store only compares with [>] and
      copies; it is modelled as a rational number (the repository only ever
      stores ordinary numbers such as 1.0 there).
    - Iteration over a Go map has no fixed order; where the source ranges
      over a map the model ranges over stdpp's [map_to_list] / [elements]
      and the properties below never depend on that order. *)

From Stdlib Require Import ZArith QArith Qminmax String Ascii List Lia.
From Stdlib Require Import DecimalString DecimalZ DecimalPos.
From stdpp Require Import gmap strings list fin_maps.

Local Close Scope Q_scope.
Local Open Scope string_scope.
Local Open Scope list_scope.

(* ===================================================================== *)
(** * Go helpers *)
(* ===================================================================== *)

(** ** Package [strings] *)

Definition isUpperByte (c : ascii) : bool :=
  let n := N_of_ascii c in (65 <=? n)%N && (n <=? 90)%N.

Definition isLowerByte (c : ascii) : bool :=
  let n := N_of_ascii c in (97 <=? n)%N && (n <=? 122)%N.

Definition toLowerByte (c : ascii) : ascii :=
  if isUpperByte c then ascii_of_N (N_of_ascii c + 32) else c.

Definition toUpperByte (c : ascii) : ascii :=
  if isLowerByte c then ascii_of_N (N_of_ascii c - 32) else c.

(** [strings.ToLower] *)
Fixpoint ToLower (s : string) : string :=
  match s with
  | EmptyString => EmptyString
  | String c s' => String (toLowerByte c) (ToLower s')
  end.

(** [strings.ToUpper] (used to state case-insensitivity) *)
Fixpoint ToUpper (s : string) : string :=
  match s with
  | EmptyString => EmptyString
  | String c s' => String (toUpperByte c) (ToUpper s')
  end.

(** [strings.Join] *)
Fixpoint Join (parts : list string) (sep : string) : string :=
  match parts with
  | [] => ""
  | [p] => p
  | p :: rest => p +:+ sep +:+ Join rest sep
  end.

(** [strings.HasPrefix] *)
Fixpoint HasPrefix (s prefix : string) {struct prefix} : bool :=
  match prefix, s with
  | EmptyString, _ => true
  | String _ _, EmptyString => false
  | String a p', String b s' => Ascii.eqb a b && HasPrefix s' p'
  end.

(** [strings.TrimPrefix] *)
Fixpoint dropBytes (n : nat) (s : string) : string :=
  match n, s with
  | O, _ => s
  | S _, EmptyString => EmptyString
  | S n', String _ s' => dropBytes n' s'
  end.

Definition TrimPrefix (s prefix : string) : string :=
  if HasPrefix s prefix then dropBytes (String.length prefix) s else s.

(** [strings.Contains] *)
Fixpoint Contains (s substr : string) : bool :=
  HasPrefix s substr ||
  match s with
  | EmptyString => false
  | String _ s' => Contains s' substr
  end.

(** [strings.Split(s, "\n")] has one element more than [s] has newlines. *)
Fixpoint countByte (c : ascii) (s : string) : nat :=
  match s with
  | EmptyString => O
  | String a s' => (if Ascii.eqb a c then 1 else 0) + countByte c s'
  end.

Definition newline : ascii := ascii_of_N 10.

(** [strings.ContainsAny], for a set [chars] of ASCII characters. *)
Fixpoint memByte (c : ascii) (chars : string) : bool :=
  match chars with
  | EmptyString => false
  | String a chars' => Ascii.eqb a c || memByte c chars'
  end.

Fixpoint ContainsAny (s chars : string) : bool :=
  match s with
  | EmptyString => false
  | String c s' => memByte c chars || ContainsAny s' chars
  end.

(** [strings.TrimSpace] on ASCII text: the bytes it removes at both ends
    are tab, line feed, vertical tab, form feed, carriage return and
    space. *)
Definition isAsciiSpace (c : ascii) : bool :=
  let n := N_of_ascii c in ((9 <=? n)%N && (n <=? 13)%N) || (n =? 32)%N.

Fixpoint trimLeft (s : string) : string :=
  match s with
  | EmptyString => EmptyString
  | String c s' => if isAsciiSpace c then trimLeft s' else s
  end.

Fixpoint trimRight (s : string) : string :=
  match s with
  | EmptyString => EmptyString
  | String c s' =>
      match trimRight s' with
      | EmptyString => if isAsciiSpace c then EmptyString else String c EmptyString
      | r => String c r
      end
  end.

Definition TrimSpace (s : string) : string := trimRight (trimLeft s).

(** ** Package [fmt] *)

Definition hexDigit (n : N) : ascii :=
  match n with
  | 0 => "0" | 1 => "1" | 2 => "2" | 3 => "3" | 4 => "4" | 5 => "5"
  | 6 => "6" | 7 => "7" | 8 => "8" | 9 => "9" | 10 => "a" | 11 => "b"
  | 12 => "c" | 13 => "d" | 14 => "e" | _ => "f"
  end%N%char.

Definition unhexDigit (c : ascii) : option N :=
  let n := N_of_ascii c in
  if (48 <=? n)%N && (n <=? 57)%N then Some (n - 48)%N
  else if (97 <=? n)%N && (n <=? 102)%N then Some (n - 87)%N
  else None.

(** [fmt.Sprintf("%x", s)] on a string: two lower-case hexadecimal digits
    per byte, most significant first. *)
Fixpoint hex (s : string) : string :=
  match s with
  | EmptyString => EmptyString
  | String c s' =>
      String (hexDigit (N_of_ascii c / 16)) (String (hexDigit (N_of_ascii c mod 16)) (hex s'))
  end.

(** The decoder of [hex] ([encoding/hex.DecodeString] on lower-case input). *)
Fixpoint unhex (s : string) : option string :=
  match s with
  | EmptyString => Some EmptyString
  | String _ EmptyString => None
  | String h (String l s') =>
      match unhexDigit h, unhexDigit l, unhex s' with
      | Some a, Some b, Some r => Some (String (ascii_of_N (a * 16 + b)) r)
      | _, _, _ => None
      end
  end.

(** The dynamic values ([interface{}]) that the repository stores in
    property maps: nil, strings, integers and booleans. *)
Inductive Value : Type :=
  | VNil
  | VString (s : string)
  | VInt (n : Z)
  | VBool (b : bool).

(** Decimal rendering of an integer, as [%v] prints an [int]. *)
Definition formatInt (n : Z) : string := NilZero.string_of_int (Z.to_int n).

(** [fmt.Sprintf("%v", v)] *)
Definition formatValue (v : Value) : string :=
  match v with
  | VNil => "<nil>"
  | VString s => s
  | VInt n => formatInt n
  | VBool true => "true"
  | VBool false => "false"
  end.

(* ===================================================================== *)
(** * Package [db]: records (struct.go) *)
(* ===================================================================== *)

(** [type Properties map[string]interface{}] *)
Abbreviation PropertyMap := (gmap string Value).

(** [type EntityType string] and [type RelationshipType string] *)
Abbreviation EntityType := string (only parsing).
Abbreviation RelationshipType := string (only parsing).

Record Entity : Type := mkEntity {
  ID : string;
  Label : string;
  Type_ : EntityType;
  Properties : PropertyMap;
  Confidence : Q
}.

Record Relationship : Type := mkRelationship {
  RelID : string;
  Source : string;
  Target : string;
  RelType : RelationshipType;
  RelProperties : PropertyMap;
  RelConfidence : Q
}.

(* ===================================================================== *)
(** * Package [graph] (types.go) *)
(* ===================================================================== *)

Module graph.

Definition EntityTypeModule : EntityType := "MODULE".
Definition EntityTypeFile : EntityType := "FILE".
Definition EntityTypeDirectory : EntityType := "DIRECTORY".
Definition EntityTypeImport : EntityType := "IMPORT".
Definition RelationshipTypeContains : RelationshipType := "CONTAINS".
Definition RelationshipTypeReferences : RelationshipType := "REFERENCES".

(** The first of [fullPath], [path], [relativePath] that is present. *)
Definition pathParts (properties : PropertyMap) : list string :=
  match properties !! "fullPath" with
  | Some fullPath => [ToLower (formatValue fullPath)]
  | None =>
      match properties !! "path" with
      | Some path => [ToLower (formatValue path)]
      | None =>
          match properties !! "relativePath" with
          | Some relativePath => [ToLower (formatValue relativePath)]
          | None => []
          end
      end
  end.

(** [sourceFile], and [lineNumber] only under a [sourceFile]. *)
Definition sourceParts (properties : PropertyMap) : list string :=
  match properties !! "sourceFile" with
  | Some sourceFile =>
      ToLower (formatValue sourceFile) ::
      match properties !! "lineNumber" with
      | Some lineNumber => ["line:" +:+ formatValue lineNumber]
      | None => []
      end
  | None => []
  end.

Definition namespaceParts (properties : PropertyMap) : list string :=
  match properties !! "namespace" with
  | Some namespace => [ToLower ("ns:" +:+ formatValue namespace)]
  | None => []
  end.

Definition packageParts (properties : PropertyMap) : list string :=
  match properties !! "package" with
  | Some pkg => [ToLower ("pkg:" +:+ formatValue pkg)]
  | None => []
  end.

(** The [keyParts] slice of [generateDeterministicID]. *)
Definition keyParts (entityType : EntityType) (label : string)
    (properties : PropertyMap) : list string :=
  [ToLower entityType; ToLower label]
    ++ pathParts properties ++ sourceParts properties
    ++ namespaceParts properties ++ packageParts properties.

(** The [key] of [generateDeterministicID]. *)
Definition entityKey (entityType : EntityType) (label : string)
    (properties : PropertyMap) : string :=
  Join (keyParts entityType label properties) "|".

Definition generateDeterministicID (entityType : EntityType) (label : string)
    (properties : PropertyMap) : string :=
  hex (entityKey entityType label properties).

Definition relationshipKey (sourceID targetID : string)
    (relType : RelationshipType) : string :=
  sourceID +:+ "|" +:+ relType +:+ "|" +:+ targetID.

Definition generateDeterministicRelationshipID (sourceID targetID : string)
    (relType : RelationshipType) : string :=
  hex (relationshipKey sourceID targetID relType).

(** [graph.CreateEntity]; a nil [properties] argument becomes the empty map,
    which is what [None] stands for here. *)
Definition CreateEntity (label : string) (entityType : EntityType)
    (properties : option PropertyMap) : Entity :=
  let properties := default ∅ properties in
  {| ID := generateDeterministicID entityType label properties;
     Label := label;
     Type_ := entityType;
     Properties := properties;
     Confidence := 1 |}.

(** [graph.CreateRelationship] *)
Definition CreateRelationship (source target : string)
    (relType : RelationshipType) (properties : option PropertyMap) : Relationship :=
  let properties := default ∅ properties in
  {| RelID := generateDeterministicRelationshipID source target relType;
     Source := source;
     Target := target;
     RelType := relType;
     RelProperties := properties;
     RelConfidence := 1 |}.

End graph.

(* ===================================================================== *)
(** * Package [db]: the in-memory store (inmemory.go) *)
(* ===================================================================== *)

Module db.

Record InMemoryDatabase : Type := mkDB {
  entities : gmap string Entity;
  relationships : gmap string Relationship
}.

(** [NewInMemoryDatabase] *)
Definition NewInMemoryDatabase : InMemoryDatabase :=
  {| entities := ∅; relationships := ∅ |}.

(** Go's [a > b] on confidences. *)
Definition gt (a b : Q) : bool :=
  match Qcompare b a with Lt => true | _ => false end.

(** [for k, v := range incoming { existing[k] = v }] *)
Definition mergeProperties (existing incoming : PropertyMap) : PropertyMap :=
  map_fold (λ k v acc, <[k:=v]> acc) existing incoming.

(** [CreateEntity]: the returned error is always nil. *)
Definition CreateEntity (d : InMemoryDatabase) (entity : Entity)
    : InMemoryDatabase * option string :=
  match entities d !! ID entity with
  | Some existingEntity =>
      let updatedEntity :=
        {| ID := ID existingEntity;
           Label := Label entity;
           Type_ := Type_ existingEntity;
           Properties := mergeProperties (Properties existingEntity) (Properties entity);
           Confidence :=
             if gt (Confidence entity) (Confidence existingEntity)
             then Confidence entity else Confidence existingEntity |} in
      ({| entities := <[ID entity := updatedEntity]> (entities d);
          relationships := relationships d |}, None)
  | None =>
      ({| entities := <[ID entity := entity]> (entities d);
          relationships := relationships d |}, None)
  end.

(** The condition of the search loop of [CreateRelationship]. *)
Definition sameEdge (rel relationship : Relationship) : bool :=
  String.eqb (Source rel) (Source relationship)
  && String.eqb (Target rel) (Target relationship)
  && String.eqb (RelType rel) (RelType relationship).

(** The keys under which the loop's condition holds, in iteration order. *)
Definition matchingIDs (rels : gmap string Relationship)
    (relationship : Relationship) : list string :=
  (filter (λ kv, sameEdge kv.2 relationship = true) (map_to_list rels)).*1.

(** What the search loop may leave in [existingID]: the key of any stored
    relationship that satisfies the condition (Go fixes no iteration order),
    or the empty string when there is none. *)
Definition loopLeaves (rels : gmap string Relationship)
    (relationship : Relationship) (existingID : string) : Prop :=
  existingID ∈ matchingIDs rels relationship
  ∨ (matchingIDs rels relationship = [] ∧ existingID = "").

(** The search loop, run in the order of [map_to_list]. *)
Definition findExisting (rels : gmap string Relationship)
    (relationship : Relationship) : string :=
  match matchingIDs rels relationship with
  | [] => ""
  | id :: _ => id
  end.

(** The zero value that Go's map index yields for an absent key. *)
Definition zeroRelationship : Relationship :=
  {| RelID := ""; Source := ""; Target := ""; RelType := "";
     RelProperties := ∅; RelConfidence := 0 |}.

(** [CreateRelationship] after the loop, given what it left in
    [existingID]. *)
Definition storeRelationship (existingID : string) (d : InMemoryDatabase)
    (relationship : Relationship) : InMemoryDatabase :=
  if negb (String.eqb existingID "") then
    let existingRel := default zeroRelationship (relationships d !! existingID) in
    let existingRel' :=
      {| RelID := RelID existingRel;
         Source := Source existingRel;
         Target := Target existingRel;
         RelType := RelType existingRel;
         RelProperties :=
           mergeProperties (RelProperties existingRel) (RelProperties relationship);
         RelConfidence :=
           if gt (RelConfidence relationship) (RelConfidence existingRel)
           then RelConfidence relationship else RelConfidence existingRel |} in
    {| entities := entities d;
       relationships := <[existingID := existingRel']> (relationships d) |}
  else
    {| entities := entities d;
       relationships := <[RelID relationship := relationship]> (relationships d) |}.

(** The endpoint checks at the head of [CreateRelationship]. *)
Definition checkEndpoints (d : InMemoryDatabase) (relationship : Relationship)
    : option string :=
  match entities d !! Source relationship with
  | None => Some ("source entity " +:+ Source relationship +:+ " not found")
  | Some _ =>
      match entities d !! Target relationship with
      | None => Some ("target entity " +:+ Target relationship +:+ " not found")
      | Some _ => None
      end
  end.

(** [CreateRelationship], for any outcome of the search loop. *)
Definition CreateRelationshipWith (existingID : string) (d : InMemoryDatabase)
    (relationship : Relationship) : InMemoryDatabase * option string :=
  match checkEndpoints d relationship with
  | Some err => (d, Some err)
  | None => (storeRelationship existingID d relationship, None)
  end.

(** [CreateRelationship] *)
Definition CreateRelationship (d : InMemoryDatabase) (relationship : Relationship)
    : InMemoryDatabase * option string :=
  CreateRelationshipWith (findExisting (relationships d) relationship) d relationship.

(** [CreateEntities]: stops at the first error. *)
Fixpoint CreateEntities (d : InMemoryDatabase) (es : list Entity)
    : InMemoryDatabase * option string :=
  match es with
  | [] => (d, None)
  | entity :: rest =>
      match CreateEntity d entity with
      | (d', Some err) => (d', Some err)
      | (d', None) => CreateEntities d' rest
      end
  end.

(** [CreateRelationships]: stops at the first error. *)
Fixpoint CreateRelationships (d : InMemoryDatabase) (rs : list Relationship)
    : InMemoryDatabase * option string :=
  match rs with
  | [] => (d, None)
  | relationship :: rest =>
      match CreateRelationship d relationship with
      | (d', Some err) => (d', Some err)
      | (d', None) => CreateRelationships d' rest
      end
  end.

(** [ClearDatabase] *)
Definition ClearDatabase (d : InMemoryDatabase) : InMemoryDatabase * option string :=
  ({| entities := ∅; relationships := ∅ |}, None).

(** The calls that change the store, and a run of them from a state. *)
Inductive Call : Type :=
  | CallCreateEntity (entity : Entity)
  | CallCreateRelationship (relationship : Relationship)
  | CallClearDatabase.

Definition runCall (d : InMemoryDatabase) (c : Call) : InMemoryDatabase :=
  match c with
  | CallCreateEntity entity => (CreateEntity d entity).1
  | CallCreateRelationship relationship => (CreateRelationship d relationship).1
  | CallClearDatabase => (ClearDatabase d).1
  end.

Definition runCalls (d : InMemoryDatabase) (cs : list Call) : InMemoryDatabase :=
  fold_left runCall cs d.


(** ** Reading the store *)

(** The values of a result row ([QueryResult] is a
    [map[string]interface{}]): the store puts entities, relationships,
    strings and ints there. *)
Inductive QueryValue : Type :=
  | QEntity (entity : Entity)
  | QRelationship (rel : Relationship)
  | QString (s : string)
  | QInt (n : Z).

Abbreviation QueryResult := (gmap string QueryValue).

Definition tab : ascii := ascii_of_N 9.

(** A raw string literal of two lines, as the sources indent it: a line
    feed and two tabs before each line, a line feed and one tab after. *)
Definition rawQuery (line1 line2 : string) : string :=
  String newline (String tab (String tab line1))
  +:+ String newline (String tab (String tab line2))
  +:+ String newline (String tab "").

Definition countStar : string := "count(" +:+ String "*"%char ") as count".

(** The four texts that [Query] compares its argument with. *)
Definition matchEntities : string := "MATCH (n) RETURN n".

Definition matchEdges : string := "MATCH (a)-[r]->(b) RETURN a, r, b".

Definition entityStatistics : string :=
  rawQuery "MATCH (n)" ("RETURN labels(n)[0] as type, " +:+ countStar).

Definition relationshipStatistics : string :=
  rawQuery "MATCH ()-[r]->()" ("RETURN type(r) as type, " +:+ countStar).

(** [for _, entity := range db.entities] and
    [for _, rel := range db.relationships], in the order of the model. *)
Definition storedEntities (d : InMemoryDatabase) : list Entity :=
  (map_to_list (entities d)).*2.

Definition storedEdges (d : InMemoryDatabase) : list Relationship :=
  (map_to_list (relationships d)).*2.

Definition entityRow (entity : Entity) : QueryResult := {[ "n" := QEntity entity ]}.

(** The row of a relationship, when both of its endpoints are stored. *)
Definition edgeRow (d : InMemoryDatabase) (rel : Relationship) : option QueryResult :=
  match entities d !! Source rel, entities d !! Target rel with
  | Some sourceEntity, Some targetEntity =>
      Some (<["a" := QEntity sourceEntity]>
           (<["r" := QRelationship rel]>
           (<["b" := QEntity targetEntity]> ∅)))
  | _, _ => None
  end.

(** The first index of byte [c] in [s]. *)
Fixpoint indexByte (c : ascii) (s : string) : option nat :=
  match s with
  | EmptyString => None
  | String a s' => if Ascii.eqb a c then Some O else S <$> indexByte c s'
  end.

(** The entity-type branch of [Query]: its guard
    [len(cypher) > 12 && cypher[:12] == "MATCH (n:"], the search for the
    closing parenthesis from index 12, and [cypher[12:endIdx]]. *)
Definition typePattern (cypher : string) : option string :=
  if (12 <? String.length cypher)%nat
     && String.eqb (substring 0 12 cypher) "MATCH (n:"
  then
    match indexByte ")"%char (dropBytes 12 cypher) with
    | Some k => Some (substring 12 k cypher)
    | None => None
    end
  else None.

(** [typeCounts[t]++] for each type in turn.  The counts are Go [int]s; a
    count never exceeds the number of stored records, so it does not wrap. *)
Definition countTypes (types : list string) : gmap string Z :=
  fold_left (λ typeCounts t, <[t := (default 0 (typeCounts !! t) + 1)%Z]> typeCounts)
    types ∅.

Definition statisticsRow (tc : string * Z) : QueryResult :=
  <["type" := QString tc.1]> (<["count" := QInt tc.2]> ∅).

Definition statisticsRows (typeCounts : gmap string Z) : list QueryResult :=
  statisticsRow <$> map_to_list typeCounts.

(** [Query]: it only reads the store, ignores [parameters], and never
    returns an error. *)
Definition Query (d : InMemoryDatabase) (cypher : string) (parameters : PropertyMap)
    : list QueryResult * option string :=
  if String.eqb cypher matchEntities then (entityRow <$> storedEntities d, None)
  else if String.eqb cypher matchEdges then (omap (edgeRow d) (storedEdges d), None)
  else
    match typePattern cypher with
    | Some entityType =>
        (entityRow <$> filter (λ entity, Type_ entity = entityType) (storedEntities d),
         None)
    | None =>
        if String.eqb cypher entityStatistics
        then (statisticsRows (countTypes (Type_ <$> storedEntities d)), None)
        else if String.eqb cypher relationshipStatistics
        then (statisticsRows (countTypes (RelType <$> storedEdges d)), None)
        else ([], None)
    end.

(** [GetEntityByID] *)
Definition GetEntityByID (d : InMemoryDatabase) (id : string)
    : option Entity * option string :=
  match entities d !! id with
  | Some entity => (Some entity, None)
  | None => (None, Some "entity not found")
  end.

(** [GetAllEntities] *)
Definition GetAllEntities (d : InMemoryDatabase) : list Entity := storedEntities d.

(** ** The Memgraph store: its pure helpers *)

(** [flattenProperties]: every key gets the prefix [prop_]. *)
Definition flattenProperties (props : PropertyMap) : PropertyMap :=
  map_fold (λ key value flattened, <["prop_" +:+ key := value]> flattened) ∅ props.

(** [escapeLabel] *)
Definition reservedKeywords : list string :=
  ["DIRECTORY"; "FILE"; "DATA"; "TYPE"; "INDEX"; "KEY"; "NODE"; "EDGE"; "GRAPH";
   "DATABASE"; "USER"; "ROLE"; "CONFIG"; "SETTING"; "STATUS"; "VERSION";
   "SESSION"; "QUERY"; "INFO"; "STATS"; "MODE"; "TIMEOUT"; "STREAM"; "TRIGGER";
   "FUNCTION"; "MODULE"; "CLASS"; "METHOD"; "VARIABLE"; "CONSTANT"; "PROPERTY";
   "PARAMETER"; "IMPORT"; "EXPORT"; "PACKAGE"; "NAMESPACE"; "INTERFACE"; "ENUM";
   "COMMENT"; "TEST"].

(** The characters of the [ContainsAny] test: space, the punctuation
    listed in the source, backslash, double quote and single quote. *)
Definition specialCharacters : string :=
  " -+" +:+ String "*"%char "/()[]{}.,;:!?@#$%^&=<>|"
  +:+ String (ascii_of_N 92) (String (ascii_of_N 34) "'").

Definition backtick : string := String (ascii_of_N 96) "".

Definition escapeLabel (label : string) : string :=
  if bool_decide (ToUpper label ∈ reservedKeywords) then backtick +:+ label +:+ backtick
  else if ContainsAny label specialCharacters then backtick +:+ label +:+ backtick
  else label.

End db.

(* ===================================================================== *)
(** * Package [path/filepath] (Unix), as far as the orchestrator uses it *)
(* ===================================================================== *)

Module filepath.

Definition slash : ascii := "/"%char.

Fixpoint containsByte (c : ascii) (s : string) : bool :=
  match s with
  | EmptyString => false
  | String a s' => Ascii.eqb a c || containsByte c s'
  end.

(** The path elements between separators; never the empty list. *)
Fixpoint splitOn (sep : ascii) (s : string) : list string :=
  match s with
  | EmptyString => [EmptyString]
  | String c s' =>
      if Ascii.eqb c sep then EmptyString :: splitOn sep s'
      else match splitOn sep s' with
           | [] => [String c EmptyString]
           | x :: xs => String c x :: xs
           end
  end.

(** One element of [Clean]'s scan; [stack] holds the kept elements, last
    first. *)
Definition cleanStep (rooted : bool) (stack : list string) (elem : string)
    : list string :=
  if String.eqb elem "" || String.eqb elem "." then stack
  else if String.eqb elem ".." then
    match stack with
    | top :: rest => if String.eqb top ".." then ".." :: stack else rest
    | [] => if rooted then [] else [".."]
    end
  else elem :: stack.

Definition cleanStack (path : string) : list string :=
  fold_left (cleanStep (HasPrefix path "/")) (splitOn slash path) [].

Definition render (rooted : bool) (stack : list string) : string :=
  let out := (if rooted then "/" else "") +:+ Join (rev stack) "/" in
  if String.eqb out "" then "." else out.

(** [filepath.Clean] *)
Definition Clean (path : string) : string :=
  if String.eqb path "" then "."
  else render (HasPrefix path "/") (cleanStack path).

(** [path[:i+1]] for the last separator [i]; empty without a separator. *)
Fixpoint upToLastSlash (path : string) : string :=
  match path with
  | EmptyString => EmptyString
  | String c s' =>
      let r := upToLastSlash s' in
      if negb (String.eqb r "") || Ascii.eqb c slash then String c r else EmptyString
  end.

(** [filepath.Dir] *)
Definition Dir (path : string) : string := Clean (upToLastSlash path).

(** [filepath.Base] *)
Definition Base (path : string) : string :=
  if String.eqb path "" then "."
  else
    match filter (λ e, e ≠ "") (splitOn slash path) with
    | [] => "/"
    | e :: es => List.last es e
    end.

(** [filepath.Ext] *)
Fixpoint Ext (path : string) : string :=
  match path with
  | EmptyString => EmptyString
  | String c s' =>
      match Ext s' with
      | EmptyString =>
          if Ascii.eqb c "."%char && negb (containsByte slash s') then path
          else EmptyString
      | e => e
      end
  end.

(** [filepath.Join] of two elements. *)
Definition Join (dir name : string) : string :=
  if String.eqb dir "" then (if String.eqb name "" then "" else Clean name)
  else if String.eqb name "" then Clean dir
  else Clean (dir +:+ "/" +:+ name).

End filepath.

(* ===================================================================== *)
(** * Package [core] *)
(* ===================================================================== *)

Module core.

(** [graph.CodeFile]; [LastModified] is kept in its RFC 3339 rendering. *)
Record CodeFile : Type := mkCodeFile {
  Path : string;
  Name : string;
  Extension : string;
  Content : string;
  Language : string;
  Size : Z;
  LastModified : string
}.

Definition AnalyzeResult : Type := list Entity * list Relationship * option string.

(** [LanguageAnalyzer] (analyzer.go) *)
Record LanguageAnalyzer : Type := mkAnalyzer {
  AnalyzerName : string;
  SupportedLanguages : list string;
  Analyze : CodeFile → Entity → AnalyzeResult
}.

(** The line-pattern extractors of the five language analyzers.  They are
    functions of the file and its entity; what they match is not modelled. *)
Record Extractors : Type := mkExtractors {
  analyzeGoFile : CodeFile → Entity → AnalyzeResult;
  analyzeTypeScriptFile : CodeFile → Entity → AnalyzeResult;
  analyzePythonFile : CodeFile → Entity → AnalyzeResult;
  analyzeJavaFile : CodeFile → Entity → AnalyzeResult;
  analyzeJSONFile : CodeFile → Entity → AnalyzeResult
}.

(** What every extractor returns on a file in which none of its patterns
    matches, an empty file for one: each starts from
    [entities := []graph.Entity{fileEntity}] and appends per match. *)
Definition noMatch : CodeFile → Entity → AnalyzeResult :=
  λ _ fileEntity, ([fileEntity], [], None).

Definition onEmptyFiles : Extractors :=
  {| analyzeGoFile := noMatch; analyzeTypeScriptFile := noMatch;
     analyzePythonFile := noMatch; analyzeJavaFile := noMatch;
     analyzeJSONFile := noMatch |}.

(** generic.go *)
Definition GenericAnalyzer : LanguageAnalyzer :=
  {| AnalyzerName := "Generic Analyzer";
     SupportedLanguages := ["unknown"];
     Analyze := λ _ fileEntity, ([fileEntity], [], None) |}.

(** A file tree as the walk reads it: a file has a name, its content
    ([None] when it cannot be read) and its modification time; a directory
    has a name and its entries in the order [os.ReadDir] lists them. *)
#[local] Unset Elimination Schemes.
Inductive FsNode : Type :=
  | FsFile (name : string) (content : option string) (modTime : string)
  | FsDir (name : string) (entries : list FsNode).
#[local] Set Elimination Schemes.

Definition nodeName (n : FsNode) : string :=
  match n with
  | FsFile name _ _ => name
  | FsDir name _ => name
  end.

(** What [scanDirectory] logs and collects, in order. *)
Inductive WalkEvent : Type :=
  | SkippingDirectory (path : string)
  | CheckingFile (path ext : string)
  | ProcessingSupported (path : string)
  | FailedToRead (path : string)
  | FoundFile (file : CodeFile)
  | SkippingUnsupported (path : string).

Definition foundFile (ev : WalkEvent) : option CodeFile :=
  match ev with
  | FoundFile file => Some file
  | _ => None
  end.

Section WithExtractors.

Context (X : Extractors).

Definition GoAnalyzer : LanguageAnalyzer :=
  {| AnalyzerName := "Go Analyzer"; SupportedLanguages := ["go"];
     Analyze := analyzeGoFile X |}.

Definition TypeScriptAnalyzer : LanguageAnalyzer :=
  {| AnalyzerName := "TypeScript Analyzer";
     SupportedLanguages := ["typescript"; "javascript"];
     Analyze := analyzeTypeScriptFile X |}.

Definition PythonAnalyzer : LanguageAnalyzer :=
  {| AnalyzerName := "Python Analyzer"; SupportedLanguages := ["python"];
     Analyze := analyzePythonFile X |}.

Definition JavaAnalyzer : LanguageAnalyzer :=
  {| AnalyzerName := "Java Analyzer"; SupportedLanguages := ["java"];
     Analyze := analyzeJavaFile X |}.

Definition JSONAnalyzer : LanguageAnalyzer :=
  {| AnalyzerName := "JSON Analyzer"; SupportedLanguages := ["json"];
     Analyze := analyzeJSONFile X |}.

(** [AnalyzerRegistry.RegisterAnalyzer] *)
Definition RegisterAnalyzer (analyzers : gmap string LanguageAnalyzer)
    (analyzer : LanguageAnalyzer) : gmap string LanguageAnalyzer :=
  fold_left (λ acc lang, <[lang := analyzer]> acc) (SupportedLanguages analyzer) analyzers.

(** [NewAnalyzerRegistry] *)
Definition NewAnalyzerRegistry : gmap string LanguageAnalyzer :=
  fold_left RegisterAnalyzer
    [GoAnalyzer; TypeScriptAnalyzer; PythonAnalyzer; JavaAnalyzer; JSONAnalyzer;
     GenericAnalyzer] ∅.

(** [AnalyzerRegistry.GetAnalyzer] *)
Definition GetAnalyzer (analyzers : gmap string LanguageAnalyzer)
    (language : string) : LanguageAnalyzer :=
  match analyzers !! language with
  | Some analyzer => analyzer
  | None => GenericAnalyzer
  end.

(** [CodeProcessor] (code_processor.go) *)
Record CodeProcessor : Type := mkCodeProcessor {
  supportedExtensions : gmap string bool;
  languageMap : gmap string string;
  analyzerRegistry : gmap string LanguageAnalyzer
}.

(** [NewCodeProcessor] *)
Definition NewCodeProcessor : CodeProcessor :=
  {| supportedExtensions :=
       list_to_map
         ((λ ext, (ext, true)) <$>
          [".ts"; ".js"; ".tsx"; ".jsx"; ".py"; ".java"; ".cpp"; ".c"; ".h";
           ".hpp"; ".cs"; ".go"; ".rs"; ".rb"; ".php"; ".json"; ".yaml";
           ".yml"; ".xml"; ".md"; ".txt"; ".sql"]);
     languageMap :=
       list_to_map
         [(".ts", "typescript"); (".tsx", "typescript"); (".js", "javascript");
          (".jsx", "javascript"); (".py", "python"); (".java", "java");
          (".cpp", "cpp"); (".c", "c"); (".h", "c"); (".hpp", "cpp");
          (".cs", "csharp"); (".go", "go"); (".rs", "rust"); (".rb", "ruby");
          (".php", "php"); (".json", "json"); (".yaml", "yaml");
          (".yml", "yaml"); (".xml", "xml"); (".md", "markdown");
          (".sql", "sql")];
     analyzerRegistry := NewAnalyzerRegistry |}.

(** [cp.supportedExtensions[ext]]: false for an absent key. *)
Definition isSupported (cp : CodeProcessor) (ext : string) : bool :=
  default false (supportedExtensions cp !! ext).

(** The language lookup of [createCodeFile] and [ProcessSingleFile]. *)
Definition languageOf (cp : CodeProcessor) (ext : string) : string :=
  let language := default "" (languageMap cp !! ext) in
  if String.eqb language "" then "unknown" else language.

(** [shouldSkipDirectory] *)
Definition skipDirs : list string :=
  ["node_modules"; ".git"; ".svn"; "dist"; "build"; "out"; "target"; "bin";
   "obj"; ".vscode"; ".idea"; "__pycache__"; "coverage"; ".nyc_output";
   "tmp"; "temp"; "logs"; "vendor"].

Definition shouldSkipDirectory (dirName : string) : bool :=
  if String.eqb dirName "." then false
  else bool_decide (dirName ∈ skipDirs) || HasPrefix dirName ".".

(** [createCodeFile], on the content and modification time read from disk. *)
Definition createCodeFile (cp : CodeProcessor) (filePath : string)
    (content : option string) (modTime : string) : option CodeFile :=
  match content with
  | None => None
  | Some content =>
      let ext := ToLower (filepath.Ext filePath) in
      Some {| Path := filePath;
              Name := filepath.Base filePath;
              Extension := ext;
              Content := content;
              Language := languageOf cp ext;
              Size := Z.of_nat (String.length content);
              LastModified := modTime |}
  end.

(** The callback of [scanDirectory] on a file. *)
Definition visitFile (cp : CodeProcessor) (path : string)
    (content : option string) (modTime : string) : list WalkEvent :=
  let ext := ToLower (filepath.Ext path) in
  CheckingFile path ext ::
  if isSupported cp ext then
    ProcessingSupported path ::
    match createCodeFile cp path content modTime with
    | None => [FailedToRead path]
    | Some file => [FoundFile file]
    end
  else [SkippingUnsupported path].

(** [filepath.WalkDir] with the callback of [scanDirectory]: [path] is the
    path of [node], [dirPath] the root of the walk. *)
Fixpoint walkDir (cp : CodeProcessor) (dirPath path : string) (node : FsNode)
    : list WalkEvent :=
  match node with
  | FsFile _ content modTime => visitFile cp path content modTime
  | FsDir name entries =>
      if negb (String.eqb path dirPath) && shouldSkipDirectory name
      then [SkippingDirectory path]
      else
        flat_map
          (λ entry, walkDir cp dirPath (filepath.Join path (nodeName entry)) entry)
          entries
  end.

(** [scanDirectory]; an absent root ([None]) is the walk's only error. *)
Definition scanEvents (cp : CodeProcessor) (dirPath : string)
    (root : option FsNode) : list WalkEvent :=
  match root with
  | None => []
  | Some node => walkDir cp dirPath dirPath node
  end.

Definition scanDirectory (cp : CodeProcessor) (dirPath : string)
    (root : option FsNode) : list CodeFile * option string :=
  (omap foundFile (scanEvents cp dirPath root),
   match root with
   | None => Some ("lstat " +:+ dirPath +:+ ": no such file or directory")
   | Some _ => None
   end).

(** The loop of [extractDirectories] for one file: [dir] and its parents
    until ".", "/" or "" is reached.  [fuel] bounds the iterations; the
    length of the file's path is enough, since each [filepath.Dir] that does
    not end the loop returns a shorter path ([parentChain_of_file]). *)
Definition isTop (dir : string) : bool :=
  String.eqb dir "." || String.eqb dir "/" || String.eqb dir "".

Fixpoint parentChain (fuel : nat) (dir : string) : list string :=
  if isTop dir then []
  else
    match fuel with
    | O => []
    | S fuel' => dir :: parentChain fuel' (filepath.Dir dir)
    end.

(** [extractDirectories]: the set of directories, listed in map order. *)
Definition directorySet (files : list CodeFile) : gset string :=
  list_to_set
    (flat_map
       (λ file, parentChain (String.length (Path file)) (filepath.Dir (Path file)))
       files).

Definition extractDirectories (files : list CodeFile) : list string :=
  elements (directorySet files).

(** [createDirectoryEntity] *)
Definition createDirectoryEntity (dirPath rootPath : string) : Entity :=
  let relativePath := TrimPrefix (TrimPrefix dirPath rootPath) "/" in
  let baseName := filepath.Base dirPath in
  let baseName :=
    if String.eqb baseName "." || String.eqb baseName "" then "root" else baseName in
  graph.CreateEntity baseName graph.EntityTypeDirectory
    (Some (<["path" := VString dirPath]>
          (<["relativePath" := VString relativePath]>
          (<["fullPath" := VString dirPath]> ∅)))).

(** [createFileEntity] *)
Definition createFileEntity (file : CodeFile) : Entity :=
  let lineCount := S (countByte newline (Content file)) in
  graph.CreateEntity (Name file) graph.EntityTypeFile
    (Some (<["path" := VString (Path file)]>
          (<["extension" := VString (Extension file)]>
          (<["language" := VString (Language file)]>
          (<["size" := VInt (Size file)]>
          (<["lastModified" := VString (LastModified file)]>
          (<["lineCount" := VInt (Z.of_nat lineCount)]> ∅))))))).

(** [analyzeFile] *)
Definition analyzeFile (cp : CodeProcessor) (file : CodeFile) : AnalyzeResult :=
  let fileEntity := createFileEntity file in
  let analyzer := GetAnalyzer (analyzerRegistry cp) (Language file) in
  Analyze analyzer file fileEntity.

(** [entity.Properties["path"].(string)] equal to [p] *)
Definition hasPath (entity : Entity) (p : string) : bool :=
  match Properties entity !! "path" with
  | Some (VString path) => String.eqb path p
  | _ => false
  end.

(** The last entity of [allEntities] that satisfies [test]: the loop of
    [createFileDirectoryRelationships] overwrites its pointer at each hit. *)
Definition lastThat (test : Entity → bool) (allEntities : list Entity)
    : option Entity :=
  fold_left (λ found entity, if test entity then Some entity else found)
    allEntities None.

(** [createFileDirectoryRelationships] *)
Definition createFileDirectoryRelationships (file : CodeFile)
    (allEntities : list Entity) : list Relationship :=
  let fileDir := filepath.Dir (Path file) in
  let dirEntity :=
    lastThat (λ entity, String.eqb (Type_ entity) graph.EntityTypeDirectory
                        && hasPath entity fileDir) allEntities in
  let fileEntity :=
    lastThat (λ entity, String.eqb (Type_ entity) graph.EntityTypeFile
                        && hasPath entity (Path file)) allEntities in
  match dirEntity, fileEntity with
  | Some dirEntity, Some fileEntity =>
      [graph.CreateRelationship (ID dirEntity) (ID fileEntity)
         graph.RelationshipTypeContains None]
  | _, _ => []
  end.

(** [createImportRelationships] *)
Definition createImportRelationships (entities : list Entity) : list Relationship :=
  let importEntities :=
    filter (λ e, Type_ e = graph.EntityTypeImport) entities in
  let moduleEntities :=
    filter (λ e, Type_ e = graph.EntityTypeFile ∨ Type_ e = graph.EntityTypeModule)
      entities in
  flat_map
    (λ importEntity,
       match Properties importEntity !! "source" with
       | Some (VString source) =>
           match
             List.find
               (λ moduleEntity,
                  Contains (Label moduleEntity) source
                  && match Properties moduleEntity !! "path" with
                     | Some (VString path) => Contains path source
                     | _ => false
                     end)
               moduleEntities
           with
           | Some moduleEntity =>
               [graph.CreateRelationship (ID importEntity) (ID moduleEntity)
                  graph.RelationshipTypeReferences None]
           | None => []
           end
       | _ => []
       end)
    importEntities.

(** The per-file loop of [AnalyzeCodebase]. *)
Fixpoint processFiles (cp : CodeProcessor) (files : list CodeFile)
    (allEntities : list Entity) (allRelationships : list Relationship)
    : list Entity * list Relationship :=
  match files with
  | [] => (allEntities, allRelationships)
  | file :: rest =>
      match analyzeFile cp file with
      | (_, _, Some _) => processFiles cp rest allEntities allRelationships
      | (entities, relationships, None) =>
          let allEntities := allEntities ++ entities in
          let allRelationships := allRelationships ++ relationships in
          let fileRelationships := createFileDirectoryRelationships file allEntities in
          processFiles cp rest allEntities (allRelationships ++ fileRelationships)
      end
  end.

(** [AnalyzeCodebase] *)
Definition AnalyzeCodebase (cp : CodeProcessor) (rootPath : string)
    (root : option FsNode) : list Entity * list Relationship * option string :=
  match scanDirectory cp rootPath root with
  | (_, Some err) => ([], [], Some ("failed to scan directory: " +:+ err))
  | (files, None) =>
      let directories := extractDirectories files in
      let allEntities := (λ dir, createDirectoryEntity dir rootPath) <$> directories in
      let '(allEntities, allRelationships) := processFiles cp files allEntities [] in
      let importRelationships := createImportRelationships allEntities in
      (allEntities, allRelationships ++ importRelationships, None)
  end.

(** [ProcessSingleFile], on the content and modification time read from
    disk; no extension filter is applied on this path.  Its own file entity
    has no [lineCount], and holds the modification time as a time value
    (kept here in the rendering [CodeFile] keeps). *)
Definition ProcessSingleFile (cp : CodeProcessor) (filePath : string)
    (content : option string) (modTime : string)
    : list Entity * list Relationship * option string :=
  match content with
  | None => ([], [], Some ("failed to read file " +:+ filePath))
  | Some content =>
      let ext := ToLower (filepath.Ext filePath) in
      let codeFile :=
        {| Path := filePath; Name := filepath.Base filePath; Extension := ext;
           Content := content; Language := languageOf cp ext;
           Size := Z.of_nat (String.length content); LastModified := modTime |} in
      match analyzeFile cp codeFile with
      | (_, _, Some err) =>
          ([], [], Some ("failed to analyze file " +:+ filePath +:+ ": " +:+ err))
      | (entities, relationships, None) =>
          let fileEntity :=
            graph.CreateEntity (Name codeFile) graph.EntityTypeFile
              (Some (<["path" := VString (Path codeFile)]>
                    (<["extension" := VString (Extension codeFile)]>
                    (<["language" := VString (Language codeFile)]>
                    (<["size" := VInt (Size codeFile)]>
                    (<["lastModified" := VString (LastModified codeFile)]> ∅)))))) in
          (fileEntity :: entities, relationships, None)
      end
  end.

End WithExtractors.

(** ** [KnowledgeGraphGenerator.StoreKnowledgeGraph] *)

(** [db.DatabaseConnection], as far as storing uses it. *)
Class DatabaseConnection (S : Type) : Type := {
  dbCreateEntity : S → Entity → S * option string;
  dbCreateRelationship : S → Relationship → S * option string
}.

#[global] Instance InMemoryConnection : DatabaseConnection db.InMemoryDatabase :=
  {| dbCreateEntity := db.CreateEntity;
     dbCreateRelationship := db.CreateRelationship |}.

(** What a run of [StoreKnowledgeGraph] leaves behind: the store, the
    returned error, the counter [successfulRelationships] and the warnings
    logged for failed relationships (source, target, type, error). *)
Record StoreOutcome (S : Type) : Type := mkOutcome {
  database : S;
  returned : option string;
  successfulRelationships : nat;
  warnings : list (string * string * string * string)
}.
Arguments mkOutcome {S}.
Arguments database {S}.
Arguments returned {S}.
Arguments successfulRelationships {S}.
Arguments warnings {S}.

Section Store.

Context {S : Type} `{DatabaseConnection S}.

(** The first loop: it returns at the first error. *)
Fixpoint storeEntities (s : S) (entities : list Entity) : S * option string :=
  match entities with
  | [] => (s, None)
  | entity :: rest =>
      match dbCreateEntity s entity with
      | (s', Some err) =>
          (s', Some ("failed to create/update entity " +:+ Label entity +:+ ": " +:+ err))
      | (s', None) => storeEntities s' rest
      end
  end.

(** The second loop: a failure is logged, a success counted, and the loop
    goes on either way. *)
Fixpoint storeRelationships (s : S) (relationships : list Relationship)
    (successful : nat) (logged : list (string * string * string * string))
    : S * nat * list (string * string * string * string) :=
  match relationships with
  | [] => (s, successful, logged)
  | relationship :: rest =>
      match dbCreateRelationship s relationship with
      | (s', Some err) =>
          storeRelationships s' rest successful
            (logged ++ [(Source relationship, Target relationship,
                         RelType relationship, err)])
      | (s', None) => storeRelationships s' rest (successful + 1) logged
      end
  end.

(** [StoreKnowledgeGraph].  The closing [debugFunctionRelationships] only
    queries and logs, and its error is logged and dropped. *)
Definition StoreKnowledgeGraph (s : S) (entities : list Entity)
    (relationships : list Relationship) : StoreOutcome S :=
  match storeEntities s entities with
  | (s', Some err) =>
      {| database := s'; returned := Some err;
         successfulRelationships := 0; warnings := [] |}
  | (s', None) =>
      let '(s'', successful, logged) := storeRelationships s' relationships 0 [] in
      {| database := s''; returned := None;
         successfulRelationships := successful; warnings := logged |}
  end.

End Store.

(** ** [KnowledgeGraphGenerator] over the in-memory store: reading *)

(** [QueryKnowledgeGraph] *)
Definition QueryKnowledgeGraph (d : db.InMemoryDatabase) (cypher : string)
    (parameters : PropertyMap) : list db.QueryResult * option string :=
  db.Query d cypher parameters.

(** [FindEntitiesByType]: [fmt.Sprintf("MATCH (n:%s) RETURN n", entityType)] *)
Definition FindEntitiesByType (d : db.InMemoryDatabase) (entityType : string)
    : list db.QueryResult * option string :=
  QueryKnowledgeGraph d ("MATCH (n:" +:+ entityType +:+ ") RETURN n") ∅.

(** [graph.GraphStatistics] *)
Record GraphStatistics : Type := mkStatistics {
  TotalEntities : Z;
  TotalRelationships : Z;
  EntitiesByType : gmap string Z;
  RelationshipsByType : gmap string Z
}.

(** [stat["type"].(string)] and [stat["count"].(int)], when both succeed. *)
Definition statisticOf (stat : db.QueryResult) : option (string * Z) :=
  match stat !! "type" with
  | Some (db.QString t) =>
      match stat !! "count" with
      | Some (db.QInt count) => Some (t, count)
      | _ => None
      end
  | _ => None
  end.

(** The loop that fills [entitiesByType] (and [relationshipsByType]). *)
Definition byType (stats : list db.QueryResult) : gmap string Z :=
  fold_left
    (λ counts stat,
       match statisticOf stat with
       | Some (t, count) => <[t := count]> counts
       | None => counts
       end)
    stats ∅.

(** [for _, count := range counts { total += count }] *)
Definition total (counts : gmap string Z) : Z :=
  map_fold (λ _ count sum, (sum + count)%Z) 0%Z counts.

(** [GetGraphStatistics] *)
Definition GetGraphStatistics (d : db.InMemoryDatabase)
    : option GraphStatistics * option string :=
  match QueryKnowledgeGraph d db.entityStatistics ∅ with
  | (_, Some err) => (None, Some ("failed to get entity stats: " +:+ err))
  | (entityStats, None) =>
      match QueryKnowledgeGraph d db.relationshipStatistics ∅ with
      | (_, Some err) => (None, Some ("failed to get relationship stats: " +:+ err))
      | (relationshipStats, None) =>
          let entitiesByType := byType entityStats in
          let relationshipsByType := byType relationshipStats in
          (Some {| TotalEntities := total entitiesByType;
                   TotalRelationships := total relationshipsByType;
                   EntitiesByType := entitiesByType;
                   RelationshipsByType := relationshipsByType |},
           None)
      end
  end.

(** [result["n"].(graph.Entity)] and [result["r"].(graph.Relationship)] *)
Definition rowEntity (result : db.QueryResult) : option Entity :=
  match result !! "n" with
  | Some (db.QEntity entity) => Some entity
  | _ => None
  end.

Definition rowRelationship (result : db.QueryResult) : option Relationship :=
  match result !! "r" with
  | Some (db.QRelationship relationship) => Some relationship
  | _ => None
  end.

(** [ExportKnowledgeGraph]; the graph is the pair of its entities and its
    relationships. *)
Definition ExportKnowledgeGraph (d : db.InMemoryDatabase)
    : option (list Entity * list Relationship) * option string :=
  match QueryKnowledgeGraph d "MATCH (n) RETURN n" ∅ with
  | (_, Some err) => (None, Some ("failed to export entities: " +:+ err))
  | (entitiesResult, None) =>
      match QueryKnowledgeGraph d "MATCH (a)-[r]->(b) RETURN a, r, b" ∅ with
      | (_, Some err) => (None, Some ("failed to export relationships: " +:+ err))
      | (relationshipsResult, None) =>
          (Some (omap rowEntity entitiesResult, omap rowRelationship relationshipsResult),
           None)
      end
  end.

(** [KnowledgeGraphGenerator.ClearDatabase]: it sends a delete statement
    through [Query], which only reads the in-memory store. *)
Definition ClearDatabase (d : db.InMemoryDatabase) : db.InMemoryDatabase * option string :=
  match (QueryKnowledgeGraph d "MATCH (n) DETACH DELETE n" ∅).2 with
  | Some err => (d, Some ("failed to clear database: " +:+ err))
  | None => (d, None)
  end.

(** [deduplicateEntities]: the key is
    [fmt.Sprintf("%s-%s", strings.ToLower(entity.Label), entity.Type)]. *)
Definition dedupKey (entity : Entity) : string :=
  ToLower (Label entity) +:+ "-" +:+ Type_ entity.

Fixpoint dedupLoop (seen : gset string) (entities : list Entity) : list Entity :=
  match entities with
  | [] => []
  | entity :: rest =>
      if decide (dedupKey entity ∈ seen) then dedupLoop seen rest
      else entity :: dedupLoop ({[dedupKey entity]} ∪ seen) rest
  end.

Definition deduplicateEntities (entities : list Entity) : list Entity :=
  dedupLoop ∅ entities.

(** ** [TextProcessor.CleanText] (text_processor.go) *)

(** The classes of the two patterns: [\s] is tab, line feed, form feed,
    carriage return and space; [\w] is the ASCII letters, the digits and the
    underscore. *)
Definition isPatternSpace (c : ascii) : bool :=
  let n := N_of_ascii c in
  (n =? 9)%N || (n =? 10)%N || (n =? 12)%N || (n =? 13)%N || (n =? 32)%N.

Definition isWordByte (c : ascii) : bool :=
  let n := N_of_ascii c in
  ((48 <=? n)%N && (n <=? 57)%N) || isUpperByte c || isLowerByte c || (n =? 95)%N.

(** Replacing every match of [\s+] by one space: a space is written at the
    end of each run. *)
Fixpoint collapseSpace (text : string) : string :=
  match text with
  | EmptyString => EmptyString
  | String c rest =>
      if isPatternSpace c then
        match rest with
        | EmptyString => String " " EmptyString
        | String c' _ =>
            if isPatternSpace c' then collapseSpace rest
            else String " " (collapseSpace rest)
        end
      else String c (collapseSpace rest)
  end.

(** The bytes that the class [[^\w\s.,!?;:()\-]] does not match.  A byte
    at or above 0x80 is matched, alone or as part of a longer rune, and so
    removed. *)
Definition isKept (c : ascii) : bool :=
  isWordByte c || isPatternSpace c || memByte c ".,!?;:()-".

Fixpoint removeSpecial (text : string) : string :=
  match text with
  | EmptyString => EmptyString
  | String c rest =>
      if isKept c then String c (removeSpecial rest) else removeSpecial rest
  end.

(** [CleanText]; [TrimSpace] gets ASCII text, the second replacement having
    removed every other byte. *)
Definition CleanText (text : string) : string :=
  TrimSpace (removeSpecial (collapseSpace text)).

End core.

(* ===================================================================== *)
(** * Package [rest] (server.go): the listing handlers *)
(* ===================================================================== *)

Module rest.

(** [AnalysisResponse], as far as the listing handlers fill it. *)
Record AnalysisResponse : Type := mkResponse {
  Success : bool;
  Message : string;
  Entities : list Entity;
  Relationships : list Relationship
}.

(** [getEntitiesHandler]: the status code and the response. *)
Definition getEntitiesHandler (d : db.InMemoryDatabase) : nat * AnalysisResponse :=
  match db.Query d "MATCH (n) RETURN n" ∅ with
  | (_, Some err) =>
      (500, {| Success := false; Message := "Failed to get entities: " +:+ err;
               Entities := []; Relationships := [] |})
  | (results, None) =>
      (200, {| Success := true; Message := "";
               Entities := omap core.rowEntity results; Relationships := [] |})
  end.

(** [getRelationshipsHandler] *)
Definition getRelationshipsHandler (d : db.InMemoryDatabase) : nat * AnalysisResponse :=
  match db.Query d "MATCH (a)-[r]->(b) RETURN r" ∅ with
  | (_, Some err) =>
      (500, {| Success := false; Message := "Failed to get relationships: " +:+ err;
               Entities := []; Relationships := [] |})
  | (results, None) =>
      (200, {| Success := true; Message := "";
               Entities := []; Relationships := omap core.rowRelationship results |})
  end.

End rest.

(* ===================================================================== *)
(** * Package [cmd]: the file command's test for code files *)
(* ===================================================================== *)

Module cmd.

Definition codeExtensions : gmap string bool :=
  list_to_map
    ((λ ext, (ext, true)) <$>
     [".go"; ".js"; ".ts"; ".tsx"; ".jsx"; ".py"; ".java"; ".cpp"; ".c"; ".h";
      ".hpp"; ".cs"; ".php"; ".rb"; ".rs"; ".swift"; ".kt"; ".scala"; ".json"]).

(** [isCodeFile] *)
Definition isCodeFile (filePath : string) : bool :=
  let ext := ToLower (filepath.Ext filePath) in
  default false (codeExtensions !! ext).

End cmd.

(* ===================================================================== *)
(** * Notions used to state the properties *)
(* ===================================================================== *)

(** Two bytes that are the same letter in either case. *)
Definition caseVariantByte (a b : ascii) : Prop :=
  a = b ∨ b = toUpperByte a ∨ b = toLowerByte a.

(** Two strings that differ at most in the case of their letters. *)
Inductive caseVariant : string → string → Prop :=
  | caseVariant_empty : caseVariant "" ""
  | caseVariant_byte a b s t :
      caseVariantByte a b → caseVariant s t →
      caseVariant (String a s) (String b t).




(** The discriminators that follow type and label in the identity key. *)
Definition discriminators (p : PropertyMap) : list string :=
  graph.pathParts p ++ graph.sourceParts p
    ++ graph.namespaceParts p ++ graph.packageParts p.


Definition joinAfter (parts : list string) (sep : string) : string :=
  foldr (λ p acc, sep +:+ p +:+ acc) "" parts.

(** An insert-or-merge into a map keyed by [key], and what it does to the
    slot of one key. *)
Definition upsert {A : Type} (key : A → string) (merge : A → A → A)
    (m : gmap string A) (x : A) : gmap string A :=
  <[key x := match m !! key x with Some old => merge old x | None => x end]> m.

Definition slot {A : Type} (merge : A → A → A) (o : option A) (x : A) : option A :=
  Some (match o with Some old => merge old x | None => x end).

(** The merge of [db.CreateEntity], on an existing record. *)
Definition mergeEntity (existingEntity entity : Entity) : Entity :=
  {| ID := ID existingEntity;
     Label := Label entity;
     Type_ := Type_ existingEntity;
     Properties := db.mergeProperties (Properties existingEntity) (Properties entity);
     Confidence :=
       if db.gt (Confidence entity) (Confidence existingEntity)
       then Confidence entity else Confidence existingEntity |}.

(** The merge of [db.CreateRelationship], on an existing record. *)
Definition mergeRelationship (existingRel relationship : Relationship) : Relationship :=
  {| RelID := RelID existingRel;
     Source := Source existingRel;
     Target := Target existingRel;
     RelType := RelType existingRel;
     RelProperties :=
       db.mergeProperties (RelProperties existingRel) (RelProperties relationship);
     RelConfidence :=
       if db.gt (RelConfidence relationship) (RelConfidence existingRel)
       then RelConfidence relationship else RelConfidence existingRel |}.

(** The greatest of a non-empty list of confidences. *)
Definition maxConfidence (c : Q) (cs : list Q) : Q := fold_left Qmax cs c.

(** The union of the property maps of a list of records, later ones first. *)
Definition laterFirst {A : Type} (props : A → PropertyMap) (l : list A) : PropertyMap :=
  fold_left (λ acc x, props x ∪ acc) l ∅.

(** The edge a relationship stands for. *)
Definition edgeOf (r : Relationship) : string * string * string :=
  (Source r, Target r, RelType r).

(** Ids that follow the edges, as derived ids do: none is empty, and two
    records have the same id exactly when they stand for the same edge. *)
Definition idsFollowEdges (rs : list Relationship) : Prop :=
  Forall (λ r, RelID r ≠ "") rs
  ∧ ∀ r1 r2, r1 ∈ rs → r2 ∈ rs → (RelID r1 = RelID r2 ↔ edgeOf r1 = edgeOf r2).

(** Every stored relationship is filed under its own id. *)
Definition filedUnderID (rels : gmap string Relationship) : Prop :=
  ∀ k r, rels !! k = Some r → RelID r = k.

(** The stored relationships. *)
Definition storedRelationships (rels : gmap string Relationship) : list Relationship :=
  (map_to_list rels).*2.


(** No two stored relationships stand for the same edge. *)
Definition edgesUnique (rels : gmap string Relationship) : Prop :=
  ∀ k1 k2 r1 r2,
    rels !! k1 = Some r1 → rels !! k2 = Some r2 → edgeOf r1 = edgeOf r2 → k1 = k2.

(** The invariant that holds when no relationship id is empty. *)
Definition dedupInvariant (rels : gmap string Relationship) : Prop :=
  (∀ k r, rels !! k = Some r → k ≠ "") ∧ edgesUnique rels.

(** The states that calls can reach from a state, whatever order Go's map
    iteration takes in the search loop of [db.CreateRelationship]; [P]
    restricts the relationships that are passed in. *)
Inductive reachable (P : Relationship → Prop) (d0 : db.InMemoryDatabase)
    : db.InMemoryDatabase → Prop :=
  | reachable_start : reachable P d0 d0
  | reachable_entity d entity :
      reachable P d0 d → reachable P d0 (db.CreateEntity d entity).1
  | reachable_relationship d relationship existingID :
      reachable P d0 d →
      P relationship →
      db.loopLeaves (db.relationships d) relationship existingID →
      reachable P d0 (db.CreateRelationshipWith existingID d relationship).1
  | reachable_clear d :
      reachable P d0 d → reachable P d0 (db.ClearDatabase d).1.

(** The store invariant relative to a universe [U] of records whose ids
    follow their edges: each stored record is filed under its id and
    carries the id and the edge of a record of [U]. *)
Definition within (U : list Relationship) (rels : gmap string Relationship) : Prop :=
  ∀ k r, rels !! k = Some r →
    RelID r = k ∧ ∃ u, u ∈ U ∧ RelID u = RelID r ∧ edgeOf u = edgeOf r.

(** Referential integrity: both endpoints of every stored relationship
    are stored entities. *)
Definition endpointsStored (d : db.InMemoryDatabase) : Prop :=
  ∀ k r, db.relationships d !! k = Some r →
    is_Some (db.entities d !! Source r) ∧ is_Some (db.entities d !! Target r).

(** How often [t] occurs in a list of type names. *)
Definition occurrences (t : string) (types : list string) : Z :=
  Z.of_nat (length (filter (λ x, x = t) types)).

(** The relationships of a batch that [StoreKnowledgeGraph] stores in [d],
    those whose endpoints [d] holds, and the warnings it logs for the
    others. *)
Definition accepted (d : db.InMemoryDatabase) (rs : list Relationship)
    : list Relationship :=
  filter (λ r, db.checkEndpoints d r = None) rs.

Definition refusals (d : db.InMemoryDatabase) (rs : list Relationship)
    : list (string * string * string * string) :=
  omap (λ r, (λ err, (Source r, Target r, RelType r, err)) <$> db.checkEndpoints d r) rs.

(** A string without the separator of the identity keys. *)
Definition barFree (s : string) : Prop := filepath.containsByte "|"%char s = false.

(** A relationship as [graph.CreateRelationship] builds it between two ids
    without a separator: its id is derived from source, type and target. *)
Definition built (r : Relationship) : Prop :=
  RelID r = graph.generateDeterministicRelationshipID (Source r) (Target r) (RelType r)
  ∧ barFree (Source r) ∧ barFree (Target r).

(** ** Example data *)

Definition exampleEntity (i : string) : Entity :=
  {| ID := i; Label := i; Type_ := "CLASS"; Properties := ∅; Confidence := 1 |}.

Definition exampleEdge (i target : string) (c : Q) (p : PropertyMap) : Relationship :=
  {| RelID := i; Source := "a"; Target := target; RelType := "USES";
     RelProperties := p; RelConfidence := c |}.







(** Two relationships for the edge a→b, the first with the empty id. *)
Definition unnamedEdge : Relationship := exampleEdge "" "b" 1 ∅.
Definition namedEdge : Relationship := exampleEdge "x" "b" 1 ∅.

Definition beforeNamedEdge : db.InMemoryDatabase :=
  db.runCalls db.NewInMemoryDatabase
    [db.CallCreateEntity (exampleEntity "a"); db.CallCreateEntity (exampleEntity "b");
     db.CallCreateRelationship unnamedEdge].

Definition afterNamedEdge : db.InMemoryDatabase :=
  db.runCalls beforeNamedEdge [db.CallCreateRelationship namedEdge].

(** A store with two entities and one relationship between them. *)
Definition sampleStore : db.InMemoryDatabase :=
  db.runCalls db.NewInMemoryDatabase
    [db.CallCreateEntity (exampleEntity "a"); db.CallCreateEntity (exampleEntity "b");
     db.CallCreateRelationship (exampleEdge "ab" "b" 1 ∅)].

(** A batch of relationships in which the second one names an entity the
    sample store does not hold. *)
Definition brokenBatch : list Relationship :=
  [exampleEdge "ab" "b" (1 # 2) ∅; exampleEdge "ac" "c" 1 ∅; exampleEdge "ab2" "b" 1 ∅].

(** A batch built with the constructors of [graph]: two entities, the
    relationship between them twice, and a relationship to an entity that
    is not in the batch. *)
Definition sampleA : Entity := graph.CreateEntity "Alpha" "CLASS" None.
Definition sampleB : Entity := graph.CreateEntity "Beta" "CLASS" None.
Definition sampleC : Entity := graph.CreateEntity "Gamma" "CLASS" None.

Definition sampleEntities : list Entity := [sampleA; sampleB].

Definition sampleBatch : list Relationship :=
  [graph.CreateRelationship (ID sampleA) (ID sampleB) "USES" None;
   graph.CreateRelationship (ID sampleA) (ID sampleC) "USES" None;
   graph.CreateRelationship (ID sampleA) (ID sampleB) "USES" (Some {[ "k" := VInt 1 ]})].

Definition sampleStored : core.StoreOutcome db.InMemoryDatabase :=
  core.StoreKnowledgeGraph db.NewInMemoryDatabase sampleEntities sampleBatch.

(** ** Paths and file trees *)

(** A real entry name: not empty, not "." or "..", without a separator. *)
Definition validName (n : string) : bool :=
  negb (String.eqb n "") && negb (String.eqb n ".") && negb (String.eqb n "..")
  && negb (filepath.containsByte filepath.slash n).





(** The stacks [Clean] builds: on top of the stack either nothing, or ".."
    over nothing but ".." (unrooted paths only), or a real element. *)
Inductive cleanStackShape (rooted : bool) : list string → Prop :=
  | shape_empty : cleanStackShape rooted []
  | shape_dotdot stack :
      rooted = false → Forall (λ e, e = "..") stack →
      cleanStackShape rooted (".." :: stack)
  | shape_element e stack :
      validName e = true → cleanStackShape rooted stack →
      cleanStackShape rooted (e :: stack).


(** The bytes a list of path elements takes when each is followed by a
    separator, and the number of empty elements in it. *)
Definition weight (elems : list string) : nat :=
  foldr (λ e n, S (String.length e) + n) 0 elems.

Definition blanks (elems : list string) : nat :=
  foldr (λ e n, (if String.eqb e "" then 1 else 0) + n) 0 elems.



(** ** The scaffold example: a/b/x.go and a/y.go under the root a *)

Definition scaffoldTree (contentX contentY : string) : core.FsNode :=
  core.FsDir "a"
    [core.FsDir "b" [core.FsFile "x.go" (Some contentX) "2024-01-01T00:00:00Z"];
     core.FsFile "y.go" (Some contentY) "2024-01-01T00:00:00Z"].

Definition goFile (path name content : string) : core.CodeFile :=
  {| core.Path := path; core.Name := name; core.Extension := ".go";
     core.Content := content; core.Language := "go";
     core.Size := Z.of_nat (String.length content);
     core.LastModified := "2024-01-01T00:00:00Z" |}.

Definition fileX (content : string) : core.CodeFile := goFile "a/b/x.go" "x.go" content.
Definition fileY (content : string) : core.CodeFile := goFile "a/y.go" "y.go" content.

Definition directoryA : Entity := core.createDirectoryEntity "a" "a".
Definition directoryB : Entity := core.createDirectoryEntity "a/b" "a".

Definition contains (parent child : Entity) : Relationship :=
  graph.CreateRelationship (ID parent) (ID child) graph.RelationshipTypeContains None.

(** What the Go analyzer is relied on for: it returns without error a list
    that starts with the file entity, and creates no file or directory
    entity of its own (analyzeGoFile creates packages, imports, classes,
    properties, functions, interfaces, types and constants). *)
Definition notScaffold (e : Entity) : Prop :=
  Type_ e ≠ graph.EntityTypeFile ∧ Type_ e ≠ graph.EntityTypeDirectory.

Definition goContract (X : core.Extractors) : Prop :=
  ∀ file fileEntity, ∃ es rs,
    core.analyzeGoFile X file fileEntity = (fileEntity :: es, rs, None)
    ∧ Forall notScaffold es.

(** The edges the orchestrator adds to what the analyzers return.  A
    [contains] edge for [file] leads from a directory entity of [es] whose
    path is the directory of the file to a file entity of [es] whose path is
    the file's; a [references] edge leads from an import entity of [es] to a
    file or module entity of [es] whose label and path contain the import's
    source. *)
Definition containsEdge (file : core.CodeFile) (es : list Entity) (r : Relationship)
    : Prop :=
  ∃ dirEntity fileEntity,
    dirEntity ∈ es ∧ fileEntity ∈ es
    ∧ Type_ dirEntity = graph.EntityTypeDirectory
    ∧ Properties dirEntity !! "path" = Some (VString (filepath.Dir (core.Path file)))
    ∧ Type_ fileEntity = graph.EntityTypeFile
    ∧ Properties fileEntity !! "path" = Some (VString (core.Path file))
    ∧ r = graph.CreateRelationship (ID dirEntity) (ID fileEntity)
            graph.RelationshipTypeContains None.

Definition referencesEdge (es : list Entity) (r : Relationship) : Prop :=
  ∃ importEntity moduleEntity source path,
    importEntity ∈ es ∧ moduleEntity ∈ es
    ∧ Type_ importEntity = graph.EntityTypeImport
    ∧ (Type_ moduleEntity = graph.EntityTypeFile
       ∨ Type_ moduleEntity = graph.EntityTypeModule)
    ∧ Properties importEntity !! "source" = Some (VString source)
    ∧ Contains (Label moduleEntity) source = true
    ∧ Properties moduleEntity !! "path" = Some (VString path)
    ∧ Contains path source = true
    ∧ r = graph.CreateRelationship (ID importEntity) (ID moduleEntity)
            graph.RelationshipTypeReferences None.

(** Analyzers whose output is closed: the ids of the entities they return
    hold no separator, and every relationship they return is built by
    [graph.CreateRelationship] between two of those entities.  (The
    analyzers of the repository build their entities with
    [graph.CreateEntity].) *)
Definition closedAnalyzers (X : core.Extractors) : Prop :=
  ∀ file es rs,
    core.analyzeFile (core.NewCodeProcessor X) file = (es, rs, None) →
    Forall (λ e, barFree (ID e)) es
    ∧ Forall (λ r, built r ∧ Source r ∈ ID <$> es ∧ Target r ∈ ID <$> es) rs.

(** The languages for which [NewAnalyzerRegistry] registers an analyzer of
    their own. *)
Definition dedicatedLanguages : list string :=
  ["go"; "typescript"; "javascript"; "python"; "java"; "json"].

(** The supported extensions whose language has no analyzer of its own. *)
Definition genericExtensions : list string :=
  [".cpp"; ".c"; ".h"; ".hpp"; ".cs"; ".rs"; ".rb"; ".php"; ".yaml"; ".yml";
   ".xml"; ".md"; ".sql"; ".txt"].

Definition rustFile : core.CodeFile :=
  {| core.Path := "src/main.rs"; core.Name := "main.rs"; core.Extension := ".rs";
     core.Content := "fn main() {}"; core.Language := "rust";
     core.Size := 12; core.LastModified := "2024-01-01T00:00:00Z" |}.

(** A tree in which the root and one directory below it carry a name of the
    exclusion set. *)
Definition prunedTree : core.FsNode :=
  core.FsDir "node_modules"
    [core.FsFile "keep.go" (Some "") "2024-01-01T00:00:00Z";
     core.FsDir "node_modules" [core.FsFile "dep.go" (Some "") "2024-01-01T00:00:00Z"];
     core.FsDir ".cache" [core.FsFile "tmp.py" (Some "") "2024-01-01T00:00:00Z"];
     core.FsDir "src" [core.FsFile "main.py" (Some "") "2024-01-01T00:00:00Z";
                       core.FsFile "notes.bin" (Some "") "2024-01-01T00:00:00Z"]].

(** The batch for the scaffold example with empty files. *)
Definition scaffoldBatch : list Entity * list Relationship * option string :=
  core.AnalyzeCodebase (core.NewCodeProcessor core.onEmptyFiles) "a"
    (Some (scaffoldTree "" "")).

(** The scaffold batch, stored in the empty store. *)
Definition scaffoldStored : core.StoreOutcome db.InMemoryDatabase :=
  core.StoreKnowledgeGraph db.NewInMemoryDatabase scaffoldBatch.1.1 scaffoldBatch.1.2.

(** The path reached from [path] by [k] steps of [filepath.Dir]. *)
Definition ancestor (k : nat) (path : string) : string := Nat.iter k filepath.Dir path.

(** A file before and after an edit. *)
Definition draftFile : core.CodeFile :=
  {| core.Path := "src/util.go"; core.Name := "util.go"; core.Extension := ".go";
     core.Content := "package util"; core.Language := "go";
     core.Size := 12; core.LastModified := "2024-01-01T00:00:00Z" |}.

Definition editedFile : core.CodeFile :=
  {| core.Path := "src/util.go"; core.Name := "util.go"; core.Extension := ".go";
     core.Content := "package util" +:+ String newline "func F() {}"; core.Language := "go";
     core.Size := 24; core.LastModified := "2024-02-02T00:00:00Z" |}.

(** Every entity is filed under its own id. *)
Definition entitiesFiled (d : db.InMemoryDatabase) : Prop :=
  ∀ k e, db.entities d !! k = Some e → ID e = k.

(** Two functions of one name in two files. *)
Definition initA : Entity :=
  graph.CreateEntity "init" "FUNCTION" (Some {[ "sourceFile" := VString "a.go" ]}).

Definition initB : Entity :=
  graph.CreateEntity "init" "FUNCTION" (Some {[ "sourceFile" := VString "b.go" ]}).

(** ** Bytes of a text *)

Fixpoint allBytes (test : ascii → bool) (s : string) : bool :=
  match s with
  | EmptyString => true
  | String c s' => test c && allBytes test s'
  end.

Definition firstByte (s : string) : option ascii :=
  match s with
  | EmptyString => None
  | String c _ => Some c
  end.

Fixpoint lastByte (s : string) : option ascii :=
  match s with
  | EmptyString => None
  | String c s' => match lastByte s' with Some l => Some l | None => Some c end
  end.

(** Text of ASCII bytes only, where Go's functions on runes and the
    functions on bytes of this development agree. *)
Definition asciiText (s : string) : bool :=
  allBytes (λ c, (N_of_ascii c <? 128)%N) s.

(** The bytes of a cleaned text: letters, digits, underscore, space and
    the punctuation that [CleanText] keeps. *)
Definition isClean (c : ascii) : bool :=
  core.isWordByte c || Ascii.eqb c " " || memByte c ".,!?;:()-".

(** Slash, star, the two quotes and the backtick: what the comment and
    import patterns of the text processor need. *)
Definition patternMarks : string :=
  "/" +:+ String "*"%char (String (ascii_of_N 34) (String (ascii_of_N 39)
    (String (ascii_of_N 96) ""))).

(* ===================================================================== *)
(** * Strings: hexadecimal encoding, case folding, joins *)
(* ===================================================================== *)

Section StringFacts.

Lemma unhex_hex_byte (c : ascii) :
  unhexDigit (hexDigit (N_of_ascii c / 16)) = Some (N_of_ascii c / 16)%N
  ∧ unhexDigit (hexDigit (N_of_ascii c mod 16)) = Some (N_of_ascii c mod 16)%N
  ∧ ascii_of_N (N_of_ascii c / 16 * 16 + N_of_ascii c mod 16) = c.
Proof. destruct c as [[] [] [] [] [] [] [] []]; vm_compute; done. Qed.

Lemma unhex_hex (s : string) : unhex (hex s) = Some s.
Proof.
  induction s as [|c s IH]; [done|].
  cbn [hex unhex]. destruct (unhex_hex_byte c) as (-> & -> & ->).
  by rewrite IH.
Qed.

Lemma hex_inj (s t : string) : hex s = hex t → s = t.
Proof.
  intros E. apply (f_equal unhex) in E. rewrite !unhex_hex in E. congruence.
Qed.

Lemma hex_length (s : string) : String.length (hex s) = 2 * String.length s.
Proof. induction s as [|c s IH]; cbn [hex String.length]; lia. Qed.

Lemma append_cons (c : ascii) (s t : string) :
  String c s +:+ t = String c (s +:+ t).
Proof. reflexivity. Qed.

Lemma append_nil_l (s : string) : "" +:+ s = s.
Proof. reflexivity. Qed.

Lemma append_length (s t : string) :
  String.length (s +:+ t) = String.length s + String.length t.
Proof.
  induction s as [|c s IH]; [done|].
  rewrite append_cons. simpl. by rewrite IH.
Qed.


Lemma append_empty_r (s : string) : s +:+ "" = s.
Proof. induction s as [|c s IH]; [done|]. rewrite append_cons. by rewrite IH. Qed.

Lemma append_inv_head (s t u : string) : s +:+ t = s +:+ u → t = u.
Proof. induction s as [|c s IH]; [done|]. rewrite !append_cons. intros [= E]. auto. Qed.





Lemma byte_lower_or_upper (c : ascii) :
  c = toLowerByte c ∨ c = toUpperByte (toLowerByte c).
Proof. destruct c as [[] [] [] [] [] [] [] []]; vm_compute; auto. Qed.

Lemma toLowerByte_eq (a b : ascii) :
  toLowerByte a = toLowerByte b → a = b ∨ b = toUpperByte a ∨ b = toLowerByte a.
Proof.
  intros E.
  destruct (byte_lower_or_upper a) as [Ha|Ha], (byte_lower_or_upper b) as [Hb|Hb].
  - left. congruence.
  - right; left. rewrite Hb, <- E, <- Ha. done.
  - right; right. congruence.
  - left. congruence.
Qed.


Lemma Join_cons (p : string) (rest : list string) (sep : string) :
  Join (p :: rest) sep = p +:+ joinAfter rest sep.
Proof.
  revert p. induction rest as [|q rest IH]; intros p.
  - simpl. by rewrite append_empty_r.
  - change (Join (p :: q :: rest) sep) with (p +:+ sep +:+ Join (q :: rest) sep).
    rewrite IH. done.
Qed.



End StringFacts.

(* ===================================================================== *)
(** * Identity: [generateDeterministicID] and [graph.CreateEntity] *)
(* ===================================================================== *)

Section Identity.



Lemma ToLower_caseVariant (s t : string) : ToLower s = ToLower t → caseVariant s t.
Proof.
  revert t. induction s as [|a s IH]; intros [|b t] E; simpl in E; try discriminate.
  - constructor.
  - injection E as E1 E2. constructor; [by apply toLowerByte_eq | auto].
Qed.

Lemma caseVariant_refl (s : string) : caseVariant s s.
Proof. by apply ToLower_caseVariant. Qed.




Lemma keyParts_discriminators (t l : string) (p : PropertyMap) :
  graph.keyParts t l p = [ToLower t; ToLower l] ++ discriminators p.
Proof. reflexivity. Qed.

Lemma entityKey_shape (t l : string) (p : PropertyMap) :
  graph.entityKey t l p
  = ToLower t +:+ "|" +:+ ToLower l +:+ joinAfter (discriminators p) "|".
Proof.
  unfold graph.entityKey. rewrite keyParts_discriminators.
  change ([ToLower t; ToLower l] ++ discriminators p)
    with (ToLower t :: ToLower l :: discriminators p).
  by rewrite Join_cons.
Qed.



End Identity.

(** C10.  The entity id is no fixed-length digest: it is the hexadecimal
    encoding of the identity key itself, the lower-cased type, the
    lower-cased label and the selected discriminators joined by "|".  Hence
    its length is twice the key's length, the key is decoded back from the
    id, and two ids are equal only for equal keys.  A relationship id is the
    hexadecimal encoding of "sourceId|type|targetId" in the same way. *)
Theorem C10_id_is_hex_of_identity_key
    (label type : string) (properties : option PropertyMap)
    (source target relType : string) (relProperties : option PropertyMap) :
  let e := graph.CreateEntity label type properties in
  let key := ToLower type +:+ "|" +:+ ToLower label
               +:+ joinAfter (discriminators (default ∅ properties)) "|" in
  let r := graph.CreateRelationship source target relType relProperties in
  let relKey := source +:+ "|" +:+ relType +:+ "|" +:+ target in
  ID e = hex key
  ∧ String.length (ID e) = 2 * String.length key
  ∧ unhex (ID e) = Some key
  ∧ (∀ label' type' properties',
       ID (graph.CreateEntity label' type' properties') = ID e →
       graph.entityKey type' label' (default ∅ properties') = key)
  ∧ RelID r = hex relKey
  ∧ String.length (RelID r) = 2 * String.length relKey
  ∧ unhex (RelID r) = Some relKey.
Proof.
  intros e key r relKey.
  assert (E : ID e = hex key).
  { unfold e, key. simpl. unfold graph.generateDeterministicID.
    by rewrite entityKey_shape. }
  split_and!.
  - done.
  - rewrite E. apply hex_length.
  - rewrite E. apply unhex_hex.
  - intros label' type' properties' E'. rewrite E in E'. by apply hex_inj in E'.
  - done.
  - apply hex_length.
  - apply unhex_hex.
Qed.






(* ===================================================================== *)
(** * The in-memory store *)
(* ===================================================================== *)

Section KeyedUpsert.

Context {A : Type} (key : A → string) (merge : A → A → A).

Lemma upsert_lookup (m : gmap string A) (x : A) (i : string) :
  upsert key merge m x !! i
  = if decide (key x = i) then slot merge (m !! i) x else m !! i.
Proof.
  unfold upsert, slot. case_decide as E.
  - subst i. by rewrite lookup_insert_eq.
  - by rewrite lookup_insert_ne.
Qed.

Lemma fold_upsert_lookup (l : list A) (m : gmap string A) (i : string) :
  fold_left (upsert key merge) l m !! i
  = fold_left (slot merge) (filter (λ x, key x = i) l) (m !! i).
Proof.
  revert m. induction l as [|x l IH]; intros m; [done|].
  simpl. rewrite IH, upsert_lookup. rewrite filter_cons.
  by case_decide.
Qed.

Lemma fold_upsert_twice (l : list A) (m : gmap string A) :
  (∀ o l', fold_left (slot merge) l' (fold_left (slot merge) l' o)
           = fold_left (slot merge) l' o) →
  fold_left (upsert key merge) l (fold_left (upsert key merge) l m)
  = fold_left (upsert key merge) l m.
Proof.
  intros Hslot. apply map_eq. intros i. rewrite !fold_upsert_lookup. apply Hslot.
Qed.

Lemma fold_slot_Some (l : list A) (x : A) :
  fold_left (slot merge) l (Some x) = Some (fold_left merge l x).
Proof. revert x. induction l as [|y l IH]; intros x; [done|]. simpl. apply IH. Qed.

End KeyedUpsert.

Section Confidence.

Lemma gt_false_iff (a b : Q) : db.gt a b = false ↔ (a <= b)%Q.
Proof.
  unfold db.gt. rewrite Qle_alt.
  rewrite <- (Qcompare_antisym b a).
  destruct (b ?= a)%Q; simpl; split; congruence.
Qed.

Lemma step_is_Qmax (cur c : Q) : (if db.gt c cur then c else cur) = Qmax cur c.
Proof.
  unfold db.gt, Qmax, GenericMinMax.gmax. by destruct (cur ?= c)%Q.
Qed.

Lemma Qmax_keep (m c : Q) : (c <= m)%Q → Qmax m c = m.
Proof.
  intros H. apply gt_false_iff in H. rewrite <- step_is_Qmax. by rewrite H.
Qed.

Lemma maxConfidence_ge_start (c : Q) (cs : list Q) : (c <= maxConfidence c cs)%Q.
Proof.
  revert c. induction cs as [|x cs IH]; intros c; simpl.
  - apply Qle_refl.
  - eapply Qle_trans; [apply Q.le_max_l | apply IH].
Qed.

Lemma maxConfidence_ge_all (c : Q) (cs : list Q) :
  Forall (λ x, (x <= maxConfidence c cs)%Q) cs.
Proof.
  revert c. induction cs as [|x cs IH]; intros c; simpl; constructor.
  - eapply Qle_trans; [apply Q.le_max_r | apply maxConfidence_ge_start].
  - apply IH.
Qed.

Lemma maxConfidence_keep (m : Q) (cs : list Q) :
  Forall (λ x, (x <= m)%Q) cs → maxConfidence m cs = m.
Proof.
  induction 1 as [|x cs Hx _ IH]; simpl; [done|]. by rewrite (Qmax_keep m x Hx).
Qed.

Lemma maxConfidence_twice (c : Q) (cs : list Q) :
  maxConfidence (maxConfidence c cs) cs = maxConfidence c cs.
Proof. apply maxConfidence_keep, maxConfidence_ge_all. Qed.

Lemma maxConfidence_elem (c : Q) (cs : list Q) : maxConfidence c cs ∈ c :: cs.
Proof.
  revert c. induction cs as [|x cs IH]; intros c; simpl; [set_solver|].
  specialize (IH (Qmax c x)).
  apply elem_of_cons in IH as [E|IH]; [|set_solver].
  rewrite E. unfold Qmax, GenericMinMax.gmax. destruct (c ?= x)%Q; set_solver.
Qed.

End Confidence.

Section Properties.

Lemma mergeProperties_union (existing incoming : PropertyMap) :
  db.mergeProperties existing incoming = incoming ∪ existing.
Proof.
  unfold db.mergeProperties.
  apply (map_fold_weak_ind (λ r m, r = m ∪ existing)).
  - by rewrite (left_id_L ∅ (∪)).
  - intros k v m r _ ->. by rewrite insert_union_l.
Qed.

Lemma mergeProperties_lookup (existing incoming : PropertyMap) (k : string) :
  db.mergeProperties existing incoming !! k
  = match incoming !! k with Some v => Some v | None => existing !! k end.
Proof.
  rewrite mergeProperties_union, lookup_union.
  destruct (incoming !! k), (existing !! k); done.
Qed.

Lemma fold_union_laterFirst {A : Type} (props : A → PropertyMap) (l : list A)
    (m : PropertyMap) :
  fold_left (λ acc x, props x ∪ acc) l m = laterFirst props l ∪ m.
Proof.
  unfold laterFirst. revert m. induction l as [|x l IH]; intros m; simpl.
  - by rewrite (left_id_L ∅ (∪)).
  - rewrite (IH (props x ∪ m)), (IH (props x ∪ ∅)).
    by rewrite (right_id_L ∅ (∪)), (assoc_L (∪)).
Qed.

Lemma laterFirst_absorb {A : Type} (props : A → PropertyMap) (l : list A)
    (m : PropertyMap) :
  laterFirst props l ∪ (laterFirst props l ∪ m) = laterFirst props l ∪ m.
Proof. by rewrite (assoc_L (∪)), (idemp_L (∪)). Qed.

End Properties.

Section EntityUpsert.

Lemma CreateEntity_upsert (d : db.InMemoryDatabase) (e : Entity) :
  db.CreateEntity d e
  = ({| db.entities := upsert ID mergeEntity (db.entities d) e;
        db.relationships := db.relationships d |}, None).
Proof. unfold db.CreateEntity, upsert. by destruct (db.entities d !! ID e). Qed.

Lemma CreateEntities_fold (es : list Entity) (d : db.InMemoryDatabase) :
  db.CreateEntities d es
  = ({| db.entities := fold_left (upsert ID mergeEntity) es (db.entities d);
        db.relationships := db.relationships d |}, None).
Proof.
  revert d. induction es as [|e es IH]; intros d; simpl.
  - by destruct d.
  - rewrite CreateEntity_upsert. by rewrite IH.
Qed.

Lemma entity_eq (e1 e2 : Entity) :
  ID e1 = ID e2 → Label e1 = Label e2 → Type_ e1 = Type_ e2 →
  Properties e1 = Properties e2 → Confidence e1 = Confidence e2 → e1 = e2.
Proof. destruct e1, e2; simpl; intros; by subst. Qed.

Lemma mergeEntity_self (e : Entity) : mergeEntity e e = e.
Proof.
  apply entity_eq; simpl; try done.
  - by rewrite mergeProperties_union, (idemp_L (∪)).
  - by destruct (db.gt _ _).
Qed.

Lemma foldEntity_ID (l : list Entity) (x : Entity) :
  ID (fold_left mergeEntity l x) = ID x
  ∧ Type_ (fold_left mergeEntity l x) = Type_ x.
Proof.
  revert x. induction l as [|e l IH]; intros x; [done|]. simpl.
  destruct (IH (mergeEntity x e)) as [-> ->]. done.
Qed.

Lemma last_nonempty {A : Type} (a : A) (l : list A) (d d' : A) :
  List.last (a :: l) d = List.last (a :: l) d'.
Proof. revert a. induction l as [|b l IH]; intros a; [done|]. apply (IH b). Qed.

Lemma foldEntity_Label (l : list Entity) (x : Entity) :
  Label (fold_left mergeEntity l x) = List.last (Label <$> l) (Label x).
Proof.
  revert x. induction l as [|e l IH]; intros x; [done|].
  simpl fold_left. rewrite IH. destruct l as [|e' l]; [done|].
  rewrite !fmap_cons.
  exact (last_nonempty (Label e') (Label <$> l) _ (Label x)).
Qed.

Lemma foldEntity_Confidence (l : list Entity) (x : Entity) :
  Confidence (fold_left mergeEntity l x)
  = maxConfidence (Confidence x) (Confidence <$> l).
Proof.
  revert x. induction l as [|e l IH]; intros x; [done|].
  simpl fold_left. rewrite IH. simpl. by rewrite step_is_Qmax.
Qed.

Lemma foldEntity_Properties (l : list Entity) (x : Entity) :
  Properties (fold_left mergeEntity l x) = laterFirst Properties l ∪ Properties x.
Proof.
  rewrite <- fold_union_laterFirst.
  revert x. induction l as [|e l IH]; intros x; [done|].
  simpl fold_left. rewrite IH. simpl. by rewrite mergeProperties_union.
Qed.

Lemma foldEntity_twice (l : list Entity) (x : Entity) :
  fold_left mergeEntity l (fold_left mergeEntity l x) = fold_left mergeEntity l x.
Proof.
  apply entity_eq.
  - by rewrite !(proj1 (foldEntity_ID _ _)).
  - rewrite !foldEntity_Label. destruct l as [|e l]; [done|].
    apply last_nonempty.
  - by rewrite !(proj2 (foldEntity_ID _ _)).
  - rewrite !foldEntity_Properties. apply laterFirst_absorb.
  - rewrite !foldEntity_Confidence. apply maxConfidence_twice.
Qed.

Lemma entity_slot_twice (o : option Entity) (l : list Entity) :
  fold_left (slot mergeEntity) l (fold_left (slot mergeEntity) l o)
  = fold_left (slot mergeEntity) l o.
Proof.
  destruct l as [|e l]; [done|]. destruct o as [x|].
  - rewrite !fold_slot_Some. f_equal. apply foldEntity_twice.
  - assert (E : fold_left (slot mergeEntity) (e :: l) None
                = Some (fold_left mergeEntity (e :: l) e)).
    { simpl. rewrite mergeEntity_self. apply fold_slot_Some. }
    rewrite E, fold_slot_Some. f_equal. apply foldEntity_twice.
Qed.

Lemma CreateEntities_twice (es : list Entity) (d : db.InMemoryDatabase) :
  (db.CreateEntities (db.CreateEntities d es).1 es).1 = (db.CreateEntities d es).1.
Proof.
  rewrite !CreateEntities_fold. simpl. f_equal.
  apply fold_upsert_twice, entity_slot_twice.
Qed.

End EntityUpsert.

(** C2.  [CreateEntity] never fails and touches nothing but the record of
    the entity's id.  An absent id is inserted as given.  On an existing
    record the stored label is the new label, the stored confidence is the
    greater of the two, every property key holds the incoming value if there
    is one and the existing value otherwise, and id and type stay.  After
    upserting a non-empty run of entities of one id that the store did not
    hold, the stored confidence is the greatest of theirs. *)
Theorem C2_entity_upsert_merge (d : db.InMemoryDatabase) (e : Entity) :
  let d' := (db.CreateEntity d e).1 in
  (db.CreateEntity d e).2 = None
  ∧ db.relationships d' = db.relationships d
  ∧ (∀ i, i ≠ ID e → db.entities d' !! i = db.entities d !! i)
  ∧ (db.entities d !! ID e = None → db.entities d' !! ID e = Some e)
  ∧ (∀ old, db.entities d !! ID e = Some old →
       ∃ new, db.entities d' !! ID e = Some new
         ∧ Label new = Label e
         ∧ Confidence new = Qmax (Confidence old) (Confidence e)
         ∧ (∀ k, Properties new !! k
                 = match Properties e !! k with
                   | Some v => Some v
                   | None => Properties old !! k
                   end)
         ∧ ID new = ID old ∧ Type_ new = Type_ old)
  ∧ (∀ (first : Entity) (rest : list Entity),
       Forall (λ x, ID x = ID e) (first :: rest) →
       db.entities d !! ID e = None →
       ∃ stored,
         db.entities (db.CreateEntities d (first :: rest)).1 !! ID e = Some stored
         ∧ Confidence stored = maxConfidence (Confidence first) (Confidence <$> rest)
         ∧ Confidence stored ∈ Confidence first :: (Confidence <$> rest)
         ∧ Forall (λ c, (c <= Confidence stored)%Q)
             (Confidence first :: (Confidence <$> rest))).
Proof.
  intros d'. unfold d'. rewrite CreateEntity_upsert.
  cbn [fst snd db.entities db.relationships]. split_and!.
  - done.
  - done.
  - intros i Hi. rewrite upsert_lookup. by case_decide.
  - intros Hnone. rewrite upsert_lookup, decide_True by done. by rewrite Hnone.
  - intros old Hold. exists (mergeEntity old e).
    rewrite upsert_lookup, decide_True by done. rewrite Hold. split_and!; try done.
    + simpl. apply step_is_Qmax.
    + intros k. simpl. apply mergeProperties_lookup.
  - intros first rest Hids Hnone.
    rewrite CreateEntities_fold. cbn [fst db.entities].
    rewrite fold_upsert_lookup, Hnone.
    assert (F : filter (λ x, ID x = ID e) (first :: rest) = first :: rest).
    { clear Hnone. induction Hids as [|x l Hx _ IH]; [done|].
      rewrite filter_cons, decide_True by done. by rewrite IH. }
    rewrite F.
    change (fold_left (slot mergeEntity) (first :: rest) None)
      with (fold_left (slot mergeEntity) rest (Some first)).
    rewrite fold_slot_Some.
    eexists. split; [reflexivity|]. rewrite foldEntity_Confidence. split_and!.
    + done.
    + apply maxConfidence_elem.
    + constructor; [apply maxConfidence_ge_start | apply maxConfidence_ge_all].
Qed.

Section RelationshipUpsert.

Lemma sameEdge_edgeOf (r b : Relationship) :
  db.sameEdge r b = true ↔ edgeOf r = edgeOf b.
Proof.
  unfold db.sameEdge, edgeOf. rewrite !andb_true_iff, !String.eqb_eq.
  split; [intros [[-> ->] ->] | intros [= -> -> ->]]; done.
Qed.

Lemma elem_of_matchingIDs (rels : gmap string Relationship) (b : Relationship)
    (k : string) :
  k ∈ db.matchingIDs rels b ↔ ∃ r, rels !! k = Some r ∧ edgeOf r = edgeOf b.
Proof.
  unfold db.matchingIDs. rewrite list_elem_of_fmap. split.
  - intros ([k' r] & -> & H). apply list_elem_of_filter in H as [H1 H2].
    apply elem_of_map_to_list in H2. exists r. split; [done|].
    by apply sameEdge_edgeOf.
  - intros (r & H1 & H2). exists (k, r). split; [done|].
    apply list_elem_of_filter. split; [by apply sameEdge_edgeOf|].
    by apply elem_of_map_to_list.
Qed.

Lemma findExisting_leaves (rels : gmap string Relationship) (b : Relationship) :
  db.loopLeaves rels b (db.findExisting rels b).
Proof.
  unfold db.loopLeaves, db.findExisting.
  destruct (db.matchingIDs rels b) as [|k l]; [by right | left; set_solver].
Qed.

Lemma checkEndpoints_None (d : db.InMemoryDatabase) (r : Relationship) :
  db.checkEndpoints d r = None
  ↔ is_Some (db.entities d !! Source r) ∧ is_Some (db.entities d !! Target r).
Proof.
  unfold db.checkEndpoints.
  destruct (db.entities d !! Source r), (db.entities d !! Target r);
    split; try done; intros [[? ?] [? ?]]; done.
Qed.

Lemma checkEndpoints_entities (d d' : db.InMemoryDatabase) (r : Relationship) :
  db.entities d = db.entities d' → db.checkEndpoints d r = db.checkEndpoints d' r.
Proof. unfold db.checkEndpoints. by intros ->. Qed.



Lemma relationship_eq (r1 r2 : Relationship) :
  RelID r1 = RelID r2 → Source r1 = Source r2 → Target r1 = Target r2 →
  RelType r1 = RelType r2 → RelProperties r1 = RelProperties r2 →
  RelConfidence r1 = RelConfidence r2 → r1 = r2.
Proof. destruct r1, r2; simpl; intros; by subst. Qed.

Lemma mergeRelationship_self (r : Relationship) : mergeRelationship r r = r.
Proof.
  apply relationship_eq; simpl; try done.
  - by rewrite mergeProperties_union, (idemp_L (∪)).
  - by destruct (db.gt _ _).
Qed.

Lemma foldRelationship_fixed (l : list Relationship) (x : Relationship) :
  RelID (fold_left mergeRelationship l x) = RelID x
  ∧ edgeOf (fold_left mergeRelationship l x) = edgeOf x.
Proof.
  revert x. induction l as [|e l IH]; intros x; [done|]. simpl.
  destruct (IH (mergeRelationship x e)) as [-> ->]. done.
Qed.

Lemma foldRelationship_Confidence (l : list Relationship) (x : Relationship) :
  RelConfidence (fold_left mergeRelationship l x)
  = maxConfidence (RelConfidence x) (RelConfidence <$> l).
Proof.
  revert x. induction l as [|e l IH]; intros x; [done|].
  simpl fold_left. rewrite IH. simpl. by rewrite step_is_Qmax.
Qed.

Lemma foldRelationship_Properties (l : list Relationship) (x : Relationship) :
  RelProperties (fold_left mergeRelationship l x)
  = laterFirst RelProperties l ∪ RelProperties x.
Proof.
  rewrite <- fold_union_laterFirst.
  revert x. induction l as [|e l IH]; intros x; [done|].
  simpl fold_left. rewrite IH. simpl. by rewrite mergeProperties_union.
Qed.

Lemma foldRelationship_twice (l : list Relationship) (x : Relationship) :
  fold_left mergeRelationship l (fold_left mergeRelationship l x)
  = fold_left mergeRelationship l x.
Proof.
  pose proof (foldRelationship_fixed l x) as [HI HE].
  pose proof (foldRelationship_fixed l (fold_left mergeRelationship l x)) as [HI' HE'].
  unfold edgeOf in HE, HE'.
  apply relationship_eq; try congruence.
  - rewrite !foldRelationship_Properties. apply laterFirst_absorb.
  - rewrite !foldRelationship_Confidence. apply maxConfidence_twice.
Qed.

Lemma relationship_slot_twice (o : option Relationship) (l : list Relationship) :
  fold_left (slot mergeRelationship) l (fold_left (slot mergeRelationship) l o)
  = fold_left (slot mergeRelationship) l o.
Proof.
  destruct l as [|e l]; [done|]. destruct o as [x|].
  - rewrite !fold_slot_Some. f_equal. apply foldRelationship_twice.
  - assert (E : fold_left (slot mergeRelationship) (e :: l) None
                = Some (fold_left mergeRelationship (e :: l) e)).
    { simpl. rewrite mergeRelationship_self. apply fold_slot_Some. }
    rewrite E, fold_slot_Some. f_equal. apply foldRelationship_twice.
Qed.

Lemma within_start (rels : gmap string Relationship) (rs : list Relationship) :
  filedUnderID rels → within (rs ++ storedRelationships rels) rels.
Proof.
  intros HF k r Hr. split; [by apply HF|]. exists r. split; [|done].
  apply elem_of_app. right. unfold storedRelationships.
  apply list_elem_of_fmap. exists (k, r). split; [done|].
  by apply elem_of_map_to_list.
Qed.

(** Under the invariant the search loop has one possible outcome. *)
Lemma loop_outcome (U : list Relationship) (rels : gmap string Relationship)
    (b : Relationship) (x : string) :
  idsFollowEdges U → within U rels → b ∈ U →
  db.loopLeaves rels b x →
  x = match rels !! RelID b with Some _ => RelID b | None => "" end.
Proof.
  intros [Hne Hcons] HW Hb [Hx|[Hnil ->]].
  - apply elem_of_matchingIDs in Hx as (r & Hr & He).
    destruct (HW _ _ Hr) as [Hk (u & Hu & Hid & Hue)].
    assert (RelID u = RelID b) as E by (apply Hcons; [done..|congruence]).
    assert (x = RelID b) as -> by congruence. by rewrite Hr.
  - destruct (rels !! RelID b) as [r|] eqn:Hr; [|done]. exfalso.
    destruct (HW _ _ Hr) as [Hk (u & Hu & Hid & Hue)].
    assert (edgeOf u = edgeOf b) as E by (apply Hcons; [done..|congruence]).
    assert (RelID b ∈ db.matchingIDs rels b) as Hin
      by (apply elem_of_matchingIDs; exists r; split; congruence).
    rewrite Hnil in Hin. by apply elem_of_nil in Hin.
Qed.

Lemma storeRelationship_upsert (U : list Relationship) (d : db.InMemoryDatabase)
    (b : Relationship) (x : string) :
  idsFollowEdges U → within U (db.relationships d) → b ∈ U →
  db.loopLeaves (db.relationships d) b x →
  db.storeRelationship x d b
  = {| db.entities := db.entities d;
       db.relationships := upsert RelID mergeRelationship (db.relationships d) b |}.
Proof.
  intros HU HW Hb Hx. rewrite (loop_outcome U _ b x HU HW Hb Hx).
  unfold db.storeRelationship, upsert.
  destruct (db.relationships d !! RelID b) as [r|] eqn:Hr; [|done].
  assert (RelID b ≠ "") as Hne.
  { destruct HU as [Hne _]. rewrite Forall_forall in Hne. by apply Hne. }
  apply String.eqb_neq in Hne. rewrite Hne. simpl. by rewrite Hr.
Qed.

Lemma within_upsert (U : list Relationship) (rels : gmap string Relationship)
    (b : Relationship) :
  within U rels → b ∈ U → within U (upsert RelID mergeRelationship rels b).
Proof.
  intros HW Hb k r. rewrite upsert_lookup. case_decide as E.
  - unfold slot. intros [= <-]. destruct (rels !! k) as [old|] eqn:Hold.
    + destruct (HW _ _ Hold) as [Hk (u & Hu & Hid & Hue)]. split; [done|].
      exists u. by split_and!.
    + split; [done|]. by exists b.
  - apply HW.
Qed.

Lemma within_fold (U : list Relationship) (l : list Relationship)
    (rels : gmap string Relationship) :
  within U rels → (∀ b, b ∈ l → b ∈ U) →
  within U (fold_left (upsert RelID mergeRelationship) l rels).
Proof.
  revert rels. induction l as [|b l IH]; intros rels HW Hl; [done|].
  simpl. apply IH; [apply within_upsert; [done|]|]; set_solver.
Qed.


End RelationshipUpsert.




Section EdgeDedup.

Lemma runCalls_reachable (cs : list db.Call) (d0 d : db.InMemoryDatabase) :
  reachable (λ _, True) d0 d → reachable (λ _, True) d0 (db.runCalls d cs).
Proof.
  revert d. induction cs as [|c cs IH]; intros d Hd; [done|].
  simpl. apply IH. destruct c as [e|r|].
  - exact (reachable_entity _ _ d e Hd).
  - exact (reachable_relationship _ _ d r _ Hd I (findExisting_leaves _ r)).
  - exact (reachable_clear _ _ d Hd).
Qed.

Lemma mergeRelationship_edgeOf (old r : Relationship) :
  edgeOf (mergeRelationship old r) = edgeOf old.
Proof. done. Qed.

Lemma storeRelationship_found (d : db.InMemoryDatabase) (r old : Relationship)
    (x : string) :
  x ≠ "" → db.relationships d !! x = Some old →
  db.storeRelationship x d r
  = {| db.entities := db.entities d;
       db.relationships := <[x := mergeRelationship old r]> (db.relationships d) |}.
Proof.
  intros Hx Hold. unfold db.storeRelationship.
  apply String.eqb_neq in Hx. rewrite Hx. simpl. by rewrite Hold.
Qed.

Lemma storeRelationship_new (d : db.InMemoryDatabase) (r : Relationship) :
  db.storeRelationship "" d r
  = {| db.entities := db.entities d;
       db.relationships := <[RelID r := r]> (db.relationships d) |}.
Proof. done. Qed.

Lemma dedupInvariant_store (d : db.InMemoryDatabase) (r : Relationship) (x : string) :
  RelID r ≠ "" → dedupInvariant (db.relationships d) →
  db.loopLeaves (db.relationships d) r x →
  dedupInvariant (db.relationships (db.storeRelationship x d r)).
Proof.
  intros Hr [Hne Huniq] [Hx|[Hnil ->]].
  - apply elem_of_matchingIDs in Hx as (old & Hold & He).
    rewrite (storeRelationship_found d r old x (Hne _ _ Hold) Hold). simpl. split.
    + intros k r' H. apply lookup_insert_Some in H as [[<- _]|[_ H]]; eauto.
    + intros k1 k2 r1 r2 H1 H2 E.
      apply lookup_insert_Some in H1 as [[<- <-]|[N1 H1]];
        apply lookup_insert_Some in H2 as [[<- <-]|[N2 H2]].
      * done.
      * eapply Huniq; [exact Hold|exact H2|exact E].
      * eapply Huniq; [exact H1|exact Hold|exact E].
      * eapply Huniq; [exact H1|exact H2|exact E].
  - rewrite storeRelationship_new. simpl.
    assert (Hno : ∀ k r', db.relationships d !! k = Some r' → edgeOf r' ≠ edgeOf r).
    { intros k r' Hk E. assert (k ∈ db.matchingIDs (db.relationships d) r) as Hin
        by (apply elem_of_matchingIDs; eauto).
      rewrite Hnil in Hin. by apply elem_of_nil in Hin. }
    split.
    + intros k r' H. apply lookup_insert_Some in H as [[<- _]|[_ H]]; eauto.
    + intros k1 k2 r1 r2 H1 H2 E.
      apply lookup_insert_Some in H1 as [[<- <-]|[N1 H1]];
        apply lookup_insert_Some in H2 as [[<- <-]|[N2 H2]].
      * done.
      * exfalso. by eapply Hno.
      * exfalso. by eapply Hno.
      * eapply Huniq; [exact H1|exact H2|exact E].
Qed.

(** With non-empty relationship ids, no reachable state holds two
    relationships for one edge. *)
Lemma edges_unique_when_ids_nonempty (d : db.InMemoryDatabase) :
  reachable (λ r, RelID r ≠ "") db.NewInMemoryDatabase d →
  edgesUnique (db.relationships d).
Proof.
  intros H. enough (dedupInvariant (db.relationships d)) as [_ ?] by done.
  induction H as [|d e _ IH|d r x _ IH Hr Hx|d _ IH].
  - split; intros ?; intros; simplify_map_eq.
  - by rewrite CreateEntity_upsert.
  - unfold db.CreateRelationshipWith.
    destruct (db.checkEndpoints d r); [done|]. simpl. by apply dedupInvariant_store.
  - split; intros ?; intros; simplify_map_eq.
Qed.

(** A relationship for a stored edge is merged into the stored record,
    whatever its own id, when the stored record is not filed under the
    empty id. *)
Lemma matching_edge_is_merged (d : db.InMemoryDatabase) (r old : Relationship)
    (k x : string) :
  edgesUnique (db.relationships d) → k ≠ "" →
  db.relationships d !! k = Some old → edgeOf old = edgeOf r →
  db.checkEndpoints d r = None →
  db.loopLeaves (db.relationships d) r x →
  db.CreateRelationshipWith x d r
  = ({| db.entities := db.entities d;
        db.relationships := <[k := mergeRelationship old r]> (db.relationships d) |},
     None).
Proof.
  intros Huniq Hk Hold He Hc Hx. unfold db.CreateRelationshipWith. rewrite Hc.
  assert (x = k) as ->.
  { destruct Hx as [Hx|[Hnil _]].
    - apply elem_of_matchingIDs in Hx as (old' & Hold' & He').
      eapply Huniq; [done..|congruence].
    - assert (k ∈ db.matchingIDs (db.relationships d) r) as Hin
        by (apply elem_of_matchingIDs; eauto).
      rewrite Hnil in Hin. by apply elem_of_nil in Hin. }
  by rewrite (storeRelationship_found d r old k Hk Hold).
Qed.

End EdgeDedup.

(** C4, at the failing input.  From the empty store: entities a and b, a
    relationship a→b with the empty id, then a relationship a→b with id x.
    The search loop can only leave the empty string in [existingID], which
    the code reads as "no match": the second relationship is inserted
    beside the first, and the reachable store holds two relationships for
    one (source, target, type). *)
Theorem C4_empty_id_duplicates_edge :
  reachable (λ _, True) db.NewInMemoryDatabase afterNamedEdge
  ∧ (∀ x, db.loopLeaves (db.relationships beforeNamedEdge) namedEdge x → x = "")
  ∧ db.relationships afterNamedEdge !! "" = Some unnamedEdge
  ∧ db.relationships afterNamedEdge !! "x" = Some namedEdge
  ∧ edgeOf unnamedEdge = edgeOf namedEdge
  ∧ ¬ edgesUnique (db.relationships afterNamedEdge).
Proof.
  assert (H0 : db.relationships afterNamedEdge !! "" = Some unnamedEdge)
    by (vm_compute; reflexivity).
  assert (H1 : db.relationships afterNamedEdge !! "x" = Some namedEdge)
    by (vm_compute; reflexivity).
  split_and!; try done.
  - unfold afterNamedEdge, beforeNamedEdge.
    do 2 apply runCalls_reachable. constructor.
  - intros x [Hx|[_ ->]]; [|done].
    apply elem_of_matchingIDs in Hx as (r & Hr & _).
    destruct (decide (x = "")) as [->|Hne]; [done|]. exfalso.
    assert (db.relationships beforeNamedEdge = {[ "" := unnamedEdge ]}) as E
      by (apply map_eq; intros k; vm_compute; reflexivity).
    rewrite E in Hr. by rewrite lookup_singleton_ne in Hr.
  - intros Hu. by specialize (Hu "" "x" _ _ H0 H1 eq_refl).
Qed.

(* ===================================================================== *)
(** * [StoreKnowledgeGraph] over the in-memory store *)
(* ===================================================================== *)

Section StoreKnowledgeGraph.

Lemma missing_endpoint_error (s : db.InMemoryDatabase) (r : Relationship) :
  db.entities s !! Source r = None ∨ db.entities s !! Target r = None →
  ∃ err, db.checkEndpoints s r = Some err.
Proof.
  unfold db.checkEndpoints.
  destruct (db.entities s !! Source r), (db.entities s !! Target r);
    intros [?|?]; eauto; done.
Qed.

Lemma CreateRelationshipWith_entities (x : string) (s : db.InMemoryDatabase)
    (r : Relationship) :
  db.entities (db.CreateRelationshipWith x s r).1 = db.entities s.
Proof.
  unfold db.CreateRelationshipWith. destruct (db.checkEndpoints s r); [done|].
  unfold db.storeRelationship. by destruct (negb _).
Qed.

Lemma storeEntities_inmemory (es : list Entity) (d : db.InMemoryDatabase) :
  core.storeEntities d es = ((db.CreateEntities d es).1, None).
Proof.
  revert d. induction es as [|e es IH]; intros d; [done|].
  simpl. rewrite CreateEntity_upsert. apply IH.
Qed.

Lemma storeRelationships_acc (l : list Relationship) (s : db.InMemoryDatabase)
    (n : nat) (w : list (string * string * string * string)) :
  core.storeRelationships s l n w
  = let '(s', n', w') := core.storeRelationships s l 0 [] in (s', n + n', w ++ w').
Proof.
  revert s n w. induction l as [|r l IH]; intros s n w.
  - simpl. by rewrite Nat.add_0_r, app_nil_r.
  - simpl. destruct (db.CreateRelationship s r) as [s1 [err|]].
    + rewrite (IH s1 n), (IH s1 0 [_]).
      destruct (core.storeRelationships s1 l 0 []) as [[s' n'] w'].
      simpl. by rewrite <- app_assoc.
    + rewrite (IH s1 (n + 1)), (IH s1 1 []).
      destruct (core.storeRelationships s1 l 0 []) as [[s' n'] w'].
      simpl. f_equal. f_equal. lia.
Qed.

Lemma storeRelationships_app (l1 l2 : list Relationship) (s : db.InMemoryDatabase)
    (n : nat) (w : list (string * string * string * string)) :
  core.storeRelationships s (l1 ++ l2) n w
  = let '(s', n', w') := core.storeRelationships s l1 n w in
    core.storeRelationships s' l2 n' w'.
Proof.
  revert s n w. induction l1 as [|r l1 IH]; intros s n w; [done|].
  simpl. destruct (db.CreateRelationship s r) as [s1 [err|]]; apply IH.
Qed.

Lemma storeRelationships_entities (l : list Relationship) (s : db.InMemoryDatabase)
    (n : nat) (w : list (string * string * string * string)) :
  db.entities (core.storeRelationships s l n w).1.1 = db.entities s.
Proof.
  revert s n w. induction l as [|r l IH]; intros s n w; [done|].
  simpl. pose proof (CreateRelationshipWith_entities
                       (db.findExisting (db.relationships s) r) s r) as E.
  fold (db.CreateRelationship s r) in E.
  destruct (db.CreateRelationship s r) as [s1 [err|]]; rewrite IH; exact E.
Qed.

Lemma storeRelationships_count (l : list Relationship) (s : db.InMemoryDatabase) :
  let '(_, n, w) := core.storeRelationships s l 0 [] in n + length w = length l.
Proof.
  revert s. induction l as [|r l IH]; intros s; [done|].
  simpl. destruct (db.CreateRelationship s r) as [s1 [err|]].
  - rewrite storeRelationships_acc. specialize (IH s1).
    destruct (core.storeRelationships s1 l 0 []) as [[s' n'] w'].
    simpl. lia.
  - rewrite storeRelationships_acc. specialize (IH s1).
    destruct (core.storeRelationships s1 l 0 []) as [[s' n'] w'].
    simpl. lia.
Qed.

End StoreKnowledgeGraph.

(** C3.  A relationship with an endpoint that the store does not hold is
    refused: [CreateRelationship] returns an error and leaves the store as
    it was, whatever the search loop would have found.  In
    [StoreKnowledgeGraph] such a relationship is one failed record: the call
    returns no error, the warning is logged, the relationships before and
    after it are stored and counted exactly as if it were not in the batch,
    and every relationship of the batch is either counted or logged. *)
Theorem C3_missing_endpoint_is_a_per_record_failure :
  (∀ (s : db.InMemoryDatabase) (r : Relationship) (x : string),
     db.entities s !! Source r = None ∨ db.entities s !! Target r = None →
     (∃ err, db.CreateRelationshipWith x s r = (s, Some err))
     ∧ ∃ err, db.CreateRelationship s r = (s, Some err))
  ∧ (∀ (d : db.InMemoryDatabase) (es : list Entity)
       (before after : list Relationship) (bad : Relationship),
       db.entities (db.CreateEntities d es).1 !! Source bad = None
       ∨ db.entities (db.CreateEntities d es).1 !! Target bad = None →
       let o := core.StoreKnowledgeGraph d es (before ++ bad :: after) in
       let o' := core.StoreKnowledgeGraph d es (before ++ after) in
       core.returned o = None
       ∧ core.database o = core.database o'
       ∧ core.successfulRelationships o = core.successfulRelationships o'
       ∧ (∃ err l1 l2,
            core.warnings o = l1 ++ (Source bad, Target bad, RelType bad, err) :: l2
            ∧ core.warnings o' = l1 ++ l2)
       ∧ core.successfulRelationships o + length (core.warnings o)
         = length (before ++ bad :: after)).
Proof.
  assert (Hfail : ∀ (s : db.InMemoryDatabase) (r : Relationship) (x : string),
            db.entities s !! Source r = None ∨ db.entities s !! Target r = None →
            ∃ err, db.CreateRelationshipWith x s r = (s, Some err)).
  { intros s r x H. destruct (missing_endpoint_error s r H) as [err Herr].
    exists err. unfold db.CreateRelationshipWith. by rewrite Herr. }
  split.
  - intros s r x H. split; [by apply Hfail|]. by apply Hfail.
  - intros d es before after bad Hbad o o'. unfold o, o', core.StoreKnowledgeGraph.
    rewrite !storeEntities_inmemory.
    set (d1 := (db.CreateEntities d es).1) in *.
    pose proof (storeRelationships_count (before ++ bad :: after) d1) as Hcount.
    rewrite !storeRelationships_app in *.
    pose proof (storeRelationships_entities before d1 0 []) as Hent.
    destruct (core.storeRelationships d1 before 0 []) as [[s1 n1] w1].
    simpl in Hent. rewrite <- Hent in Hbad.
    destruct (Hfail s1 bad (db.findExisting (db.relationships s1) bad) Hbad)
      as [err Herr].
    fold (db.CreateRelationship s1 bad) in Herr.
    cbn [core.storeRelationships] in *.
    change (core.dbCreateRelationship s1 bad) with (db.CreateRelationship s1 bad) in *.
    rewrite Herr in *.
    rewrite (storeRelationships_acc after s1 n1 (w1 ++ _)) in *.
    rewrite (storeRelationships_acc after s1 n1 w1).
    destruct (core.storeRelationships s1 after 0 []) as [[s2 n2] w2].
    cbn [core.returned core.database core.successfulRelationships core.warnings].
    split_and!; try done.
    + exists err, w1, w2. by rewrite <- app_assoc.
Qed.

(* ===================================================================== *)
(** * Paths: [Clean] and [Join] add one element per valid name *)
(* ===================================================================== *)

Section Paths.


Lemma splitOn_nonempty (sep : ascii) (s : string) : filepath.splitOn sep s ≠ [].
Proof.
  destruct s as [|c s]; simpl; [done|].
  destruct (Ascii.eqb c sep); [done|]. by destruct (filepath.splitOn sep s).
Qed.


Lemma splitOn_append (sep : ascii) (a b : string) :
  filepath.splitOn sep (a +:+ String sep b) = filepath.splitOn sep a ++ filepath.splitOn sep b.
Proof.
  induction a as [|c a IH].
  - rewrite append_nil_l. simpl. by rewrite Ascii.eqb_refl.
  - rewrite append_cons. simpl. rewrite IH.
    destruct (Ascii.eqb c sep); [done|].
    pose proof (splitOn_nonempty sep a). by destruct (filepath.splitOn sep a).
Qed.




Lemma shape_all_dotdot (stack : list string) :
  Forall (λ e, e = "..") stack → cleanStackShape false stack.
Proof.
  induction 1 as [|e stack -> H IH]; [constructor|]. by apply shape_dotdot.
Qed.













(** ** [filepath.Dir] shortens a path

    The loop of [extractDirectories] ends: each [filepath.Dir] either
    reaches ".", "/" or "", or returns a strictly shorter path. *)

Lemma weight_app (l k : list string) : weight (l ++ k) = weight l + weight k.
Proof. induction l as [|x l IH]; [done|]. simpl. rewrite IH. lia. Qed.

Lemma weight_rev (l : list string) : weight (rev l) = weight l.
Proof.
  induction l as [|x l IH]; [done|]. simpl. rewrite weight_app, IH. simpl. lia.
Qed.

Lemma blanks_app (l k : list string) : blanks (l ++ k) = blanks l + blanks k.
Proof. induction l as [|x l IH]; [done|]. simpl. rewrite IH. lia. Qed.

Lemma splitOn_weight (sep : ascii) (s : string) :
  weight (filepath.splitOn sep s) = S (String.length s).
Proof.
  induction s as [|c s IH]; [done|]. simpl.
  destruct (Ascii.eqb c sep).
  - simpl. by rewrite IH.
  - pose proof (splitOn_nonempty sep s).
    destruct (filepath.splitOn sep s) as [|x xs]; [done|].
    simpl in *. lia.
Qed.

Lemma Join_length (x : string) (l : list string) :
  S (String.length (Join (x :: l) "/")) = weight (x :: l).
Proof.
  revert x. induction l as [|y l IH]; intros x.
  - simpl. lia.
  - change (Join (x :: y :: l) "/") with (x +:+ "/" +:+ Join (y :: l) "/").
    rewrite !append_length. specialize (IH y).
    change (weight (x :: y :: l)) with (S (String.length x) + weight (y :: l)).
    change (String.length "/") with 1. lia.
Qed.

Lemma cleanStep_weight (rooted : bool) (stack : list string) (elem : string) :
  (weight (filepath.cleanStep rooted stack elem)
   + (if String.eqb elem "" then 1 else 0)
   ≤ weight stack + S (String.length elem))%nat.
Proof.
  unfold filepath.cleanStep.
  destruct (String.eqb elem "") eqn:E1.
  { cbn [orb]. lia. }
  destruct (String.eqb elem ".") eqn:E2.
  { cbn [orb]. lia. }
  cbn [orb].
  destruct (String.eqb elem "..") eqn:E3.
  - apply String.eqb_eq in E3 as ->.
    destruct stack as [|top rest].
    + destruct rooted; simpl; lia.
    + destruct (String.eqb top ".."); simpl; lia.
  - simpl. lia.
Qed.

Lemma fold_weight (rooted : bool) (elems stack : list string) :
  (weight (fold_left (filepath.cleanStep rooted) elems stack) + blanks elems
   ≤ weight stack + weight elems)%nat.
Proof.
  revert stack. induction elems as [|e elems IH]; intros stack.
  - simpl. lia.
  - cbn [fold_left]. specialize (IH (filepath.cleanStep rooted stack e)).
    pose proof (cleanStep_weight rooted stack e) as H.
    change (blanks (e :: elems))
      with ((if String.eqb e "" then 1 else 0) + blanks elems).
    change (weight (e :: elems)) with (S (String.length e) + weight elems).
    lia.
Qed.

Lemma upToLastSlash_shape (path : string) :
  (filepath.upToLastSlash path = ""
   ∨ ∃ v, filepath.upToLastSlash path = v +:+ "/")
  ∧ (String.length (filepath.upToLastSlash path) ≤ String.length path)%nat.
Proof.
  induction path as [|c s [IH Hlen]]; [split; [by left|done]|].
  cbn [filepath.upToLastSlash].
  destruct (String.eqb (filepath.upToLastSlash s) "") eqn:E.
  - apply String.eqb_eq in E. rewrite E in *. cbn [negb orb].
    destruct (Ascii.eqb c filepath.slash) eqn:Hc.
    + apply Ascii.eqb_eq in Hc as ->. split; [right; by exists ""|simpl; lia].
    + split; [by left|simpl; lia].
  - cbn [negb orb]. apply String.eqb_neq in E.
    destruct IH as [IH|[v IH]]; [done|]. split; [|simpl; lia].
    right. exists (String c v). by rewrite IH.
Qed.

Lemma Clean_shorter (v : string) :
  core.isTop (filepath.Clean (v +:+ "/")) = true
  ∨ (String.length (filepath.Clean (v +:+ "/")) < String.length (v +:+ "/"))%nat.
Proof.
  set (u := v +:+ "/").
  assert (Hu : u ≠ "") by (unfold u; by destruct v).
  unfold filepath.Clean. apply String.eqb_neq in Hu as Hu'. rewrite Hu'.
  assert (Hsplit : filepath.splitOn filepath.slash u
                   = filepath.splitOn filepath.slash v ++ [""]).
  { unfold u. change (v +:+ "/") with (v +:+ String filepath.slash "").
    by rewrite splitOn_append. }
  pose proof (fold_weight (HasPrefix u "/") (filepath.splitOn filepath.slash u) [])
    as Hfold.
  fold (filepath.cleanStack u) in Hfold.
  rewrite splitOn_weight in Hfold. rewrite Hsplit, blanks_app in Hfold.
  cbn [weight blanks foldr String.eqb] in Hfold.
  unfold filepath.render.
  destruct (filepath.cleanStack u) as [|top rest] eqn:Hstack.
  { left. by destruct (HasPrefix u "/"). }
  pose proof (weight_rev (top :: rest)) as Hrev.
  assert (Hne : rev (top :: rest) ≠ []).
  { simpl. by destruct (rev rest). }
  destruct (rev (top :: rest)) as [|x l] eqn:Hr; [done|]. clear Hne.
  pose proof (Join_length x l) as HJ. rewrite Hrev in HJ.
  destruct (HasPrefix u "/") eqn:Hrooted.
  - right.
    assert (1 ≤ blanks (filepath.splitOn filepath.slash v))%nat as Hb.
    { unfold u in Hrooted. destruct v as [|c v'].
      - simpl. lia.
      - rewrite append_cons in Hrooted. cbn [HasPrefix] in Hrooted.
        destruct (Ascii.eqb c "/") eqn:Hc.
        + cbn [filepath.splitOn]. unfold filepath.slash. rewrite Hc. simpl. lia.
        + exfalso. revert Hrooted Hc. clear.
          unfold Ascii.eqb. destruct c as [[] [] [] [] [] [] [] []]; simpl; congruence. }
    change ("/" +:+ Join (x :: l) "/") with (String "/" (Join (x :: l) "/")).
    cbn [String.eqb]. 
    replace (String.eqb (String "/" (Join (x :: l) "/")) "") with false by done.
    cbn [String.length]. lia.
  - rewrite append_nil_l.
    destruct (String.eqb (Join (x :: l) "/") "") eqn:EJ; [by left|].
    right. lia.
Qed.

Lemma Dir_shorter (path : string) :
  core.isTop (filepath.Dir path) = true
  ∨ (String.length (filepath.Dir path) < String.length path)%nat.
Proof.
  unfold filepath.Dir.
  destruct (upToLastSlash_shape path) as [[E|[v E]] Hlen]; rewrite E in *.
  - by left.
  - destruct (Clean_shorter v) as [H|H]; [by left|right; lia].
Qed.

(** Fuel that covers the length of the path is enough: more never lengthens
    the chain. *)
Lemma parentChain_fuel (n m : nat) (dir : string) :
  (String.length dir ≤ n)%nat → (n ≤ m)%nat →
  core.parentChain m dir = core.parentChain n dir.
Proof.
  revert m dir. induction n as [|n IH]; intros m dir Hlen Hm.
  - destruct dir; [|simpl in Hlen; lia]. by destruct m.
  - destruct m as [|m]; [lia|]. cbn [core.parentChain].
    destruct (core.isTop dir) eqn:Htop; [done|]. f_equal.
    destruct (Dir_shorter dir) as [H|H].
    + destruct n, m; cbn [core.parentChain]; by rewrite ?H.
    + apply IH; lia.
Qed.

Lemma parentChain_of_file (path : string) (m : nat) :
  (String.length path ≤ m)%nat →
  core.parentChain m (filepath.Dir path)
  = core.parentChain (String.length path) (filepath.Dir path).
Proof.
  intros Hm. destruct (Dir_shorter path) as [H|H].
  - destruct m, (String.length path); cbn [core.parentChain]; by rewrite ?H.
  - apply parentChain_fuel; lia.
Qed.

End Paths.

(* ===================================================================== *)
(** * The orchestrator: scan, dispatch, scaffold *)
(* ===================================================================== *)

Section Walk.


Context (X : core.Extractors).

Let cp := core.NewCodeProcessor X.





Lemma GetAnalyzer_unknown :
  core.GetAnalyzer (core.analyzerRegistry cp) "unknown" = core.GenericAnalyzer.
Proof. reflexivity. Qed.

End Walk.


Section Scan.

Context (X : core.Extractors).

Let cp := core.NewCodeProcessor X.















End Scan.



(** The scan of [prunedTree] from the root "node_modules": the files in the
    inner node_modules and in .cache are gone, the unsupported notes.bin
    too. *)
Example scan_of_prunedTree :
  core.Path <$> (core.scanDirectory (core.NewCodeProcessor core.onEmptyFiles)
                   "node_modules" (Some prunedTree)).1
  = ["node_modules/keep.go"; "node_modules/src/main.py"].
Proof. vm_compute. reflexivity. Qed.

(* ===================================================================== *)
(** * The directory scaffold of [AnalyzeCodebase] *)
(* ===================================================================== *)

Section Scaffold.

Lemma lastThat_acc (test : Entity → bool) (l : list Entity) (acc : option Entity) :
  fold_left (λ found entity, if test entity then Some entity else found) l acc
  = match core.lastThat test l with Some e => Some e | None => acc end.
Proof.
  unfold core.lastThat. revert acc. induction l as [|x l IH]; intros acc; [done|].
  simpl. rewrite (IH (if test x then Some x else acc)), (IH (if test x then Some x else None)).
  destruct (fold_left _ l None); [done|]. by destruct (test x).
Qed.

Lemma lastThat_app (test : Entity → bool) (l1 l2 : list Entity) :
  core.lastThat test (l1 ++ l2)
  = match core.lastThat test l2 with
    | Some e => Some e
    | None => core.lastThat test l1
    end.
Proof. unfold core.lastThat at 1. rewrite fold_left_app. apply lastThat_acc. Qed.

Lemma lastThat_none (test : Entity → bool) (l : list Entity) :
  Forall (λ e, test e = false) l → core.lastThat test l = None.
Proof.
  unfold core.lastThat. induction 1 as [|x l E _ IH]; [done|]. simpl. by rewrite E.
Qed.

Lemma lastThat_cons (test : Entity → bool) (x : Entity) (l : list Entity) :
  core.lastThat test (x :: l)
  = match core.lastThat test l with
    | Some e => Some e
    | None => if test x then Some x else None
    end.
Proof. change (x :: l) with ([x] ++ l). rewrite lastThat_app. reflexivity. Qed.

Lemma createImportRelationships_sources (es : list Entity) (r : Relationship) :
  r ∈ core.createImportRelationships es →
  RelType r = graph.RelationshipTypeReferences
  ∧ ∃ i, i ∈ es ∧ Type_ i = graph.EntityTypeImport ∧ Source r = ID i.
Proof.
  unfold core.createImportRelationships. intros H.
  apply list_elem_of_In, in_flat_map in H as (i & Hi & H).
  apply list_elem_of_In, list_elem_of_filter in Hi as [Hty Hi].
  destruct (Properties i !! "source") as [[|source| |]|]; try by apply in_nil in H.
  destruct (List.find _ _) as [m|]; [|by apply in_nil in H].
  destruct H as [<-|[]]. split; [done|]. by exists i.
Qed.

Context (X : core.Extractors) (contract : goContract X).

Let cp := core.NewCodeProcessor X.

Lemma scan_scaffold (cx cy : string) :
  core.scanDirectory cp "a" (Some (scaffoldTree cx cy)) = ([fileX cx; fileY cy], None).
Proof. reflexivity. Qed.

Lemma directories_scaffold (cx cy : string) :
  core.extractDirectories [fileX cx; fileY cy] = ["a/b"; "a"].
Proof. vm_compute. reflexivity. Qed.

Lemma analyzeFile_go (path name content : string) :
  core.analyzeFile cp (goFile path name content)
  = core.analyzeGoFile X (goFile path name content)
      (core.createFileEntity (goFile path name content)).
Proof. reflexivity. Qed.

Lemma tests_fail (p : Entity → bool) (ty : string) (es : list Entity) :
  ty = graph.EntityTypeFile ∨ ty = graph.EntityTypeDirectory →
  Forall notScaffold es →
  Forall (λ e, String.eqb (Type_ e) ty && p e = false) es.
Proof.
  intros Hty HF. eapply Forall_impl; [exact HF|]. intros e [H1 H2]. cbn beta.
  apply andb_false_iff. left. apply String.eqb_neq. by destruct Hty as [->| ->].
Qed.

Lemma link_x (cx : string) (es1 : list Entity) :
  Forall notScaffold es1 →
  core.createFileDirectoryRelationships (fileX cx)
    ([directoryB; directoryA] ++ core.createFileEntity (fileX cx) :: es1)
  = [contains directoryB (core.createFileEntity (fileX cx))].
Proof.
  intros H1. unfold core.createFileDirectoryRelationships.
  change (filepath.Dir (core.Path (fileX cx))) with "a/b".
  rewrite !lastThat_app, !lastThat_cons.
  rewrite !(lastThat_none _ es1) by (apply tests_fail; [auto|done]).
  reflexivity.
Qed.

Lemma link_y (cx cy : string) (es1 es2 : list Entity) :
  Forall notScaffold es1 → Forall notScaffold es2 →
  core.createFileDirectoryRelationships (fileY cy)
    (([directoryB; directoryA] ++ core.createFileEntity (fileX cx) :: es1)
       ++ core.createFileEntity (fileY cy) :: es2)
  = [contains directoryA (core.createFileEntity (fileY cy))].
Proof.
  intros H1 H2. unfold core.createFileDirectoryRelationships.
  change (filepath.Dir (core.Path (fileY cy))) with "a".
  rewrite !lastThat_app, !lastThat_cons.
  rewrite !(lastThat_none _ es1) by (apply tests_fail; [auto|done]).
  rewrite !(lastThat_none _ es2) by (apply tests_fail; [auto|done]).
  reflexivity.
Qed.

(** The batch that [AnalyzeCodebase] returns for the scaffold example. *)
Lemma AnalyzeCodebase_scaffold (cx cy : string) :
  ∃ es1 rs1 es2 rs2,
    core.analyzeFile cp (fileX cx) = (core.createFileEntity (fileX cx) :: es1, rs1, None)
    ∧ core.analyzeFile cp (fileY cy) = (core.createFileEntity (fileY cy) :: es2, rs2, None)
    ∧ Forall notScaffold es1 ∧ Forall notScaffold es2
    ∧ let entities :=
        ([directoryB; directoryA] ++ core.createFileEntity (fileX cx) :: es1)
          ++ core.createFileEntity (fileY cy) :: es2 in
      core.AnalyzeCodebase cp "a" (Some (scaffoldTree cx cy))
      = (entities,
         ((([] ++ rs1) ++ [contains directoryB (core.createFileEntity (fileX cx))])
            ++ rs2 ++ [contains directoryA (core.createFileEntity (fileY cy))])
           ++ core.createImportRelationships entities,
         None).
Proof.
  destruct (contract (fileX cx) (core.createFileEntity (fileX cx)))
    as (es1 & rs1 & E1 & F1).
  destruct (contract (fileY cy) (core.createFileEntity (fileY cy)))
    as (es2 & rs2 & E2 & F2).
  exists es1, rs1, es2, rs2.
  assert (A1 : core.analyzeFile cp (fileX cx)
               = (core.createFileEntity (fileX cx) :: es1, rs1, None))
    by (unfold fileX; rewrite analyzeFile_go; exact E1).
  assert (A2 : core.analyzeFile cp (fileY cy)
               = (core.createFileEntity (fileY cy) :: es2, rs2, None))
    by (unfold fileY; rewrite analyzeFile_go; exact E2).
  split_and!; [done..|].
  intros entities. unfold core.AnalyzeCodebase.
  rewrite scan_scaffold. cbn iota beta. rewrite directories_scaffold.
  change ((λ dir, core.createDirectoryEntity dir "a") <$> ["a/b"; "a"])
    with [directoryB; directoryA].
  cbn [core.processFiles]. rewrite A1. cbn iota beta.
  rewrite (link_x cx es1 F1). rewrite A2. cbn iota beta.
  rewrite (link_y cx cy es1 es2 F1 F2).
  unfold entities. by rewrite <- !app_assoc.
Qed.

End Scaffold.

Lemma goContract_onEmptyFiles : goContract core.onEmptyFiles.
Proof. intros file fileEntity. exists [], []. split; [reflexivity|constructor]. Qed.

(** C7, as stated, fails.  For empty files a/b/x.go and a/y.go under the
    root a, the batch holds exactly two relationships, the [contains] edges
    a/b→x.go and a→y.go: no relationship leads from directory a to directory
    a/b.  And the directories of the batch include the walk root a itself. *)
Lemma C7_counterexample :
  scaffoldBatch.1.2
  = [contains directoryB (core.createFileEntity (fileX ""));
     contains directoryA (core.createFileEntity (fileY ""))]
  ∧ (∀ r, r ∈ scaffoldBatch.1.2 →
       ¬ (Source r = ID directoryA ∧ Target r = ID directoryB))
  ∧ directoryA ∈ scaffoldBatch.1.1
  ∧ Properties directoryA !! "path" = Some (VString "a").
Proof.
  assert (E : scaffoldBatch.1.2
              = [contains directoryB (core.createFileEntity (fileX ""));
                 contains directoryA (core.createFileEntity (fileY ""))])
    by (vm_compute; reflexivity).
  split_and!.
  - exact E.
  - intros r Hr. rewrite E in Hr. clear E.
    apply elem_of_cons in Hr as [->|Hr]; [|apply elem_of_cons in Hr as [->|Hr]].
    + intros [H _]. vm_compute in H. discriminate H.
    + intros [_ H]. vm_compute in H. discriminate H.
    + destruct (proj1 (elem_of_nil r) Hr).
  - assert (scaffoldBatch.1.1
            = [directoryB; directoryA; core.createFileEntity (fileX "");
               core.createFileEntity (fileY "")]) as -> by (vm_compute; reflexivity).
    clear E. right. left.
  - reflexivity.
Qed.

(** C7, amended.  Given files a/b/x.go and a/y.go (of any content) under
    the walk root a, and a Go analyzer that returns the file entity and
    creates no file or directory entity, [AnalyzeCodebase] succeeds; its
    batch contains the directory entities for a and a/b and the [contains]
    relationships a/b→x.go and a→y.go; every relationship of the batch was
    either returned by the analyzer for one of the two files, or is one of
    these two edges, or is a [references] edge that starts at an import
    entity, so none leads from a directory to a subdirectory; and the
    directories are those of each file's chain up to the top of its path,
    the walk root a included. *)
Theorem C7_directory_scaffold (X : core.Extractors) (contentX contentY : string) :
  goContract X →
  let cp := core.NewCodeProcessor X in
  let batch := core.AnalyzeCodebase cp "a" (Some (scaffoldTree contentX contentY)) in
  let entityX := core.createFileEntity (fileX contentX) in
  let entityY := core.createFileEntity (fileY contentY) in
  batch.2 = None
  ∧ directoryA ∈ batch.1.1 ∧ directoryB ∈ batch.1.1
  ∧ entityX ∈ batch.1.1 ∧ entityY ∈ batch.1.1
  ∧ contains directoryB entityX ∈ batch.1.2
  ∧ contains directoryA entityY ∈ batch.1.2
  ∧ (∀ r, r ∈ batch.1.2 →
       r ∈ (core.analyzeFile cp (fileX contentX)).1.2
       ∨ r ∈ (core.analyzeFile cp (fileY contentY)).1.2
       ∨ r = contains directoryB entityX
       ∨ r = contains directoryA entityY
       ∨ (RelType r = graph.RelationshipTypeReferences
          ∧ ∃ i, i ∈ batch.1.1 ∧ Type_ i = graph.EntityTypeImport ∧ Source r = ID i))
  ∧ (∀ dir,
       dir ∈ core.extractDirectories
               (core.scanDirectory cp "a" (Some (scaffoldTree contentX contentY))).1
       ↔ dir = "a/b" ∨ dir = "a").
Proof.
  intros contract cp batch entityX entityY.
  destruct (AnalyzeCodebase_scaffold X contract contentX contentY)
    as (es1 & rs1 & es2 & rs2 & A1 & A2 & F1 & F2 & E).
  cbn zeta in E. fold cp batch entityX entityY in E, A1, A2.
  rewrite E, A1, A2. cbn [fst snd].
  split_and!.
  1: done.
  1-6: clear; set_solver.
  - intros r Hr. rewrite !elem_of_app in Hr.
    destruct Hr as [[[[Hr|Hr]|Hr]|[Hr|Hr]]|Hr].
    + by apply elem_of_nil in Hr.
    + by left.
    + apply list_elem_of_singleton in Hr. by right; right; left.
    + by right; left.
    + apply list_elem_of_singleton in Hr. by right; right; right; left.
    + do 4 right. by apply createImportRelationships_sources.
  - intros dir. unfold cp. rewrite scan_scaffold. cbn [fst].
    rewrite directories_scaffold, !elem_of_cons, elem_of_nil. clear. tauto.
Qed.

Lemma C7_witness :
  scaffoldBatch.2 = None
  ∧ directoryA ∈ scaffoldBatch.1.1 ∧ directoryB ∈ scaffoldBatch.1.1
  ∧ core.createFileEntity (fileX "") ∈ scaffoldBatch.1.1
  ∧ core.createFileEntity (fileY "") ∈ scaffoldBatch.1.1
  ∧ contains directoryB (core.createFileEntity (fileX "")) ∈ scaffoldBatch.1.2
  ∧ contains directoryA (core.createFileEntity (fileY "")) ∈ scaffoldBatch.1.2
  ∧ (∀ r, r ∈ scaffoldBatch.1.2 →
       r ∈ (core.analyzeFile (core.NewCodeProcessor core.onEmptyFiles) (fileX "")).1.2
       ∨ r ∈ (core.analyzeFile (core.NewCodeProcessor core.onEmptyFiles) (fileY "")).1.2
       ∨ r = contains directoryB (core.createFileEntity (fileX ""))
       ∨ r = contains directoryA (core.createFileEntity (fileY ""))
       ∨ (RelType r = graph.RelationshipTypeReferences
          ∧ ∃ i, i ∈ scaffoldBatch.1.1 ∧ Type_ i = graph.EntityTypeImport
                 ∧ Source r = ID i))
  ∧ (∀ dir,
       dir ∈ core.extractDirectories
               (core.scanDirectory (core.NewCodeProcessor core.onEmptyFiles) "a"
                  (Some (scaffoldTree "" ""))).1
       ↔ dir = "a/b" ∨ dir = "a").
Proof.
  apply (C7_directory_scaffold core.onEmptyFiles "" "").
  intros file fileEntity. exists [], []. split; [reflexivity|constructor].
Defined.

(* ===================================================================== *)
(** * Reading the in-memory store: [Query] and its callers *)
(* ===================================================================== *)

Section Reads.

Lemma substring_length (n : nat) (s : string) :
  (n ≤ String.length s)%nat → String.length (substring 0 n s) = n.
Proof.
  revert s. induction n as [|n IH]; intros s H.
  - by destruct s.
  - destruct s as [|c s]; [simpl in H; lia|]. simpl. rewrite IH; [done|].
    simpl in H. lia.
Qed.

(** The entity-type branch of [Query] is never taken: twelve bytes cannot
    equal the nine bytes of the literal they are compared with. *)
Lemma typePattern_none (cypher : string) : db.typePattern cypher = None.
Proof.
  unfold db.typePattern.
  destruct (12 <? String.length cypher)%nat eqn:Hlen; [|done].
  apply Nat.ltb_lt in Hlen.
  destruct (String.eqb (substring 0 12 cypher) "MATCH (n:") eqn:E; [|done].
  apply String.eqb_eq in E. apply (f_equal String.length) in E.
  rewrite substring_length in E by lia. discriminate E.
Qed.

Lemma Query_other (d : db.InMemoryDatabase) (cypher : string) (parameters : PropertyMap) :
  cypher ≠ db.matchEntities → cypher ≠ db.matchEdges →
  cypher ≠ db.entityStatistics → cypher ≠ db.relationshipStatistics →
  db.Query d cypher parameters = ([], None).
Proof.
  intros H1 H2 H3 H4. unfold db.Query.
  apply String.eqb_neq in H1, H2, H3, H4.
  by rewrite H1, H2, typePattern_none, H3, H4.
Qed.

Lemma typed_query_other (entityType : string) :
  let cypher := "MATCH (n:" +:+ entityType +:+ ") RETURN n" in
  cypher ≠ db.matchEntities ∧ cypher ≠ db.matchEdges
  ∧ cypher ≠ db.entityStatistics ∧ cypher ≠ db.relationshipStatistics.
Proof. split_and!; intros E; vm_compute in E; discriminate E. Qed.

Lemma rowEntity_entityRow (l : list Entity) :
  omap core.rowEntity (db.entityRow <$> l) = l.
Proof.
  induction l as [|e l IH]; [done|]. rewrite fmap_cons. cbn [omap list_omap].
  unfold core.rowEntity at 1, db.entityRow at 1. rewrite lookup_singleton_eq.
  by rewrite IH.
Qed.

Lemma edgeRow_relationship (d : db.InMemoryDatabase) (r : Relationship)
    (row : db.QueryResult) :
  db.edgeRow d r = Some row → core.rowRelationship row = Some r.
Proof.
  unfold db.edgeRow.
  destruct (db.entities d !! Source r), (db.entities d !! Target r); try done.
  intros [= <-]. unfold core.rowRelationship.
  rewrite lookup_insert_ne by done. by rewrite lookup_insert_eq.
Qed.

Lemma edgeRow_is_Some (d : db.InMemoryDatabase) (r : Relationship) :
  is_Some (db.edgeRow d r)
  ↔ is_Some (db.entities d !! Source r) ∧ is_Some (db.entities d !! Target r).
Proof.
  unfold db.edgeRow.
  destruct (db.entities d !! Source r), (db.entities d !! Target r);
    split; try (intros [? ?]; done); try (intros [[? ?] [? ?]]; done); eauto.
Qed.

Lemma exported_relationships (d : db.InMemoryDatabase) (l : list Relationship) :
  omap core.rowRelationship (omap (db.edgeRow d) l)
  = filter (λ r, is_Some (db.entities d !! Source r)
                 ∧ is_Some (db.entities d !! Target r)) l.
Proof.
  induction l as [|r l IH]; [done|]. cbn [omap list_omap]. rewrite filter_cons.
  destruct (db.edgeRow d r) as [row|] eqn:E.
  - cbn [omap list_omap]. rewrite (edgeRow_relationship d r row E).
    rewrite decide_True; [by rewrite IH|]. apply edgeRow_is_Some. by rewrite E.
  - rewrite decide_False; [done|]. intros H. apply edgeRow_is_Some in H.
    rewrite E in H. by destruct H.
Qed.

Lemma storedEntities_elem (d : db.InMemoryDatabase) (e : Entity) :
  e ∈ db.storedEntities d ↔ ∃ id, db.entities d !! id = Some e.
Proof.
  unfold db.storedEntities. rewrite list_elem_of_fmap. split.
  - intros ([id e'] & -> & H). exists id. by apply elem_of_map_to_list in H.
  - intros (id & H). exists (id, e). split; [done|]. by apply elem_of_map_to_list.
Qed.

Lemma storedEdges_elem (d : db.InMemoryDatabase) (r : Relationship) :
  r ∈ db.storedEdges d ↔ ∃ id, db.relationships d !! id = Some r.
Proof.
  unfold db.storedEdges. rewrite list_elem_of_fmap. split.
  - intros ([id r'] & -> & H). exists id. by apply elem_of_map_to_list in H.
  - intros (id & H). exists (id, r). split; [done|]. by apply elem_of_map_to_list.
Qed.

Lemma storedEntities_length (d : db.InMemoryDatabase) :
  length (db.storedEntities d) = size (db.entities d).
Proof. unfold db.storedEntities. by rewrite length_fmap, length_map_to_list. Qed.

Lemma storedEdges_length (d : db.InMemoryDatabase) :
  length (db.storedEdges d) = size (db.relationships d).
Proof. unfold db.storedEdges. by rewrite length_fmap, length_map_to_list. Qed.

(** ** Referential integrity is an invariant of the store *)

Lemma endpointsStored_entity (d : db.InMemoryDatabase) (e : Entity) :
  endpointsStored d → endpointsStored (db.CreateEntity d e).1.
Proof.
  intros H k r Hr. rewrite CreateEntity_upsert in *. cbn [fst db.entities db.relationships] in *.
  destruct (H k r Hr) as [Hs Ht].
  rewrite !upsert_lookup. split; case_decide; try done; unfold slot; eauto.
Qed.

Lemma endpointsStored_relationship (d : db.InMemoryDatabase) (r : Relationship)
    (x : string) :
  endpointsStored d → db.loopLeaves (db.relationships d) r x →
  endpointsStored (db.CreateRelationshipWith x d r).1.
Proof.
  intros H Hx. unfold db.CreateRelationshipWith.
  destruct (db.checkEndpoints d r) eqn:Hc; [done|].
  apply checkEndpoints_None in Hc. cbn [fst].
  unfold db.storeRelationship. destruct (String.eqb x "") eqn:Ex; cbn [negb].
  - intros k r' Hr'. cbn [db.entities db.relationships] in *.
    apply lookup_insert_Some in Hr' as [[_ <-]|[_ Hr']]; [done|by apply (H k)].
  - apply String.eqb_neq in Ex.
    destruct Hx as [Hx|[_ ->]]; [|done].
    apply elem_of_matchingIDs in Hx as (old & Hold & _). rewrite Hold. cbn [default].
    intros k r' Hr'. cbn [db.entities db.relationships] in *.
    apply lookup_insert_Some in Hr' as [[_ <-]|[_ Hr']]; [|by apply (H k)].
    cbn [Source Target]. by apply (H x).
Qed.

Lemma endpointsStored_reachable (P : Relationship → Prop) (d0 d : db.InMemoryDatabase) :
  endpointsStored d0 → reachable P d0 d → endpointsStored d.
Proof.
  intros H0. induction 1 as [|d e _ IH|d r x _ IH _ Hx|d _ IH].
  - done.
  - by apply endpointsStored_entity.
  - by apply endpointsStored_relationship.
  - intros k r Hr. cbn in Hr. by rewrite lookup_empty in Hr.
Qed.

Lemma endpointsStored_new : endpointsStored db.NewInMemoryDatabase.
Proof. intros k r Hr. cbn in Hr. by rewrite lookup_empty in Hr. Qed.

(** ** Statistics *)

Lemma occurrences_cons (t x : string) (types : list string) :
  occurrences t (x :: types)
  = ((if decide (x = t) then 1 else 0) + occurrences t types)%Z.
Proof.
  unfold occurrences. rewrite filter_cons. case_decide; cbn [length]; lia.
Qed.

Lemma occurrences_nonneg (t : string) (types : list string) :
  (0 ≤ occurrences t types)%Z.
Proof. unfold occurrences. lia. Qed.

Lemma countTypes_acc (types : list string) (acc : gmap string Z) (t : string) :
  fold_left (λ typeCounts t, <[t := (default 0 (typeCounts !! t) + 1)%Z]> typeCounts)
    types acc !! t
  = if decide (occurrences t types = 0%Z) then acc !! t
    else Some (default 0 (acc !! t) + occurrences t types)%Z.
Proof.
  revert acc. induction types as [|x types IH]; intros acc; [done|].
  cbn [fold_left]. rewrite IH, occurrences_cons.
  pose proof (occurrences_nonneg t types) as Hn.
  destruct (decide (x = t)) as [->|Hx].
  - rewrite lookup_insert_eq. cbn [default].
    rewrite (decide_False (P := (1 + _ = 0)%Z)) by lia.
    case_decide as E; [rewrite E|]; f_equal; unfold id; lia.
  - rewrite lookup_insert_ne by done.
    case_decide as E; case_decide as E'; try lia; done.
Qed.

Lemma countTypes_lookup (types : list string) (t : string) :
  db.countTypes types !! t
  = if decide (occurrences t types = 0%Z) then None else Some (occurrences t types).
Proof.
  unfold db.countTypes. rewrite countTypes_acc, lookup_empty.
  by case_decide.
Qed.

Lemma total_insert (counts : gmap string Z) (t : string) (n : Z) :
  core.total (<[t := n]> counts) = (core.total counts - default 0 (counts !! t) + n)%Z.
Proof.
  unfold core.total.
  assert (Hcomm : ∀ (j1 j2 : string) (z1 z2 y : Z),
            (y + z1 + z2 = y + z2 + z1)%Z) by (intros; lia).
  destruct (counts !! t) as [old|] eqn:E.
  - rewrite <- (insert_delete_id counts t old E) at 2.
    rewrite <- (insert_delete_eq counts).
    rewrite !map_fold_insert_L; try (by rewrite lookup_delete_eq); try (intros; lia).
    unfold default, id. lia.
  - rewrite map_fold_insert_L; [unfold default, id; lia|intros; lia|done].
Qed.

Lemma total_countTypes_acc (types : list string) (acc : gmap string Z) :
  core.total
    (fold_left (λ typeCounts t, <[t := (default 0 (typeCounts !! t) + 1)%Z]> typeCounts)
       types acc)
  = (core.total acc + Z.of_nat (length types))%Z.
Proof.
  revert acc. induction types as [|x types IH]; intros acc.
  - cbn. lia.
  - cbn [fold_left]. rewrite IH, total_insert. cbn [length]. lia.
Qed.

Lemma total_countTypes (types : list string) :
  core.total (db.countTypes types) = Z.of_nat (length types).
Proof.
  unfold db.countTypes. rewrite total_countTypes_acc.
  unfold core.total. by rewrite map_fold_empty.
Qed.

Lemma statisticOf_row (tc : string * Z) :
  core.statisticOf (db.statisticsRow tc) = Some tc.
Proof.
  destruct tc as [t n]. unfold core.statisticOf, db.statisticsRow. cbn [fst snd].
  rewrite lookup_insert_eq, lookup_insert_ne by done. by rewrite lookup_insert_eq.
Qed.

Lemma byType_acc (l : list (string * Z)) (acc : gmap string Z) :
  NoDup l.*1 →
  fold_left
    (λ counts stat,
       match core.statisticOf stat with
       | Some (t, count) => <[t := count]> counts
       | None => counts
       end)
    (db.statisticsRow <$> l) acc
  = list_to_map l ∪ acc.
Proof.
  revert acc. induction l as [|[t n] l IH]; intros acc Hnd.
  - cbn. by rewrite (left_id_L ∅ (∪)).
  - rewrite fmap_cons in Hnd. apply NoDup_cons in Hnd as [Hin Hnd].
    rewrite fmap_cons. cbn [fold_left]. rewrite statisticOf_row.
    rewrite (IH _ Hnd). cbn [list_to_map foldr uncurry].
    rewrite <- insert_union_l. rewrite <- insert_union_r; [done|].
    by apply not_elem_of_list_to_map_1.
Qed.

Lemma byType_statisticsRows (counts : gmap string Z) :
  core.byType (db.statisticsRows counts) = counts.
Proof.
  unfold core.byType, db.statisticsRows.
  rewrite byType_acc by apply NoDup_fst_map_to_list.
  by rewrite (right_id_L ∅ (∪)), list_to_map_to_list.
Qed.

End Reads.

(** X1.  Referential integrity is kept.  In every state that calls of
    [CreateEntity], [CreateRelationship] and [ClearDatabase] reach from the
    empty store, whatever relationships are passed in and whatever order the
    search loop of [CreateRelationship] iterates in, both endpoints of every
    stored relationship are stored entities. *)
Theorem X1_referential_integrity (d : db.InMemoryDatabase) :
  reachable (λ _, True) db.NewInMemoryDatabase d → endpointsStored d.
Proof. apply endpointsStored_reachable, endpointsStored_new. Qed.

Lemma X1_witness : endpointsStored sampleStore.
Proof.
  apply (X1_referential_integrity sampleStore).
  unfold sampleStore. apply runCalls_reachable. constructor.
Defined.

(** X2.  [Query] answers four texts only.  Any other text, a type pattern
    such as MATCH (n:CLASS) RETURN n included, yields no row and no error:
    the guard of the entity-type branch compares the first twelve bytes of
    the text with a literal of nine bytes, so that branch is never taken. *)
Theorem X2_query_other_text_yields_nothing (d : db.InMemoryDatabase)
    (cypher : string) (parameters : PropertyMap) :
  cypher ∉ [db.matchEntities; db.matchEdges; db.entityStatistics;
            db.relationshipStatistics] →
  db.Query d cypher parameters = ([], None).
Proof.
  intros H. rewrite !not_elem_of_cons in H. destruct H as (H1 & H2 & H3 & H4 & _).
  by apply Query_other.
Qed.

Lemma X2_witness :
  exampleEntity "a" ∈ db.GetAllEntities sampleStore
  ∧ db.Query sampleStore "MATCH (n:CLASS) RETURN n" ∅ = ([], None).
Proof.
  split.
  - apply storedEntities_elem. exists "a". vm_compute. reflexivity.
  - apply (X2_query_other_text_yields_nothing sampleStore "MATCH (n:CLASS) RETURN n" ∅).
    rewrite !not_elem_of_cons.
    split_and!; try (intros E; vm_compute in E; discriminate E). apply not_elem_of_nil.
Defined.

Section Callers.

Lemma Query_entityStatistics (d : db.InMemoryDatabase) (parameters : PropertyMap) :
  db.Query d db.entityStatistics parameters
  = (db.statisticsRows (db.countTypes (Type_ <$> db.storedEntities d)), None).
Proof.
  unfold db.Query. rewrite typePattern_none.
  replace (String.eqb db.entityStatistics db.matchEntities) with false
    by (vm_compute; reflexivity).
  replace (String.eqb db.entityStatistics db.matchEdges) with false
    by (vm_compute; reflexivity).
  by rewrite String.eqb_refl.
Qed.

Lemma Query_relationshipStatistics (d : db.InMemoryDatabase) (parameters : PropertyMap) :
  db.Query d db.relationshipStatistics parameters
  = (db.statisticsRows (db.countTypes (RelType <$> db.storedEdges d)), None).
Proof.
  unfold db.Query. rewrite typePattern_none.
  replace (String.eqb db.relationshipStatistics db.matchEntities) with false
    by (vm_compute; reflexivity).
  replace (String.eqb db.relationshipStatistics db.matchEdges) with false
    by (vm_compute; reflexivity).
  replace (String.eqb db.relationshipStatistics db.entityStatistics) with false
    by (vm_compute; reflexivity).
  by rewrite String.eqb_refl.
Qed.

Lemma Query_matchEntities (d : db.InMemoryDatabase) (parameters : PropertyMap) :
  db.Query d "MATCH (n) RETURN n" parameters
  = (db.entityRow <$> db.storedEntities d, None).
Proof. reflexivity. Qed.

Lemma Query_matchEdges (d : db.InMemoryDatabase) (parameters : PropertyMap) :
  db.Query d "MATCH (a)-[r]->(b) RETURN a, r, b" parameters
  = (omap (db.edgeRow d) (db.storedEdges d), None).
Proof. reflexivity. Qed.

Lemma all_endpoints_stored (d : db.InMemoryDatabase) :
  endpointsStored d →
  filter (λ r, is_Some (db.entities d !! Source r)
               ∧ is_Some (db.entities d !! Target r)) (db.storedEdges d)
  = db.storedEdges d.
Proof.
  intros H.
  assert (Hall : Forall (λ r, is_Some (db.entities d !! Source r)
                              ∧ is_Some (db.entities d !! Target r))
                   (db.storedEdges d)).
  { apply Forall_forall. intros r Hr. apply storedEdges_elem in Hr as [k Hk].
    by apply (H k). }
  induction Hall as [|r l Hr _ IH]; [done|].
  rewrite filter_cons, decide_True by done. by rewrite IH.
Qed.

End Callers.

(** X3.  On the in-memory store two operations of the generator do
    nothing.  [FindEntitiesByType] builds a type pattern, which [Query] does
    not answer: it returns no row and no error for every type and every
    store.  [KnowledgeGraphGenerator.ClearDatabase] sends a delete statement
    through [Query], which only reads: the store is left as it was and the
    call reports success.  The store's own [ClearDatabase] does empty it. *)
Theorem X3_type_search_and_generator_clear (d : db.InMemoryDatabase)
    (entityType : string) :
  core.FindEntitiesByType d entityType = ([], None)
  ∧ core.ClearDatabase d = (d, None)
  ∧ db.GetAllEntities (core.ClearDatabase d).1 = db.GetAllEntities d
  ∧ db.GetAllEntities (db.ClearDatabase d).1 = [].
Proof.
  split_and!.
  - unfold core.FindEntitiesByType, core.QueryKnowledgeGraph.
    destruct (typed_query_other entityType) as (H1 & H2 & H3 & H4).
    by apply Query_other.
  - reflexivity.
  - reflexivity.
  - reflexivity.
Qed.

(** X4.  The listing handlers over the in-memory store.  The entities
    handler answers 200 with exactly the stored entities, one for each id.
    The relationships handler asks for MATCH (a)-[r]->(b) RETURN r, a text
    that [Query] does not answer: it answers 200 with an empty list whatever
    the store holds. *)
Theorem X4_listing_handlers (d : db.InMemoryDatabase) :
  (∃ response,
     rest.getEntitiesHandler d = (200, response)
     ∧ rest.Success response = true
     ∧ (∀ e, e ∈ rest.Entities response ↔ ∃ id, db.entities d !! id = Some e)
     ∧ length (rest.Entities response) = size (db.entities d))
  ∧ rest.getRelationshipsHandler d
    = (200, {| rest.Success := true; rest.Message := "";
               rest.Entities := []; rest.Relationships := [] |}).
Proof.
  split.
  - unfold rest.getEntitiesHandler. rewrite Query_matchEntities.
    eexists. split; [reflexivity|]. cbn [rest.Success rest.Entities].
    rewrite rowEntity_entityRow. split_and!; [done| |apply storedEntities_length].
    intros e. apply storedEntities_elem.
  - reflexivity.
Qed.

(** X5.  [ExportKnowledgeGraph] returns the whole store.  In every state
    reached from the empty store it succeeds, its entities are exactly the
    stored entities and its relationships exactly the stored relationships,
    one for each id: no relationship is dropped for a missing endpoint. *)
Theorem X5_export_returns_the_store (d : db.InMemoryDatabase) :
  reachable (λ _, True) db.NewInMemoryDatabase d →
  ∃ es rs,
    core.ExportKnowledgeGraph d = (Some (es, rs), None)
    ∧ (∀ e, e ∈ es ↔ ∃ id, db.entities d !! id = Some e)
    ∧ length es = size (db.entities d)
    ∧ (∀ r, r ∈ rs ↔ ∃ id, db.relationships d !! id = Some r)
    ∧ length rs = size (db.relationships d).
Proof.
  intros Hd. exists (db.storedEntities d), (db.storedEdges d).
  unfold core.ExportKnowledgeGraph, core.QueryKnowledgeGraph.
  rewrite Query_matchEntities, Query_matchEdges.
  rewrite rowEntity_entityRow, exported_relationships.
  rewrite all_endpoints_stored
    by (eapply endpointsStored_reachable; [apply endpointsStored_new|exact Hd]).
  split_and!.
  - done.
  - apply storedEntities_elem.
  - apply storedEntities_length.
  - apply storedEdges_elem.
  - apply storedEdges_length.
Qed.

Lemma X5_witness :
  ∃ es rs,
    core.ExportKnowledgeGraph sampleStore = (Some (es, rs), None)
    ∧ (∀ e, e ∈ es ↔ ∃ id, db.entities sampleStore !! id = Some e)
    ∧ length es = size (db.entities sampleStore)
    ∧ (∀ r, r ∈ rs ↔ ∃ id, db.relationships sampleStore !! id = Some r)
    ∧ length rs = size (db.relationships sampleStore).
Proof.
  apply (X5_export_returns_the_store sampleStore).
  unfold sampleStore. apply runCalls_reachable. constructor.
Defined.

(** X6.  [GetGraphStatistics] over the in-memory store is exact.  It
    succeeds; the totals are the numbers of stored entities and of stored
    relationships; each map gives a type the number of stored records of
    that type, and has no entry for a type without records. *)
Theorem X6_statistics_are_exact (d : db.InMemoryDatabase) :
  ∃ stats,
    core.GetGraphStatistics d = (Some stats, None)
    ∧ core.TotalEntities stats = Z.of_nat (size (db.entities d))
    ∧ core.TotalRelationships stats = Z.of_nat (size (db.relationships d))
    ∧ (∀ t, core.EntitiesByType stats !! t
            = let n := occurrences t (Type_ <$> db.GetAllEntities d) in
              if decide (n = 0%Z) then None else Some n)
    ∧ (∀ t, core.RelationshipsByType stats !! t
            = let n := occurrences t (RelType <$> db.storedEdges d) in
              if decide (n = 0%Z) then None else Some n).
Proof.
  unfold core.GetGraphStatistics, core.QueryKnowledgeGraph.
  rewrite Query_entityStatistics, Query_relationshipStatistics.
  eexists. split; [reflexivity|].
  cbn [core.TotalEntities core.TotalRelationships core.EntitiesByType
       core.RelationshipsByType].
  rewrite !byType_statisticsRows, !total_countTypes, !length_fmap.
  rewrite storedEntities_length, storedEdges_length.
  split_and!; try done.
  - intros t. apply countTypes_lookup.
  - intros t. apply countTypes_lookup.
Qed.

(* ===================================================================== *)
(** * Batches over the in-memory store *)
(* ===================================================================== *)

Section Batches.

Lemma filter_ID_nonempty (es : list Entity) (id : string) :
  id ∈ ID <$> es ↔ filter (λ x, ID x = id) es ≠ [].
Proof.
  rewrite list_elem_of_fmap. split.
  - intros (e & -> & He) Hnil.
    assert (e ∈ filter (λ x, ID x = ID e) es) as Hin by (by apply list_elem_of_filter).
    rewrite Hnil in Hin. by apply elem_of_nil in Hin.
  - intros Hne. destruct (filter (λ x, ID x = id) es) as [|e l] eqn:E; [done|].
    assert (e ∈ filter (λ x, ID x = id) es) as Hin by (rewrite E; left).
    apply list_elem_of_filter in Hin as [<- Hin]. by exists e.
Qed.

Lemma CreateEntities_lookup (es : list Entity) (id : string) :
  db.entities (db.CreateEntities db.NewInMemoryDatabase es).1 !! id
  = match filter (λ x, ID x = id) es with
    | [] => None
    | first :: rest => Some (fold_left mergeEntity rest first)
    end.
Proof.
  rewrite CreateEntities_fold. cbn [fst db.entities db.NewInMemoryDatabase].
  rewrite fold_upsert_lookup, lookup_empty.
  destruct (filter (λ x, ID x = id) es) as [|first rest]; [done|].
  cbn [fold_left]. unfold slot at 2. apply fold_slot_Some.
Qed.

Lemma CreateEntities_size (es : list Entity) :
  size (db.entities (db.CreateEntities db.NewInMemoryDatabase es).1)
  = length (remove_dups (ID <$> es)).
Proof.
  rewrite <- size_dom.
  assert (dom (db.entities (db.CreateEntities db.NewInMemoryDatabase es).1)
          = (list_to_set (remove_dups (ID <$> es)) : gset string)) as ->.
  { apply set_eq. intros id.
    rewrite elem_of_dom, elem_of_list_to_set, elem_of_remove_dups.
    rewrite CreateEntities_lookup, filter_ID_nonempty.
    destruct (filter (λ x, ID x = id) es); split; try done; try (by intros [? ?]); eauto. }
  apply size_list_to_set, NoDup_remove_dups.
Qed.

Lemma CreateRelationships_entities (rs : list Relationship) (d : db.InMemoryDatabase) :
  db.entities (db.CreateRelationships d rs).1 = db.entities d.
Proof.
  revert d. induction rs as [|r rs IH]; intros d; [done|]. cbn [db.CreateRelationships].
  pose proof (CreateRelationshipWith_entities
                (db.findExisting (db.relationships d) r) d r) as E.
  fold (db.CreateRelationship d r) in E.
  destruct (db.CreateRelationship d r) as [d1 [err|]]; [done|].
  rewrite IH. exact E.
Qed.

Lemma CreateRelationships_app (l1 l2 : list Relationship) (d : db.InMemoryDatabase) :
  db.CreateRelationships d (l1 ++ l2)
  = match db.CreateRelationships d l1 with
    | (d', Some err) => (d', Some err)
    | (d', None) => db.CreateRelationships d' l2
    end.
Proof.
  revert d. induction l1 as [|r l1 IH]; intros d; [done|].
  cbn [app db.CreateRelationships].
  destruct (db.CreateRelationship d r) as [d1 [err|]]; [done|]. apply IH.
Qed.

End Batches.

(** X7.  One entity for each id.  After [CreateEntities] on the empty
    store (it never fails), [GetEntityByID] finds an id exactly when the
    batch has an entity of that id, and answers "entity not found"
    otherwise; what it finds carries that id and the label of the last
    entity of the batch with that id; [GetAllEntities] lists what
    [GetEntityByID] finds, as many entities as the batch has distinct
    ids. *)
Theorem X7_one_entity_for_each_id (es : list Entity) :
  let d := (db.CreateEntities db.NewInMemoryDatabase es).1 in
  (db.CreateEntities db.NewInMemoryDatabase es).2 = None
  ∧ (∀ id, id ∈ ID <$> es →
       ∃ e, db.GetEntityByID d id = (Some e, None)
         ∧ ID e = id
         ∧ Label e = List.last (Label <$> filter (λ x, ID x = id) es) "")
  ∧ (∀ id, id ∉ ID <$> es → db.GetEntityByID d id = (None, Some "entity not found"))
  ∧ (∀ e, e ∈ db.GetAllEntities d ↔ ∃ id, db.GetEntityByID d id = (Some e, None))
  ∧ length (db.GetAllEntities d) = length (remove_dups (ID <$> es)).
Proof.
  intros d. split_and!.
  - by rewrite CreateEntities_fold.
  - intros id Hid. unfold db.GetEntityByID, d. rewrite CreateEntities_lookup.
    apply filter_ID_nonempty in Hid.
    destruct (filter (λ x, ID x = id) es) as [|first rest] eqn:E; [done|].
    eexists. split; [reflexivity|].
    assert (ID first = id) as Hfirst.
    { assert (first ∈ filter (λ x, ID x = id) es) as Hin by (rewrite E; left).
      by apply list_elem_of_filter in Hin as [? _]. }
    split.
    + by rewrite (proj1 (foldEntity_ID rest first)).
    + rewrite foldEntity_Label. rewrite fmap_cons.
      destruct rest as [|e rest]; [done|]. rewrite fmap_cons.
      symmetry. exact (last_nonempty (Label e) (Label <$> rest) _ (Label first)).
  - intros id Hid. unfold db.GetEntityByID, d. rewrite CreateEntities_lookup.
    destruct (filter (λ x, ID x = id) es) eqn:E; [done|].
    exfalso. apply Hid, filter_ID_nonempty. by rewrite E.
  - intros e. unfold db.GetAllEntities. rewrite storedEntities_elem.
    unfold db.GetEntityByID. split; intros [id H]; exists id.
    + by rewrite H.
    + destruct (db.entities d !! id); by inversion H.
  - unfold db.GetAllEntities. rewrite storedEntities_length. apply CreateEntities_size.
Qed.

(** X8.  [CreateRelationships] stops at the first relationship with a
    missing endpoint: the relationships before it are stored, it returns
    that relationship's error, and the relationships after it are not looked
    at.  ([StoreKnowledgeGraph] goes on instead.) *)
Theorem X8_batch_stops_at_first_failure (d : db.InMemoryDatabase)
    (before after : list Relationship) (bad : Relationship) :
  (db.CreateRelationships d before).2 = None →
  db.entities d !! Source bad = None ∨ db.entities d !! Target bad = None →
  ∃ err,
    db.CreateRelationships d (before ++ bad :: after)
    = ((db.CreateRelationships d before).1, Some err).
Proof.
  intros Hok Hbad. rewrite CreateRelationships_app.
  pose proof (CreateRelationships_entities before d) as He.
  destruct (db.CreateRelationships d before) as [d1 o]. cbn [fst snd] in *. subst o.
  rewrite <- He in Hbad.
  destruct (missing_endpoint_error d1 bad Hbad) as [err Herr].
  exists err. cbn [db.CreateRelationships].
  unfold db.CreateRelationship, db.CreateRelationshipWith. by rewrite Herr.
Qed.

Lemma X8_witness :
  ∃ err,
    db.CreateRelationships sampleStore brokenBatch
    = ((db.CreateRelationships sampleStore [exampleEdge "ab" "b" (1 # 2) ∅]).1, Some err).
Proof.
  apply (X8_batch_stops_at_first_failure sampleStore
           [exampleEdge "ab" "b" (1 # 2) ∅] [exampleEdge "ab2" "b" 1 ∅]
           (exampleEdge "ac" "c" 1 ∅)).
  - vm_compute. reflexivity.
  - right. vm_compute. reflexivity.
Defined.

Section StoreTwice.

Lemma accepted_entities (d d' : db.InMemoryDatabase) (rs : list Relationship) :
  db.entities d = db.entities d' → accepted d rs = accepted d' rs.
Proof.
  intros E. unfold accepted. induction rs as [|r rs IH]; [done|].
  rewrite !filter_cons, (checkEndpoints_entities d d' r E). by rewrite IH.
Qed.

Lemma refusals_entities (d d' : db.InMemoryDatabase) (rs : list Relationship) :
  db.entities d = db.entities d' → refusals d rs = refusals d' rs.
Proof.
  intros E. unfold refusals. induction rs as [|r rs IH]; [done|].
  cbn [omap list_omap]. rewrite (checkEndpoints_entities d d' r E). by rewrite IH.
Qed.

Lemma accepted_sublist (d : db.InMemoryDatabase) (rs : list Relationship)
    (r : Relationship) :
  r ∈ accepted d rs → r ∈ rs.
Proof. unfold accepted. intros H. by apply list_elem_of_filter in H as [_ ?]. Qed.

(** Under the invariant, the second loop of [StoreKnowledgeGraph] upserts
    the accepted relationships and logs the others. *)
Lemma storeRelationships_fold (U : list Relationship) (rs : list Relationship)
    (d : db.InMemoryDatabase) (n : nat) (w : list (string * string * string * string)) :
  idsFollowEdges U → within U (db.relationships d) → (∀ b, b ∈ rs → b ∈ U) →
  core.storeRelationships d rs n w
  = ({| db.entities := db.entities d;
        db.relationships :=
          fold_left (upsert RelID mergeRelationship) (accepted d rs) (db.relationships d) |},
     n + length (accepted d rs), w ++ refusals d rs).
Proof.
  intros HU. revert d n w. induction rs as [|b rs IH]; intros d n w HW Hrs.
  - cbn. rewrite Nat.add_0_r, app_nil_r. by destruct d.
  - cbn [core.storeRelationships].
    change (core.dbCreateRelationship d b) with (db.CreateRelationship d b).
    unfold db.CreateRelationship, db.CreateRelationshipWith.
    unfold accepted, refusals. rewrite filter_cons. cbn [omap list_omap].
    fold (accepted d rs) (refusals d rs).
    destruct (db.checkEndpoints d b) as [err|] eqn:Hc.
    + rewrite decide_False by done. cbn [fmap option_fmap option_map].
      rewrite IH; [|done|set_solver]. by rewrite <- app_assoc.
    + rewrite decide_True by done. cbn [fmap option_fmap option_map].
      rewrite (storeRelationship_upsert U d b _ HU HW);
        [|set_solver|apply findExisting_leaves].
      rewrite IH; [|apply within_upsert; [done|set_solver]|set_solver].
      cbn [db.entities db.relationships length fold_left].
      rewrite (accepted_entities _ d rs), (refusals_entities _ d rs) by done.
      do 2 f_equal. lia.
Qed.

Lemma StoreKnowledgeGraph_fold (d : db.InMemoryDatabase)
    (es : list Entity) (rs : list Relationship) :
  filedUnderID (db.relationships d) →
  idsFollowEdges (rs ++ storedRelationships (db.relationships d)) →
  let d1 := (db.CreateEntities d es).1 in
  core.StoreKnowledgeGraph d es rs
  = {| core.database :=
         {| db.entities := db.entities d1;
            db.relationships :=
              fold_left (upsert RelID mergeRelationship) (accepted d1 rs)
                (db.relationships d) |};
       core.returned := None;
       core.successfulRelationships := length (accepted d1 rs);
       core.warnings := refusals d1 rs |}.
Proof.
  intros HF HU d1.
  set (U := rs ++ storedRelationships (db.relationships d)) in *.
  assert (HW : within U (db.relationships d)) by by apply within_start.
  assert (Hrs : ∀ b, b ∈ rs → b ∈ U) by (intros b Hb; apply elem_of_app; by left).
  assert (E1 : db.relationships d1 = db.relationships d)
    by (unfold d1; by rewrite CreateEntities_fold).
  unfold core.StoreKnowledgeGraph. rewrite storeEntities_inmemory. fold d1.
  rewrite (storeRelationships_fold U rs d1 0 []); [by rewrite E1|done| |done].
  by rewrite E1.
Qed.

Lemma StoreKnowledgeGraph_twice (d : db.InMemoryDatabase)
    (es : list Entity) (rs : list Relationship) :
  filedUnderID (db.relationships d) →
  idsFollowEdges (rs ++ storedRelationships (db.relationships d)) →
  let once := core.StoreKnowledgeGraph d es rs in
  let twice := core.StoreKnowledgeGraph (core.database once) es rs in
  core.database twice = core.database once
  ∧ core.returned once = None ∧ core.returned twice = None
  ∧ core.successfulRelationships twice = core.successfulRelationships once
  ∧ core.warnings twice = core.warnings once
  ∧ core.successfulRelationships once = length (accepted (db.CreateEntities d es).1 rs).
Proof.
  intros HF HU once twice.
  set (U := rs ++ storedRelationships (db.relationships d)) in *.
  assert (HW : within U (db.relationships d)) by by apply within_start.
  assert (Hrs : ∀ b, b ∈ rs → b ∈ U) by (intros b Hb; apply elem_of_app; by left).
  set (d1 := (db.CreateEntities d es).1).
  assert (E1 : d1 = {| db.entities := fold_left (upsert ID mergeEntity) es (db.entities d);
                       db.relationships := db.relationships d |})
    by (unfold d1; by rewrite CreateEntities_fold).
  assert (HW1 : within U (db.relationships d1)) by by rewrite E1.
  set (d2 := {| db.entities := db.entities d1;
                db.relationships :=
                  fold_left (upsert RelID mergeRelationship) (accepted d1 rs)
                    (db.relationships d1) |}).
  assert (Eonce : once = {| core.database := d2; core.returned := None;
                            core.successfulRelationships := length (accepted d1 rs);
                            core.warnings := refusals d1 rs |}).
  { unfold once, core.StoreKnowledgeGraph. rewrite storeEntities_inmemory.
    fold d1. by rewrite (storeRelationships_fold U rs d1 0 [] HU HW1 Hrs). }
  assert (HW2 : within U (db.relationships d2)).
  { apply within_fold; [done|]. intros b Hb. apply Hrs. by eapply accepted_sublist. }
  assert (E3 : (db.CreateEntities d2 es).1 = d2).
  { rewrite CreateEntities_fold. unfold d2. cbn [fst db.entities db.relationships].
    f_equal. rewrite E1. cbn [db.entities]. apply fold_upsert_twice, entity_slot_twice. }
  assert (Etwice : twice = {| core.database := d2; core.returned := None;
                              core.successfulRelationships := length (accepted d1 rs);
                              core.warnings := refusals d1 rs |}).
  { unfold twice. rewrite Eonce. cbn [core.database].
    unfold core.StoreKnowledgeGraph. rewrite storeEntities_inmemory, E3.
    rewrite (storeRelationships_fold U rs d2 0 [] HU HW2 Hrs).
    rewrite (accepted_entities d2 d1 rs), (refusals_entities d2 d1 rs) by done.
    cbn [app Nat.add]. f_equal. unfold d2 at 2. cbn [db.relationships].
    unfold d2. f_equal. apply fold_upsert_twice, relationship_slot_twice. }
  rewrite Etwice, Eonce. by cbn.
Qed.

(** ** Derived relationship ids *)

Lemma hex_barFree (s : string) : barFree (hex s).
Proof.
  unfold barFree. induction s as [|c s IH]; [done|].
  cbn [hex filepath.containsByte]. rewrite IH.
  destruct c as [[] [] [] [] [] [] [] []]; reflexivity.
Qed.

Lemma hex_nonempty (s : string) : s ≠ "" → hex s ≠ "".
Proof. by destruct s. Qed.

Lemma barFree_append (s t : string) :
  barFree (s +:+ t) ↔ barFree s ∧ barFree t.
Proof.
  unfold barFree. induction s as [|c s IH]; [by rewrite append_nil_l; intuition|].
  rewrite append_cons. cbn [filepath.containsByte].
  rewrite !orb_false_iff, IH. tauto.
Qed.

(** Cutting at the first separator. *)
Lemma cut_first_bar (s s' t t' : string) :
  barFree s → barFree s' →
  s +:+ "|" +:+ t = s' +:+ "|" +:+ t' → s = s' ∧ t = t'.
Proof.
  unfold barFree. revert s'. induction s as [|c s IH]; intros [|c' s'] Hs Hs' E.
  - rewrite !append_nil_l in E. by injection E.
  - rewrite append_nil_l, append_cons in E. injection E as <- _.
    cbn in Hs'. discriminate Hs'.
  - rewrite append_nil_l, append_cons in E. injection E as -> _.
    cbn in Hs. discriminate Hs.
  - rewrite !append_cons in E. injection E as -> E.
    cbn [filepath.containsByte] in Hs, Hs'.
    apply orb_false_iff in Hs as [_ Hs]. apply orb_false_iff in Hs' as [_ Hs'].
    destruct (IH s' Hs Hs' E) as [-> ->]. done.
Qed.

(** Cutting at the last separator. *)
Lemma cut_last_bar (s s' t t' : string) :
  barFree t → barFree t' →
  s +:+ "|" +:+ t = s' +:+ "|" +:+ t' → s = s' ∧ t = t'.
Proof.
  intros Ht Ht'. revert s'. induction s as [|c s IH]; intros [|c' s'] E.
  - rewrite !append_nil_l in E. by injection E.
  - rewrite append_nil_l, !append_cons in E. injection E as <- E.
    exfalso. rewrite !append_nil_l in E. rewrite E in Ht.
    apply barFree_append in Ht as [_ Ht].
    unfold barFree in Ht. cbn in Ht. discriminate Ht.
  - rewrite append_nil_l, !append_cons in E. injection E as -> E.
    exfalso. rewrite !append_nil_l in E. rewrite <- E in Ht'.
    apply barFree_append in Ht' as [_ Ht'].
    unfold barFree in Ht'. cbn in Ht'. discriminate Ht'.
  - rewrite !append_cons in E. injection E as -> E.
    destruct (IH s' E) as [-> ->]. done.
Qed.

Lemma relationshipKey_inj (s g t s' g' t' : string) :
  barFree s → barFree g → barFree s' → barFree g' →
  graph.relationshipKey s g t = graph.relationshipKey s' g' t' →
  s = s' ∧ g = g' ∧ t = t'.
Proof.
  unfold graph.relationshipKey. intros Hs Hg Hs' Hg' E.
  apply cut_first_bar in E as [-> E]; [|done..].
  apply cut_last_bar in E as [-> ->]; done.
Qed.

Lemma built_idsFollowEdges (rs : list Relationship) :
  Forall built rs → idsFollowEdges rs.
Proof.
  intros H. rewrite Forall_forall in H. split.
  - apply Forall_forall. intros r Hr. destruct (H r Hr) as (-> & _ & _).
    apply hex_nonempty. unfold graph.relationshipKey. by destruct (Source r).
  - intros r1 r2 H1 H2.
    destruct (H r1 H1) as (E1 & Hs1 & Ht1), (H r2 H2) as (E2 & Hs2 & Ht2).
    rewrite E1, E2. unfold edgeOf, graph.generateDeterministicRelationshipID. split.
    + intros E. apply hex_inj, relationshipKey_inj in E as (-> & -> & ->); done.
    + by intros [= -> -> ->].
Qed.

End StoreTwice.

(** X9.  Storing a batch again changes nothing.  From a store in which
    every relationship is filed under its own id, and for a batch such that
    the relationship ids of batch and store follow the edges,
    [StoreKnowledgeGraph] run a second time on the same batch returns no
    error, leaves the store exactly as the first run left it, counts the same
    relationships as stored (those whose endpoints the store holds) and logs
    the same warnings. *)
Theorem X9_storing_again_changes_nothing (d : db.InMemoryDatabase)
    (es : list Entity) (rs : list Relationship) :
  filedUnderID (db.relationships d) →
  idsFollowEdges (rs ++ storedRelationships (db.relationships d)) →
  let once := core.StoreKnowledgeGraph d es rs in
  let twice := core.StoreKnowledgeGraph (core.database once) es rs in
  core.database twice = core.database once
  ∧ core.returned once = None ∧ core.returned twice = None
  ∧ core.successfulRelationships twice = core.successfulRelationships once
  ∧ core.warnings twice = core.warnings once
  ∧ core.successfulRelationships once = length (accepted (db.CreateEntities d es).1 rs).
Proof. apply StoreKnowledgeGraph_twice. Qed.

Lemma X9_witness :
  core.database (core.StoreKnowledgeGraph (core.database sampleStored) sampleEntities sampleBatch)
  = core.database sampleStored
  ∧ core.returned sampleStored = None
  ∧ core.returned (core.StoreKnowledgeGraph (core.database sampleStored)
                     sampleEntities sampleBatch) = None
  ∧ core.successfulRelationships
      (core.StoreKnowledgeGraph (core.database sampleStored) sampleEntities sampleBatch)
    = core.successfulRelationships sampleStored
  ∧ core.warnings
      (core.StoreKnowledgeGraph (core.database sampleStored) sampleEntities sampleBatch)
    = core.warnings sampleStored
  ∧ core.successfulRelationships sampleStored
    = length (accepted (db.CreateEntities db.NewInMemoryDatabase sampleEntities).1
                sampleBatch).
Proof.
  apply (X9_storing_again_changes_nothing db.NewInMemoryDatabase sampleEntities sampleBatch).
  - intros k r H. cbn in H. by rewrite lookup_empty in H.
  - apply built_idsFollowEdges. unfold storedRelationships.
    cbn [db.relationships db.NewInMemoryDatabase].
    rewrite map_to_list_empty, app_nil_r.
    repeat constructor; apply hex_barFree.
Defined.

(** X10.  Derived ids follow the edges.  The id [graph.CreateEntity] gives
    an entity is never empty and holds no separator; a relationship that
    [graph.CreateRelationship] builds between two ids without a separator,
    entity ids for one, has a non-empty id; and among such relationships two
    have the same id exactly when they have the same source, target and
    type. *)
Theorem X10_derived_ids_follow_edges :
  (∀ label entityType properties,
     ID (graph.CreateEntity label entityType properties) ≠ ""
     ∧ barFree (ID (graph.CreateEntity label entityType properties)))
  ∧ (∀ source target relType properties,
       barFree source → barFree target →
       built (graph.CreateRelationship source target relType properties))
  ∧ (∀ rs, Forall built rs → idsFollowEdges rs).
Proof.
  split_and!.
  - intros label entityType properties. split; [|apply hex_barFree].
    cbn [graph.CreateEntity ID]. apply hex_nonempty.
    unfold graph.entityKey, graph.keyParts.
    cbn [app]. rewrite Join_cons.
    destruct (ToLower entityType); [|done].
    rewrite append_nil_l.
    by destruct (_ ++ _).
  - intros source target relType properties Hs Ht. by split_and!.
  - apply built_idsFollowEdges.
Qed.

(* ===================================================================== *)
(** * The analyzer registry *)
(* ===================================================================== *)

Section Registry.

Context (X : core.Extractors).

Lemma register_fold (a : core.LanguageAnalyzer) (langs : list string)
    (m : gmap string core.LanguageAnalyzer) (lang : string) :
  fold_left (λ acc l, <[l := a]> acc) langs m !! lang
  = if decide (lang ∈ langs) then Some a else m !! lang.
Proof.
  revert m. induction langs as [|l langs IH]; intros m.
  - cbn. rewrite decide_False; [done|apply not_elem_of_nil].
  - cbn [fold_left]. rewrite IH.
    destruct (decide (lang ∈ langs)) as [Hin|Hnin].
    + rewrite decide_True; [done|by right].
    + destruct (decide (lang = l)) as [->|Hne].
      * rewrite lookup_insert_eq. rewrite decide_True; [done|left].
      * rewrite lookup_insert_ne by done. rewrite decide_False; [done|].
        intros [?|?]%elem_of_cons; done.
Qed.

Lemma RegisterAnalyzer_lookup (m : gmap string core.LanguageAnalyzer)
    (a : core.LanguageAnalyzer) (lang : string) :
  core.RegisterAnalyzer m a !! lang
  = if decide (lang ∈ core.SupportedLanguages a) then Some a else m !! lang.
Proof. apply register_fold. Qed.

Lemma if_elem_of_one {A : Type} (k x : string) (a b : A) :
  (if decide (k ∈ [x]) then a else b) = (if decide (k = x) then a else b).
Proof.
  destruct (decide (k = x)) as [->|H].
  - rewrite decide_True; [done|left].
  - rewrite decide_False; [done|]. by intros ?%list_elem_of_singleton.
Qed.

Lemma if_elem_of_two {A : Type} (k x y : string) (a b : A) :
  (if decide (k ∈ [x; y]) then a else b) = (if decide (k = x ∨ k = y) then a else b).
Proof.
  destruct (decide (k = x ∨ k = y)) as [H|H].
  - rewrite decide_True; [done|]. destruct H as [-> | ->]; [left|right; left].
  - rewrite decide_False; [done|].
    intros Hk. apply elem_of_cons in Hk as [Hk|Hk]; [tauto|].
    apply list_elem_of_singleton in Hk. tauto.
Qed.

Lemma NewAnalyzerRegistry_lookup (lang : string) :
  core.NewAnalyzerRegistry X !! lang
  = if decide (lang = "unknown") then Some core.GenericAnalyzer
    else if decide (lang = "json") then Some (core.JSONAnalyzer X)
    else if decide (lang = "java") then Some (core.JavaAnalyzer X)
    else if decide (lang = "python") then Some (core.PythonAnalyzer X)
    else if decide (lang = "typescript" ∨ lang = "javascript")
         then Some (core.TypeScriptAnalyzer X)
    else if decide (lang = "go") then Some (core.GoAnalyzer X)
    else None.
Proof.
  unfold core.NewAnalyzerRegistry. cbn [fold_left].
  rewrite !RegisterAnalyzer_lookup, lookup_empty.
  cbn [core.SupportedLanguages core.GenericAnalyzer core.JSONAnalyzer core.JavaAnalyzer
       core.PythonAnalyzer core.TypeScriptAnalyzer core.GoAnalyzer].
  by rewrite !if_elem_of_one, if_elem_of_two.
Qed.

Lemma GetAnalyzer_generic (lang : string) :
  lang ∉ dedicatedLanguages →
  core.GetAnalyzer (core.NewAnalyzerRegistry X) lang = core.GenericAnalyzer.
Proof.
  intros H. unfold dedicatedLanguages in H. rewrite !not_elem_of_cons in H.
  destruct H as (H1 & H2 & H3 & H4 & H5 & H6 & _).
  unfold core.GetAnalyzer. rewrite NewAnalyzerRegistry_lookup.
  repeat case_decide; try done; tauto.
Qed.

End Registry.

Lemma analyzeFile_onEmptyFiles (file : core.CodeFile) :
  core.analyzeFile (core.NewCodeProcessor core.onEmptyFiles) file
  = ([core.createFileEntity file], [], None).
Proof.
  unfold core.analyzeFile, core.GetAnalyzer.
  cbn [core.analyzerRegistry core.NewCodeProcessor].
  rewrite NewAnalyzerRegistry_lookup. by repeat case_decide.
Qed.

(** X13.  A language without an analyzer of its own is analyzed by the
    generic analyzer.  For every file whose language is none of go,
    typescript, javascript, python, java and json, [analyzeFile] returns
    the file entity alone, no relationship and no error, whatever the file
    holds.  Fourteen of the supported extensions lead there: those of C,
    C++, C#, Rust, Ruby, PHP, YAML, XML, Markdown, SQL and plain text. *)
Theorem X13_languages_without_analyzer (X : core.Extractors) (file : core.CodeFile) :
  core.Language file ∉ dedicatedLanguages →
  let cp := core.NewCodeProcessor X in
  core.GetAnalyzer (core.analyzerRegistry cp) (core.Language file) = core.GenericAnalyzer
  ∧ core.analyzeFile cp file = ([core.createFileEntity file], [], None)
  ∧ Forall (λ ext, core.isSupported cp ext = true
                   ∧ core.languageOf cp ext ∉ dedicatedLanguages) genericExtensions.
Proof.
  intros H cp.
  assert (E : core.GetAnalyzer (core.analyzerRegistry cp) (core.Language file)
              = core.GenericAnalyzer) by by apply GetAnalyzer_generic.
  split_and!.
  - exact E.
  - unfold core.analyzeFile. by rewrite E.
  - unfold genericExtensions, dedicatedLanguages.
    repeat constructor; try (vm_compute; reflexivity);
      rewrite !not_elem_of_cons; split_and!;
      try (intros E'; vm_compute in E'; discriminate E'); apply not_elem_of_nil.
Qed.

Lemma X13_witness :
  core.GetAnalyzer (core.analyzerRegistry (core.NewCodeProcessor core.onEmptyFiles)) "rust"
  = core.GenericAnalyzer
  ∧ core.analyzeFile (core.NewCodeProcessor core.onEmptyFiles) rustFile
    = ([core.createFileEntity rustFile], [], None)
  ∧ Forall (λ ext, core.isSupported (core.NewCodeProcessor core.onEmptyFiles) ext = true
                   ∧ core.languageOf (core.NewCodeProcessor core.onEmptyFiles) ext
                     ∉ dedicatedLanguages) genericExtensions.
Proof.
  apply (X13_languages_without_analyzer core.onEmptyFiles rustFile).
  unfold dedicatedLanguages. rewrite !not_elem_of_cons.
  split_and!; try (intros E; vm_compute in E; discriminate E). apply not_elem_of_nil.
Defined.

(** X14.  Registering and looking up.  After [RegisterAnalyzer],
    [GetAnalyzer] returns the registered analyzer for each of its languages,
    a later registration replacing an earlier one, and answers every other
    language as before.  In the registry that [NewAnalyzerRegistry] builds,
    typescript and javascript both lead to the TypeScript analyzer, and
    [GetAnalyzer] never fails: a language nobody registered gets the generic
    analyzer. *)
Theorem X14_register_then_get (X : core.Extractors)
    (m : gmap string core.LanguageAnalyzer) (a : core.LanguageAnalyzer) (lang : string) :
  core.GetAnalyzer (core.RegisterAnalyzer m a) lang
  = (if decide (lang ∈ core.SupportedLanguages a) then a else core.GetAnalyzer m lang)
  ∧ core.GetAnalyzer (core.NewAnalyzerRegistry X) "typescript" = core.TypeScriptAnalyzer X
  ∧ core.GetAnalyzer (core.NewAnalyzerRegistry X) "javascript" = core.TypeScriptAnalyzer X
  ∧ core.GetAnalyzer (core.NewAnalyzerRegistry X) "go" = core.GoAnalyzer X
  ∧ (m !! lang = None → core.GetAnalyzer m lang = core.GenericAnalyzer).
Proof.
  split_and!.
  - unfold core.GetAnalyzer. rewrite RegisterAnalyzer_lookup. by case_decide.
  - unfold core.GetAnalyzer. by rewrite NewAnalyzerRegistry_lookup.
  - unfold core.GetAnalyzer. by rewrite NewAnalyzerRegistry_lookup.
  - unfold core.GetAnalyzer. by rewrite NewAnalyzerRegistry_lookup.
  - intros H. unfold core.GetAnalyzer. by rewrite H.
Qed.

(* ===================================================================== *)
(** * The edges [AnalyzeCodebase] adds, and storing its batch *)
(* ===================================================================== *)

Section Orchestrator.

Context (X : core.Extractors).

Let cp := core.NewCodeProcessor X.

Lemma lastThat_Some (test : Entity → bool) (l : list Entity) (e : Entity) :
  core.lastThat test l = Some e → e ∈ l ∧ test e = true.
Proof.
  induction l as [|x l IH]; [done|]. rewrite lastThat_cons.
  destruct (core.lastThat test l) as [e'|].
  - intros [= ->]. destruct (IH eq_refl) as [? ?]. split; [by right|done].
  - destruct (test x) eqn:Hx; [|done]. intros [= <-]. split; [left|done].
Qed.

Lemma hasPath_true (e : Entity) (p : string) :
  core.hasPath e p = true ↔ Properties e !! "path" = Some (VString p).
Proof.
  unfold core.hasPath. destruct (Properties e !! "path") as [[|s| |]|]; try by split.
  rewrite String.eqb_eq. split; [by intros ->|by intros [= ->]].
Qed.

Lemma createFileDirectoryRelationships_spec (file : core.CodeFile)
    (es : list Entity) (r : Relationship) :
  r ∈ core.createFileDirectoryRelationships file es → containsEdge file es r.
Proof.
  unfold core.createFileDirectoryRelationships.
  destruct (core.lastThat _ es) as [dirEntity|] eqn:Hd; [|by intros ?%elem_of_nil].
  destruct (core.lastThat _ es) as [fileEntity|] eqn:Hf in |- *;
    [|by intros ?%elem_of_nil].
  intros ->%list_elem_of_singleton.
  apply lastThat_Some in Hd as [Hd1 Hd2], Hf as [Hf1 Hf2].
  apply andb_true_iff in Hd2 as [Hd2 Hd3], Hf2 as [Hf2 Hf3].
  apply String.eqb_eq in Hd2, Hf2. apply hasPath_true in Hd3, Hf3.
  by exists dirEntity, fileEntity.
Qed.

Lemma createFileDirectoryRelationships_length (file : core.CodeFile) (es : list Entity) :
  (length (core.createFileDirectoryRelationships file es) ≤ 1)%nat.
Proof.
  unfold core.createFileDirectoryRelationships.
  destruct (core.lastThat _ es); [|cbn; lia].
  destruct (core.lastThat _ es); cbn; lia.
Qed.

Lemma createImportRelationships_spec (es : list Entity) (r : Relationship) :
  r ∈ core.createImportRelationships es → referencesEdge es r.
Proof.
  unfold core.createImportRelationships. intros H.
  apply list_elem_of_In, in_flat_map in H as (i & Hi & H).
  apply list_elem_of_In, list_elem_of_filter in Hi as [Hty Hi].
  destruct (Properties i !! "source") as [[|source| |]|] eqn:Hs;
    try by apply in_nil in H.
  destruct (List.find _ _) as [m|] eqn:Hfind; [|by apply in_nil in H].
  destruct H as [<-|[]].
  apply find_some in Hfind as [Hm Htest].
  apply list_elem_of_In, list_elem_of_filter in Hm as [Hmty Hm].
  apply andb_true_iff in Htest as [Hlabel Hpath].
  destruct (Properties m !! "path") as [[|path| |]|] eqn:Hp; try done.
  by exists i, m, source, path.
Qed.

Lemma containsEdge_mono (file : core.CodeFile) (es es' : list Entity) (r : Relationship) :
  (∀ e, e ∈ es → e ∈ es') → containsEdge file es r → containsEdge file es' r.
Proof.
  intros Hsub (dirEntity & fileEntity & H1 & H2 & H). exists dirEntity, fileEntity.
  split_and!; try tauto; auto.
Qed.

(** What the per-file loop adds: the output of the analyzers that
    succeed, and one [contains] edge at most per file. *)
Lemma processFiles_spec (files : list core.CodeFile) (es0 : list Entity)
    (rs0 : list Relationship) :
  let out := core.processFiles cp files es0 rs0 in
  (∀ e, e ∈ es0 → e ∈ out.1)
  ∧ (∀ file es rs, file ∈ files → core.analyzeFile cp file = (es, rs, None) →
       ∀ e, e ∈ es → e ∈ out.1)
  ∧ (∀ r, r ∈ out.2 →
       r ∈ rs0
       ∨ (∃ file es rs, file ∈ files ∧ core.analyzeFile cp file = (es, rs, None)
            ∧ r ∈ rs)
       ∨ ∃ file, file ∈ files ∧ containsEdge file out.1 r).
Proof.
  revert es0 rs0. induction files as [|file files IH]; intros es0 rs0 out.
  - split_and!; [done| |by left]. intros file es rs Hf. by apply elem_of_nil in Hf.
  - unfold out. cbn [core.processFiles].
    destruct (core.analyzeFile cp file) as [[es rs] [err|]] eqn:Ha.
    + destruct (IH es0 rs0) as (H1 & H2 & H3). split_and!.
      * done.
      * intros f es' rs' Hf Hf'. apply elem_of_cons in Hf as [->|Hf].
        -- rewrite Ha in Hf'. discriminate Hf'.
        -- by apply (H2 f es' rs').
      * intros r Hr. destruct (H3 r Hr) as [H|[(f & es' & rs' & Hf & Hf' & H)|(f & Hf & H)]].
        -- by left.
        -- right. left. exists f, es', rs'. split_and!; [by right|done..].
        -- right. right. exists f. split; [by right|done].
    + set (es1 := es0 ++ es).
      set (rs1 := (rs0 ++ rs) ++ core.createFileDirectoryRelationships file es1).
      destruct (IH es1 rs1) as (H1 & H2 & H3). split_and!.
      * intros e He. apply H1, elem_of_app. by left.
      * intros f es' rs' Hf Hf'. apply elem_of_cons in Hf as [->|Hf].
        -- rewrite Ha in Hf'. injection Hf' as <- <-.
           intros e He. apply H1, elem_of_app. by right.
        -- by apply (H2 f es' rs').
      * intros r Hr. destruct (H3 r Hr) as [H|[(f & es' & rs' & Hf & Hf' & H)|(f & Hf & H)]].
        -- unfold rs1 in H. rewrite !elem_of_app in H. destruct H as [[H|H]|H].
           ++ by left.
           ++ right. left. exists file, es, rs. split_and!; [left|done..].
           ++ right. right. exists file. split; [left|].
              apply createFileDirectoryRelationships_spec in H.
              by apply (containsEdge_mono file es1).
        -- right. left. exists f, es', rs'. split_and!; [by right|done..].
        -- right. right. exists f. split; [by right|done].
Qed.

Lemma AnalyzeCodebase_unfold (rootPath : string) (node : core.FsNode) :
  core.AnalyzeCodebase cp rootPath (Some node)
  = let files := (core.scanDirectory cp rootPath (Some node)).1 in
    let out :=
      core.processFiles cp files
        ((λ dir, core.createDirectoryEntity dir rootPath)
           <$> core.extractDirectories files) [] in
    (out.1, out.2 ++ core.createImportRelationships out.1, None).
Proof.
  unfold core.AnalyzeCodebase.
  change (core.scanDirectory cp rootPath (Some node))
    with ((core.scanDirectory cp rootPath (Some node)).1, @None string).
  cbn iota beta zeta. by destruct (core.processFiles cp _ _ _).
Qed.

Lemma AnalyzeCodebase_edges (rootPath : string) (node : core.FsNode) :
  let batch := core.AnalyzeCodebase cp rootPath (Some node) in
  let files := (core.scanDirectory cp rootPath (Some node)).1 in
  batch.2 = None
  ∧ (∀ file es rs, file ∈ files → core.analyzeFile cp file = (es, rs, None) →
       ∀ e, e ∈ es → e ∈ batch.1.1)
  ∧ Forall
      (λ r,
         (∃ file es rs, file ∈ files ∧ core.analyzeFile cp file = (es, rs, None)
            ∧ r ∈ rs)
         ∨ (∃ file, file ∈ files ∧ containsEdge file batch.1.1 r)
         ∨ referencesEdge batch.1.1 r)
      batch.1.2.
Proof.
  intros batch files.
  pose proof (AnalyzeCodebase_unfold rootPath node) as E.
  cbn zeta in E. fold files in E.
  unfold batch. rewrite E. clear E. cbn [fst snd].
  destruct (processFiles_spec files
              ((λ dir, core.createDirectoryEntity dir rootPath)
                 <$> core.extractDirectories files) []) as (H1 & H2 & H3).
  cbn zeta in H1, H2, H3.
  split_and!; [done|exact H2|].
  apply Forall_forall. intros r Hr. apply elem_of_app in Hr as [Hr|Hr].
  - destruct (H3 r Hr) as [H|[H|H]]; [by apply elem_of_nil in H|by left|by right; left].
  - right. right. by apply createImportRelationships_spec.
Qed.

Lemma processFiles_entities_inv (files : list core.CodeFile) (es0 : list Entity)
    (rs0 : list Relationship) (e : Entity) :
  e ∈ (core.processFiles cp files es0 rs0).1 →
  e ∈ es0
  ∨ ∃ file es rs, file ∈ files ∧ core.analyzeFile cp file = (es, rs, None) ∧ e ∈ es.
Proof.
  revert es0 rs0. induction files as [|file files IH]; intros es0 rs0 H; [by left|].
  cbn [core.processFiles] in H.
  destruct (core.analyzeFile cp file) as [[es rs] [err|]] eqn:Ha.
  - apply IH in H as [H|(f & es' & rs' & Hf & Hf' & H)]; [by left|].
    right. exists f, es', rs'. split_and!; [by right|done..].
  - apply IH in H as [H|(f & es' & rs' & Hf & Hf' & H)].
    + apply elem_of_app in H as [H|H]; [by left|].
      right. exists file, es, rs. split_and!; [left|done..].
    + right. exists f, es', rs'. split_and!; [by right|done..].
Qed.

Lemma batch_ids_barFree (rootPath : string) (node : core.FsNode) :
  closedAnalyzers X →
  ∀ e, e ∈ (core.AnalyzeCodebase cp rootPath (Some node)).1.1 → barFree (ID e).
Proof.
  intros HX e. rewrite AnalyzeCodebase_unfold. cbn zeta. cbn [fst snd]. intros He.
  apply processFiles_entities_inv in He as [He|(f & es & rs & _ & Hf & He)].
  - apply list_elem_of_fmap in He as (dir & -> & _). apply hex_barFree.
  - destruct (HX f es rs Hf) as [Hes _]. rewrite Forall_forall in Hes. by apply Hes.
Qed.

Lemma batch_built (rootPath : string) (node : core.FsNode) :
  closedAnalyzers X →
  let batch := core.AnalyzeCodebase cp rootPath (Some node) in
  ∀ r, r ∈ batch.1.2 →
    built r ∧ Source r ∈ ID <$> batch.1.1 ∧ Target r ∈ ID <$> batch.1.1.
Proof.
  intros HX batch r Hr.
  pose proof (batch_ids_barFree rootPath node HX) as Hbar. fold batch in Hbar.
  destruct (AnalyzeCodebase_edges rootPath node) as (_ & Hsub & Hall).
  fold batch in Hsub, Hall. rewrite Forall_forall in Hall.
  destruct (Hall r Hr) as [(f & es & rs & Hf & Ha & Hin)|[(f & Hf & H)|H]].
  - destruct (HX f es rs Ha) as [_ Hrs]. rewrite Forall_forall in Hrs.
    destruct (Hrs r Hin) as (Hb & Hs & Ht). split; [done|].
    apply list_elem_of_fmap in Hs as (a & -> & Ha'), Ht as (b & -> & Hb').
    split; apply list_elem_of_fmap; eexists; (split; [reflexivity|]);
      by apply (Hsub f es rs).
  - destruct H as (a & b & Ha & Hb & _ & _ & _ & _ & ->).
    split.
    + unfold built. cbn [graph.CreateRelationship RelID Source Target RelType].
      split_and!; [done|by apply Hbar..].
    + split; apply list_elem_of_fmap; by eexists.
  - destruct H as (a & b & source & path & Ha & Hb & _ & _ & _ & _ & _ & _ & ->).
    split.
    + unfold built. cbn [graph.CreateRelationship RelID Source Target RelType].
      split_and!; [done|by apply Hbar..].
    + split; apply list_elem_of_fmap; by eexists.
Qed.

Lemma accepted_all (es : list Entity) (rs : list Relationship) :
  (∀ r, r ∈ rs → Source r ∈ ID <$> es ∧ Target r ∈ ID <$> es) →
  accepted (db.CreateEntities db.NewInMemoryDatabase es).1 rs = rs
  ∧ refusals (db.CreateEntities db.NewInMemoryDatabase es).1 rs = [].
Proof.
  set (d1 := (db.CreateEntities db.NewInMemoryDatabase es).1).
  assert (Hstored : ∀ id, id ∈ ID <$> es → is_Some (db.entities d1 !! id)).
  { intros id Hid. unfold d1. rewrite CreateEntities_lookup.
    apply filter_ID_nonempty in Hid. destruct (filter _ es); [done|eauto]. }
  intros H. unfold accepted, refusals. induction rs as [|r rs IH]; [done|].
  assert (db.checkEndpoints d1 r = None) as Hc.
  { apply checkEndpoints_None. destruct (H r) as [? ?]; [left|]. split; by apply Hstored. }
  rewrite filter_cons, decide_True by done. cbn [omap list_omap]. rewrite Hc.
  cbn [fmap option_fmap option_map].
  destruct IH as [-> ->]; [|done]. intros r' Hr'. apply H. by right.
Qed.

End Orchestrator.


(** X12.  A batch of [AnalyzeCodebase] is stored whole, and storing it
    again changes nothing.  Given analyzers whose output is closed (entity
    ids without a separator, relationships built by
    [graph.CreateRelationship] between entities they return), the
    relationship ids of the batch follow its edges; [StoreKnowledgeGraph]
    on the empty store returns no error, logs no warning and counts every
    relationship of the batch as stored: the orchestrator never adds an edge
    to an entity that is not in the batch; and a second run on the same
    batch leaves the store as the first run left it. *)
Theorem X12_batch_is_stored_whole (X : core.Extractors) (rootPath : string)
    (node : core.FsNode) :
  closedAnalyzers X →
  let batch := core.AnalyzeCodebase (core.NewCodeProcessor X) rootPath (Some node) in
  let once := core.StoreKnowledgeGraph db.NewInMemoryDatabase batch.1.1 batch.1.2 in
  let twice := core.StoreKnowledgeGraph (core.database once) batch.1.1 batch.1.2 in
  idsFollowEdges batch.1.2
  ∧ core.returned once = None
  ∧ core.warnings once = []
  ∧ core.successfulRelationships once = length batch.1.2
  ∧ core.database twice = core.database once
  ∧ core.warnings twice = [].
Proof.
  intros HX batch once twice.
  pose proof (batch_built X rootPath node HX) as Hb. cbn zeta in Hb. fold batch in Hb.
  assert (HU : idsFollowEdges batch.1.2).
  { apply built_idsFollowEdges, Forall_forall. intros r Hr. by apply Hb. }
  assert (HF : filedUnderID (db.relationships db.NewInMemoryDatabase)).
  { intros k r H. cbn in H. by rewrite lookup_empty in H. }
  assert (HU' : idsFollowEdges
                  (batch.1.2 ++ storedRelationships
                                  (db.relationships db.NewInMemoryDatabase))).
  { unfold storedRelationships. cbn [db.relationships db.NewInMemoryDatabase].
    by rewrite map_to_list_empty, app_nil_r. }
  destruct (accepted_all batch.1.1 batch.1.2) as [Ea Er].
  { intros r Hr. by apply Hb. }
  pose proof (StoreKnowledgeGraph_fold db.NewInMemoryDatabase batch.1.1 batch.1.2 HF HU')
    as Eonce.
  cbn zeta in Eonce. fold once in Eonce. rewrite Ea, Er in Eonce.
  destruct (StoreKnowledgeGraph_twice db.NewInMemoryDatabase batch.1.1 batch.1.2 HF HU')
    as (Hd & _ & _ & _ & Hw & _).
  fold once in Hd, Hw. fold twice in Hd, Hw.
  split_and!; [done|by rewrite Eonce..|done|].
  rewrite Hw. by rewrite Eonce.
Qed.

Lemma X12_witness :
  idsFollowEdges scaffoldBatch.1.2
  ∧ core.returned scaffoldStored = None
  ∧ core.warnings scaffoldStored = []
  ∧ core.successfulRelationships scaffoldStored = length scaffoldBatch.1.2
  ∧ core.database
      (core.StoreKnowledgeGraph (core.database scaffoldStored)
         scaffoldBatch.1.1 scaffoldBatch.1.2)
    = core.database scaffoldStored
  ∧ core.warnings
      (core.StoreKnowledgeGraph (core.database scaffoldStored)
         scaffoldBatch.1.1 scaffoldBatch.1.2)
    = [].
Proof.
  apply (X12_batch_is_stored_whole core.onEmptyFiles "a" (scaffoldTree "" "")).
  intros file es rs. rewrite analyzeFile_onEmptyFiles. intros [= <- <-].
  split; repeat constructor. apply hex_barFree.
Defined.

(* ===================================================================== *)
(** * File and directory entities *)
(* ===================================================================== *)

Section FileEntities.

Lemma createFileEntity_ID (file : core.CodeFile) :
  ID (core.createFileEntity file)
  = hex ("file|" +:+ ToLower (core.Name file) +:+ "|" +:+ ToLower (core.Path file)).
Proof.
  unfold core.createFileEntity, graph.CreateEntity. cbn [ID default].
  unfold graph.generateDeterministicID, graph.entityKey, graph.keyParts,
    graph.pathParts, graph.sourceParts, graph.namespaceParts, graph.packageParts, id.
  repeat (rewrite lookup_insert_eq || (rewrite lookup_insert_ne by done)
          || rewrite lookup_empty).
  reflexivity.
Qed.

Lemma createDirectoryEntity_ID (dirPath rootPath : string) :
  ID (core.createDirectoryEntity dirPath rootPath)
  = hex ("directory|"
         +:+ ToLower (let baseName := filepath.Base dirPath in
                      if String.eqb baseName "." || String.eqb baseName ""
                      then "root" else baseName)
         +:+ "|" +:+ ToLower dirPath).
Proof.
  unfold core.createDirectoryEntity, graph.CreateEntity. cbn [ID default].
  unfold graph.generateDeterministicID, graph.entityKey, graph.keyParts,
    graph.pathParts, graph.sourceParts, graph.namespaceParts, graph.packageParts, id.
  repeat (rewrite lookup_insert_eq || (rewrite lookup_insert_ne by done)
          || rewrite lookup_empty).
  reflexivity.
Qed.

(** ** The directory chain *)

Lemma parentChain_elem (n : nat) (x d : string) :
  d ∈ core.parentChain n x → core.isTop d = false ∧ ∃ k, d = ancestor k x.
Proof.
  revert x. induction n as [|n IH]; intros x H.
  - cbn in H. destruct (core.isTop x); by apply elem_of_nil in H.
  - cbn [core.parentChain] in H. destruct (core.isTop x) eqn:Hx.
    + by apply elem_of_nil in H.
    + apply elem_of_cons in H as [->|H].
      * split; [done|]. by exists 0.
      * destruct (IH _ H) as [Hd [k ->]]. split; [done|].
        exists (S k). unfold ancestor. by rewrite Nat.iter_succ_r.
Qed.

Lemma parentChain_head (n : nat) (x : string) :
  core.isTop x = false → x ∈ core.parentChain (S n) x.
Proof. intros H. cbn [core.parentChain]. rewrite H. left. Qed.

Lemma notTop_nonempty (x : string) : core.isTop x = false → (1 ≤ String.length x)%nat.
Proof. destruct x; [done|]. simpl. lia. Qed.

Lemma parentChain_closed (n : nat) (x d : string) :
  (String.length x ≤ n)%nat →
  d ∈ core.parentChain n x → core.isTop (filepath.Dir d) = false →
  filepath.Dir d ∈ core.parentChain n x.
Proof.
  revert x. induction n as [|n IH]; intros x Hlen H Hd.
  - cbn in H. destruct (core.isTop x); by apply elem_of_nil in H.
  - cbn [core.parentChain] in H |- *. destruct (core.isTop x) eqn:Hx.
    { by apply elem_of_nil in H. }
    right. apply elem_of_cons in H as [->|H].
    + destruct (Dir_shorter x) as [Htop|Hshort]; [by rewrite Htop in Hd|].
      pose proof (notTop_nonempty _ Hd).
      destruct n as [|n]; [lia|]. by apply parentChain_head.
    + destruct (Dir_shorter x) as [Htop|Hshort].
      * destruct n; cbn [core.parentChain] in H; rewrite Htop in H;
          by apply elem_of_nil in H.
      * apply IH; [lia|done..].
Qed.

Lemma directorySet_elem (files : list core.CodeFile) (d : string) :
  d ∈ core.extractDirectories files
  ↔ ∃ file, file ∈ files
      ∧ d ∈ core.parentChain (String.length (core.Path file))
              (filepath.Dir (core.Path file)).
Proof.
  unfold core.extractDirectories, core.directorySet.
  rewrite elem_of_elements, elem_of_list_to_set, list_elem_of_In, in_flat_map.
  split; intros (file & Hf & Hd); exists file; by rewrite ?list_elem_of_In in *.
Qed.

End FileEntities.

(** X15.  The identity of a file entity is its name and its path.  Two
    files with the same name and path get the same id from
    [createFileEntity] whatever their content, size and modification time,
    so storing the entity of an edited file updates the stored record in
    place: the number of stored entities stays, and the record under that id
    carries the new values of all six properties.  The id of a directory
    entity does not depend on the walk root. *)
Theorem X15_file_identity_is_stable (d : db.InMemoryDatabase)
    (file file' : core.CodeFile) :
  core.Path file = core.Path file' → core.Name file = core.Name file' →
  let e := core.createFileEntity file in
  let e' := core.createFileEntity file' in
  let d1 := (db.CreateEntity d e).1 in
  let d2 := (db.CreateEntity d1 e').1 in
  ID e' = ID e
  ∧ size (db.entities d2) = size (db.entities d1)
  ∧ (∃ stored,
       db.entities d2 !! ID e = Some stored
       ∧ Label stored = core.Name file'
       ∧ ∀ k v, Properties e' !! k = Some v → Properties stored !! k = Some v)
  ∧ ∀ dirPath rootPath rootPath',
      ID (core.createDirectoryEntity dirPath rootPath)
      = ID (core.createDirectoryEntity dirPath rootPath').
Proof.
  intros HP HN e e' d1 d2.
  assert (E : ID e' = ID e).
  { unfold e, e'. rewrite !createFileEntity_ID. by rewrite HP, HN. }
  assert (H1 : is_Some (db.entities d1 !! ID e)).
  { unfold d1. rewrite CreateEntity_upsert. cbn [fst db.entities].
    rewrite upsert_lookup, decide_True by done. unfold slot. eauto. }
  destruct H1 as [old Hold].
  split_and!.
  - exact E.
  - unfold d2. rewrite CreateEntity_upsert. cbn [fst db.entities].
    unfold upsert. rewrite E. apply map_size_insert_Some. eauto.
  - unfold d2. rewrite CreateEntity_upsert. cbn [fst db.entities].
    rewrite upsert_lookup, E, decide_True by done. rewrite Hold. unfold slot.
    eexists. split; [reflexivity|]. split; [done|].
    intros k v Hk. cbn [mergeEntity Properties]. rewrite mergeProperties_lookup.
    fold e'. by rewrite Hk.
  - intros dirPath rootPath rootPath'. by rewrite !createDirectoryEntity_ID.
Qed.

Lemma X15_witness :
  ID (core.createFileEntity editedFile) = ID (core.createFileEntity draftFile)
  ∧ size (db.entities
            (db.CreateEntity
               (db.CreateEntity sampleStore (core.createFileEntity draftFile)).1
               (core.createFileEntity editedFile)).1)
    = size (db.entities
              (db.CreateEntity sampleStore (core.createFileEntity draftFile)).1)
  ∧ (∃ stored,
       db.entities
         (db.CreateEntity
            (db.CreateEntity sampleStore (core.createFileEntity draftFile)).1
            (core.createFileEntity editedFile)).1
       !! ID (core.createFileEntity draftFile) = Some stored
       ∧ Label stored = core.Name editedFile
       ∧ ∀ k v, Properties (core.createFileEntity editedFile) !! k = Some v →
                Properties stored !! k = Some v)
  ∧ ∀ dirPath rootPath rootPath',
      ID (core.createDirectoryEntity dirPath rootPath)
      = ID (core.createDirectoryEntity dirPath rootPath').
Proof.
  apply (X15_file_identity_is_stable sampleStore draftFile editedFile); reflexivity.
Defined.

(** X16.  The directories of a scan.  [extractDirectories] lists each
    directory once; none of them is ".", "/" or the empty path; the
    directory of every file is listed unless it is one of those three; with
    a directory its parent is listed, unless the parent is one of those
    three; and every listed directory lies above one of the files. *)
Theorem X16_directories_of_a_scan (files : list core.CodeFile) :
  let directories := core.extractDirectories files in
  NoDup directories
  ∧ (∀ d, d ∈ directories → core.isTop d = false)
  ∧ (∀ file, file ∈ files → core.isTop (filepath.Dir (core.Path file)) = false →
       filepath.Dir (core.Path file) ∈ directories)
  ∧ (∀ d, d ∈ directories → core.isTop (filepath.Dir d) = false →
       filepath.Dir d ∈ directories)
  ∧ (∀ d, d ∈ directories →
       ∃ file k, file ∈ files ∧ d = ancestor (S k) (core.Path file)).
Proof.
  intros directories. split_and!.
  - unfold directories, core.extractDirectories. apply NoDup_elements.
  - intros d Hd. apply directorySet_elem in Hd as (file & _ & Hd).
    by apply parentChain_elem in Hd as [? _].
  - intros file Hf Htop. apply directorySet_elem. exists file. split; [done|].
    pose proof (notTop_nonempty _ Htop) as Hlen.
    destruct (Dir_shorter (core.Path file)) as [H|H]; [by rewrite H in Htop|].
    destruct (String.length (core.Path file)) as [|n]; [lia|].
    by apply parentChain_head.
  - intros d Hd Htop. apply directorySet_elem in Hd as (file & Hf & Hd).
    apply directorySet_elem. exists file. split; [done|].
    apply parentChain_closed; [|done..].
    destruct (Dir_shorter (core.Path file)) as [H|H]; [|lia].
    destruct (String.length (core.Path file)); cbn [core.parentChain] in Hd;
      rewrite H in Hd; by apply elem_of_nil in Hd.
  - intros d Hd. apply directorySet_elem in Hd as (file & Hf & Hd).
    apply parentChain_elem in Hd as [_ [k ->]]. exists file, k. split; [done|].
    unfold ancestor. by rewrite Nat.iter_succ_r.
Qed.

(* ===================================================================== *)
(** * Single files, duplicates and the filing of records *)
(* ===================================================================== *)

Section SingleFile.

Context (X : core.Extractors).

Let cp := core.NewCodeProcessor X.

Lemma singleFileEntity_ID (name path extension language modified : string) (size : Z) :
  ID (graph.CreateEntity name graph.EntityTypeFile
        (Some (<["path" := VString path]>
              (<["extension" := VString extension]>
              (<["language" := VString language]>
              (<["size" := VInt size]>
              (<["lastModified" := VString modified]> ∅)))))))
  = hex ("file|" +:+ ToLower name +:+ "|" +:+ ToLower path).
Proof.
  unfold graph.CreateEntity. cbn [ID default].
  unfold graph.generateDeterministicID, graph.entityKey, graph.keyParts,
    graph.pathParts, graph.sourceParts, graph.namespaceParts, graph.packageParts, id.
  repeat (rewrite lookup_insert_eq || (rewrite lookup_insert_ne by done)
          || rewrite lookup_empty).
  reflexivity.
Qed.

Lemma codeExtensions_elem (ext : string) :
  default false (cmd.codeExtensions !! ext) = true →
  ext ∈ [".go"; ".js"; ".ts"; ".tsx"; ".jsx"; ".py"; ".java"; ".cpp"; ".c"; ".h";
         ".hpp"; ".cs"; ".php"; ".rb"; ".rs"; ".swift"; ".kt"; ".scala"; ".json"].
Proof.
  unfold cmd.codeExtensions. intros H.
  destruct (list_to_map _ !! ext) as [b|] eqn:E; [|done].
  apply elem_of_list_to_map_2 in E.
  apply list_elem_of_fmap in E as (e & [= -> _] & He). exact He.
Qed.

End SingleFile.

(** X17.  [ProcessSingleFile] returns the file entity twice.  For a
    readable file whose language has no analyzer of its own, it returns two
    entities and no relationship: a file entity of its own making, without
    a line count, followed by the file entity the analyzer returned; the two
    have the same id, so that storing the result leaves one entity.  An
    unreadable file gives an error.  Among the paths that the file command
    takes for code ([isCodeFile]), those that the directory scan would skip
    as unsupported end in .swift, .kt or .scala, and get the language
    "unknown". *)
Theorem X17_single_file_entity_twice (X : core.Extractors)
    (filePath content modTime : string) :
  let cp := core.NewCodeProcessor X in
  let ext := ToLower (filepath.Ext filePath) in
  core.languageOf cp ext ∉ dedicatedLanguages →
  (∃ own analyzed,
     core.ProcessSingleFile cp filePath (Some content) modTime
     = ([own; analyzed], [], None)
     ∧ ID own = ID analyzed
     ∧ Label own = filepath.Base filePath ∧ Label analyzed = filepath.Base filePath
     ∧ Type_ own = graph.EntityTypeFile ∧ Type_ analyzed = graph.EntityTypeFile
     ∧ Properties own !! "lineCount" = None
     ∧ Properties analyzed !! "lineCount"
       = Some (VInt (Z.of_nat (S (countByte newline content))))
     ∧ size (db.entities
               (core.database
                  (core.StoreKnowledgeGraph db.NewInMemoryDatabase [own; analyzed] [])))
       = 1)
  ∧ (∃ err, core.ProcessSingleFile cp filePath None modTime = ([], [], Some err))
  ∧ ∀ path,
      cmd.isCodeFile path = true →
      core.isSupported cp (ToLower (filepath.Ext path)) = false →
      ToLower (filepath.Ext path) ∈ [".swift"; ".kt"; ".scala"]
      ∧ core.languageOf cp (ToLower (filepath.Ext path)) = "unknown".
Proof.
  intros cp ext Hlang. split_and!.
  - unfold core.ProcessSingleFile. fold ext.
    set (codeFile := {| core.Path := filePath; core.Name := filepath.Base filePath;
                        core.Extension := ext; core.Content := content;
                        core.Language := core.languageOf cp ext;
                        core.Size := Z.of_nat (String.length content);
                        core.LastModified := modTime |}).
    assert (Ea : core.analyzeFile cp codeFile
                 = ([core.createFileEntity codeFile], [], None)).
    { unfold core.analyzeFile.
      change (core.analyzerRegistry cp) with (core.NewAnalyzerRegistry X).
      by rewrite (GetAnalyzer_generic X (core.Language codeFile) Hlang). }
    rewrite Ea. cbn iota beta.
    eexists _, _. split; [reflexivity|].
    assert (Eid : ID (graph.CreateEntity (core.Name codeFile) graph.EntityTypeFile
                        (Some (<["path" := VString (core.Path codeFile)]>
                              (<["extension" := VString (core.Extension codeFile)]>
                              (<["language" := VString (core.Language codeFile)]>
                              (<["size" := VInt (core.Size codeFile)]>
                              (<["lastModified" := VString (core.LastModified codeFile)]>
                                 ∅)))))))
                  = ID (core.createFileEntity codeFile))
      by (by rewrite singleFileEntity_ID, createFileEntity_ID).
    split_and!; try done.
    unfold core.StoreKnowledgeGraph. rewrite storeEntities_inmemory.
    cbn [core.storeRelationships core.database].
    rewrite CreateEntities_size. cbn [fmap list_fmap]. rewrite Eid.
    generalize (ID (core.createFileEntity codeFile)). intros a.
    cbn [remove_dups].
    destruct (decide_rel elem_of a [a]) as [_|Hn]; [|exfalso; apply Hn; left].
    destruct (decide_rel elem_of a []) as [Hin|_]; [by apply elem_of_nil in Hin|done].
  - by eexists.
  - intros path Hcode Hsup. apply codeExtensions_elem in Hcode.
    set (e := ToLower (filepath.Ext path)) in *. clearbody e.
    repeat (apply elem_of_cons in Hcode as [->|Hcode];
            [first [by vm_compute in Hsup
                   |split; [|by vm_compute]; set_solver]|]).
    by apply elem_of_nil in Hcode.
Qed.

Lemma X17_witness :
  (∃ own analyzed,
     core.ProcessSingleFile (core.NewCodeProcessor core.onEmptyFiles) "src/main.rs"
       (Some "fn main() {}") "2024-01-01T00:00:00Z"
     = ([own; analyzed], [], None)
     ∧ ID own = ID analyzed
     ∧ Label own = filepath.Base "src/main.rs"
     ∧ Label analyzed = filepath.Base "src/main.rs"
     ∧ Type_ own = graph.EntityTypeFile ∧ Type_ analyzed = graph.EntityTypeFile
     ∧ Properties own !! "lineCount" = None
     ∧ Properties analyzed !! "lineCount"
       = Some (VInt (Z.of_nat (S (countByte newline "fn main() {}"))))
     ∧ size (db.entities
               (core.database
                  (core.StoreKnowledgeGraph db.NewInMemoryDatabase [own; analyzed] [])))
       = 1)
  ∧ (∃ err, core.ProcessSingleFile (core.NewCodeProcessor core.onEmptyFiles)
              "src/main.rs" None "2024-01-01T00:00:00Z" = ([], [], Some err))
  ∧ ∀ path,
      cmd.isCodeFile path = true →
      core.isSupported (core.NewCodeProcessor core.onEmptyFiles)
        (ToLower (filepath.Ext path)) = false →
      ToLower (filepath.Ext path) ∈ [".swift"; ".kt"; ".scala"]
      ∧ core.languageOf (core.NewCodeProcessor core.onEmptyFiles)
          (ToLower (filepath.Ext path)) = "unknown".
Proof.
  apply (X17_single_file_entity_twice core.onEmptyFiles "src/main.rs" "fn main() {}"
           "2024-01-01T00:00:00Z").
  unfold dedicatedLanguages. rewrite !not_elem_of_cons.
  split_and!; try (intros E; vm_compute in E; discriminate E). apply not_elem_of_nil.
Defined.

Section Duplicates.

Lemma dedupLoop_fresh (seen : gset string) (es : list Entity) (e : Entity) :
  e ∈ core.dedupLoop seen es → core.dedupKey e ∉ seen.
Proof.
  revert seen. induction es as [|x es IH]; intros seen H; [by apply elem_of_nil in H|].
  cbn [core.dedupLoop] in H. case_decide as Hx.
  - by apply IH.
  - apply elem_of_cons in H as [->|H]; [done|]. apply IH in H.
    intros Hin. apply H, elem_of_union. by right.
Qed.

Lemma dedupLoop_NoDup (seen : gset string) (es : list Entity) :
  NoDup (core.dedupKey <$> core.dedupLoop seen es).
Proof.
  revert seen. induction es as [|x es IH]; intros seen; [constructor|].
  cbn [core.dedupLoop]. case_decide as Hx; [apply IH|].
  rewrite fmap_cons. constructor; [|apply IH].
  intros Hin. apply list_elem_of_fmap in Hin as (e & Hk & He).
  apply dedupLoop_fresh in He. apply He, elem_of_union. left.
  apply elem_of_singleton. by symmetry.
Qed.

Lemma dedupLoop_sublist (seen : gset string) (es : list Entity) :
  sublist (core.dedupLoop seen es) es.
Proof.
  revert seen. induction es as [|x es IH]; intros seen; [constructor|].
  cbn [core.dedupLoop]. case_decide; [apply sublist_cons|apply sublist_skip]; apply IH.
Qed.

Lemma dedupLoop_first (seen : gset string) (l1 l2 : list Entity) (e : Entity) :
  core.dedupKey e ∉ seen →
  (∀ x, x ∈ l1 → core.dedupKey x ≠ core.dedupKey e) →
  e ∈ core.dedupLoop seen (l1 ++ e :: l2).
Proof.
  revert seen. induction l1 as [|x l1 IH]; intros seen Hs Hl.
  - cbn [app core.dedupLoop]. rewrite decide_False by done. left.
  - cbn [app core.dedupLoop].
    assert (core.dedupKey x ≠ core.dedupKey e) by (apply Hl; left).
    assert (∀ y, y ∈ l1 → core.dedupKey y ≠ core.dedupKey e)
      by (intros y Hy; apply Hl; by right).
    case_decide; [by apply IH|]. right. apply IH; [|done].
    intros Hin. apply elem_of_union in Hin as [Hin|Hin]; [|done].
    apply elem_of_singleton in Hin. congruence.
Qed.

Lemma dedupLoop_covers (seen : gset string) (es : list Entity) (e : Entity) :
  e ∈ es →
  core.dedupKey e ∈ seen
  ∨ ∃ e', e' ∈ core.dedupLoop seen es ∧ core.dedupKey e' = core.dedupKey e.
Proof.
  revert seen. induction es as [|x es IH]; intros seen H; [by apply elem_of_nil in H|].
  cbn [core.dedupLoop]. apply elem_of_cons in H as [->|H].
  - case_decide; [by left|]. right. exists x. split; [left|done].
  - case_decide as Hx.
    + by apply IH.
    + destruct (IH ({[core.dedupKey x]} ∪ seen) H) as [Hin|(e' & He' & Hk)].
      * apply elem_of_union in Hin as [Hin|Hin]; [|by left].
        apply elem_of_singleton in Hin. right. exists x. split; [left|done].
      * right. exists e'. split; [by right|done].
Qed.

Lemma dedupLoop_again (seen : gset string) (es : list Entity) :
  core.dedupLoop seen (core.dedupLoop seen es) = core.dedupLoop seen es.
Proof.
  revert seen. induction es as [|x es IH]; intros seen; [done|].
  cbn [core.dedupLoop]. case_decide as Hx; [apply IH|].
  cbn [core.dedupLoop]. rewrite decide_False by done. by rewrite IH.
Qed.

(** Cutting at the last occurrence of a byte. *)
Lemma cut_last_byte (c : ascii) (s s' t t' : string) :
  filepath.containsByte c t = false → filepath.containsByte c t' = false →
  s +:+ String c t = s' +:+ String c t' → s = s' ∧ t = t'.
Proof.
  intros Ht Ht'.
  assert (Hno : ∀ u v, filepath.containsByte c (u +:+ String c v) = true).
  { intros u v. induction u as [|a u IH].
    - rewrite append_nil_l. cbn [filepath.containsByte]. by rewrite Ascii.eqb_refl.
    - rewrite append_cons. cbn [filepath.containsByte]. rewrite IH. apply orb_true_r. }
  revert s'. induction s as [|a s IH]; intros [|a' s'] E.
  - rewrite !append_nil_l in E. by injection E.
  - rewrite append_nil_l, append_cons in E. injection E as <- E.
    rewrite E, Hno in Ht. discriminate Ht.
  - rewrite append_nil_l, append_cons in E. injection E as -> E.
    rewrite <- E, Hno in Ht'. discriminate Ht'.
  - rewrite !append_cons in E. injection E as -> E.
    destruct (IH s' E) as [-> ->]. done.
Qed.

End Duplicates.

(** X18.  [deduplicateEntities] keeps, in their order, the first entity of
    each key, the key being the lower-cased label, a dash and the type: the
    result is a sublist of the input with pairwise distinct keys, it holds
    an entity for every key of the input, an entity with no equal key before
    it is kept, and a second pass changes nothing.  For types without a
    dash, two keys are equal exactly when the types are equal and the labels
    are equal up to case.  The key is not the id: of two functions named
    init in two files the second is dropped, though their ids differ. *)
Theorem X18_first_of_each_key (entities : list Entity) :
  let unique := core.deduplicateEntities entities in
  sublist unique entities
  ∧ NoDup (core.dedupKey <$> unique)
  ∧ (∀ e, e ∈ entities → ∃ e', e' ∈ unique ∧ core.dedupKey e' = core.dedupKey e)
  ∧ (∀ l1 e l2, entities = l1 ++ e :: l2 →
       (∀ x, x ∈ l1 → core.dedupKey x ≠ core.dedupKey e) → e ∈ unique)
  ∧ core.deduplicateEntities unique = unique
  ∧ (∀ e1 e2,
       filepath.containsByte "-" (Type_ e1) = false →
       filepath.containsByte "-" (Type_ e2) = false →
       (core.dedupKey e1 = core.dedupKey e2
        ↔ ToLower (Label e1) = ToLower (Label e2) ∧ Type_ e1 = Type_ e2))
  ∧ ID initA ≠ ID initB
  ∧ core.deduplicateEntities [initA; initB] = [initA].
Proof.
  intros unique. unfold unique, core.deduplicateEntities. split_and!.
  - apply dedupLoop_sublist.
  - apply dedupLoop_NoDup.
  - intros e He. destruct (dedupLoop_covers ∅ entities e He) as [H|H]; [|done].
    by apply elem_of_empty in H.
  - intros l1 e l2 -> Hl. apply dedupLoop_first; [apply not_elem_of_empty|done].
  - apply dedupLoop_again.
  - intros e1 e2 H1 H2. unfold core.dedupKey. split.
    + intros E. by apply (cut_last_byte "-") in E.
    + by intros [-> ->].
  - intros E. vm_compute in E. discriminate E.
  - vm_compute. reflexivity.
Qed.

Section Filing.

Lemma entitiesFiled_reachable (P : Relationship → Prop) (d : db.InMemoryDatabase) :
  reachable P db.NewInMemoryDatabase d → entitiesFiled d.
Proof.
  induction 1 as [|d e _ IH|d r x _ IH _ Hx|d _ IH].
  - intros k e H. cbn in H. by rewrite lookup_empty in H.
  - intros k e' H. rewrite CreateEntity_upsert in H. cbn [fst db.entities] in H.
    rewrite upsert_lookup in H. case_decide as Ek; [|by apply IH].
    unfold slot in H. injection H as <-.
    destruct (db.entities d !! k) as [old|] eqn:Hold; [|done].
    cbn [mergeEntity ID]. by apply IH.
  - intros k e H. rewrite CreateRelationshipWith_entities in H. by apply IH.
  - intros k e H. cbn in H. by rewrite lookup_empty in H.
Qed.

Lemma relationshipsFiled_reachable (P : Relationship → Prop) (d : db.InMemoryDatabase) :
  reachable P db.NewInMemoryDatabase d → filedUnderID (db.relationships d).
Proof.
  induction 1 as [|d e _ IH|d r x _ IH _ Hx|d _ IH].
  - intros k r H. cbn in H. by rewrite lookup_empty in H.
  - by rewrite CreateEntity_upsert.
  - unfold db.CreateRelationshipWith. destruct (db.checkEndpoints d r); [done|].
    cbn [fst]. unfold db.storeRelationship.
    destruct (String.eqb x "") eqn:Ex; cbn [negb db.relationships].
    + intros k r' H. apply lookup_insert_Some in H as [[<- <-]|[_ H]]; [done|by apply IH].
    + apply String.eqb_neq in Ex. destruct Hx as [Hx|[_ ->]]; [|done].
      apply elem_of_matchingIDs in Hx as (old & Hold & _). rewrite Hold. cbn [default].
      intros k r' H. apply lookup_insert_Some in H as [[<- <-]|[_ H]]; [|by apply IH].
      cbn [RelID]. by apply IH.
  - intros k r H. cbn in H. by rewrite lookup_empty in H.
Qed.

Lemma reachable_weaken (P Q : Relationship → Prop) (d0 d : db.InMemoryDatabase) :
  (∀ r, P r → Q r) → reachable P d0 d → reachable Q d0 d.
Proof.
  intros HPQ. induction 1 as [|d e _ IH|d r x _ IH Hr Hx|d _ IH].
  - constructor.
  - exact (reachable_entity _ _ d e IH).
  - exact (reachable_relationship _ _ d r x IH (HPQ r Hr) Hx).
  - exact (reachable_clear _ _ d IH).
Qed.

End Filing.

(** X19.  Records are filed under their ids, one relationship for each
    edge.  In every state that calls reach from the empty store with
    relationships of non-empty id, every entity and every relationship is
    stored under its own id, so that what [GetEntityByID] finds for an id
    carries that id, and no two stored relationships have the same source,
    target and type: the search loop never misses a stored edge. *)
Theorem X19_filed_under_their_ids (d : db.InMemoryDatabase) :
  reachable (λ r, RelID r ≠ "") db.NewInMemoryDatabase d →
  entitiesFiled d
  ∧ (∀ id e, db.GetEntityByID d id = (Some e, None) → ID e = id)
  ∧ filedUnderID (db.relationships d)
  ∧ edgesUnique (db.relationships d).
Proof.
  intros H.
  pose proof (entitiesFiled_reachable _ d H) as He.
  split_and!.
  - exact He.
  - intros id e. unfold db.GetEntityByID.
    destruct (db.entities d !! id) as [e'|] eqn:E; [|done].
    intros [= <-]. by apply He.
  - by apply (relationshipsFiled_reachable (λ r, RelID r ≠ "")).
  - by apply edges_unique_when_ids_nonempty.
Qed.

Lemma X19_witness :
  entitiesFiled sampleStore
  ∧ (∀ id e, db.GetEntityByID sampleStore id = (Some e, None) → ID e = id)
  ∧ filedUnderID (db.relationships sampleStore)
  ∧ edgesUnique (db.relationships sampleStore).
Proof.
  apply (X19_filed_under_their_ids sampleStore).
  unfold sampleStore, db.runCalls. cbn [fold_left db.runCall].
  eapply (reachable_relationship _ _ _ (exampleEdge "ab" "b" 1 ∅));
    [|discriminate|apply findExisting_leaves].
  apply reachable_entity, reachable_entity, reachable_start.
Defined.

(* ===================================================================== *)
(** * The Memgraph helpers and [CleanText] *)
(* ===================================================================== *)

Section Memgraph.

#[local] Instance prefix_inj : Inj (=) (=) (λ key : string, "prop_" +:+ key).
Proof. intros a b E. by apply (append_inv_head "prop_") in E. Qed.

Lemma flattenProperties_kmap (props : PropertyMap) :
  db.flattenProperties props = kmap (λ key : string, "prop_" +:+ key) props.
Proof.
  unfold db.flattenProperties.
  apply (map_fold_weak_ind
           (λ r m, r = kmap (λ key : string, "prop_" +:+ key) m)).
  - by rewrite kmap_empty.
  - intros k v m r Hk ->. symmetry. apply (kmap_insert (λ key : string, "prop_" +:+ key)).
Qed.

Lemma size_kmap_prefix (props : PropertyMap) :
  size (kmap (M2 := gmap string) (λ key : string, "prop_" +:+ key) props) = size props.
Proof.
  induction props as [|k v m Hk IH] using map_ind.
  - by rewrite kmap_empty, !map_size_empty.
  - rewrite (kmap_insert (λ key : string, "prop_" +:+ key)).
    rewrite !map_size_insert_None; [by rewrite IH|done|].
    by rewrite (lookup_kmap (λ key : string, "prop_" +:+ key)).
Qed.

Lemma flattenProperties_lookup (props : PropertyMap) (key : string) :
  db.flattenProperties props !! ("prop_" +:+ key) = props !! key.
Proof.
  rewrite flattenProperties_kmap.
  apply (lookup_kmap (λ key : string, "prop_" +:+ key)).
Qed.

Lemma flattenProperties_key (props : PropertyMap) (k : string) (v : Value) :
  db.flattenProperties props !! k = Some v →
  ∃ key, k = "prop_" +:+ key ∧ props !! key = Some v.
Proof.
  rewrite flattenProperties_kmap. intros H.
  by apply (lookup_kmap_Some (λ key : string, "prop_" +:+ key)) in H.
Qed.

Lemma flattenProperties_size (props : PropertyMap) :
  size (db.flattenProperties props) = size props.
Proof. rewrite flattenProperties_kmap. apply size_kmap_prefix. Qed.

Lemma quoted_differs (label : string) :
  db.backtick +:+ label +:+ db.backtick ≠ label.
Proof.
  intros E. apply (f_equal String.length) in E.
  rewrite !append_length in E. cbn in E. lia.
Qed.

Lemma toUpperByte_variant (a b : ascii) :
  caseVariantByte a b → toUpperByte a = toUpperByte b.
Proof.
  intros [->|[->| ->]]; [done| |];
    destruct a as [[] [] [] [] [] [] [] []]; vm_compute; done.
Qed.

Lemma ToUpper_variant (s t : string) : caseVariant s t → ToUpper s = ToUpper t.
Proof.
  induction 1 as [|a b s t Hab _ IH]; [done|].
  simpl. by rewrite (toUpperByte_variant a b Hab), IH.
Qed.

Lemma special_variant (a b : ascii) :
  caseVariantByte a b →
  memByte a db.specialCharacters = memByte b db.specialCharacters.
Proof.
  intros [->|[->| ->]]; [done| |];
    destruct a as [[] [] [] [] [] [] [] []]; vm_compute; done.
Qed.

Lemma ContainsAny_variant (s t : string) :
  caseVariant s t →
  ContainsAny s db.specialCharacters = ContainsAny t db.specialCharacters.
Proof.
  induction 1 as [|a b s t Hab _ IH]; [done|].
  cbn [ContainsAny]. by rewrite (special_variant a b Hab), IH.
Qed.

Lemma escapeLabel_bare (label : string) :
  db.escapeLabel label = label
  ↔ ((ToUpper label ∉ db.reservedKeywords)
     ∧ ContainsAny label db.specialCharacters = false).
Proof.
  unfold db.escapeLabel. case_bool_decide as Hk.
  - split; [intros E; by apply quoted_differs in E|tauto].
  - destruct (ContainsAny label db.specialCharacters).
    + split; [intros E; by apply quoted_differs in E|by intros [_ ?]].
    + tauto.
Qed.

End Memgraph.

(** X20.  [flattenProperties] renames and loses nothing.  Every key gets
    the prefix prop_: the value of a key is found under the prefixed key,
    every key of the result is a prefixed key of the argument, the result
    has as many entries as the argument, and none of them is named id,
    label, confidence, created_at or updated_at, the fields that the
    Memgraph store sets on a node itself. *)
Theorem X20_flattened_properties (props : PropertyMap) :
  let flattened := db.flattenProperties props in
  (∀ key, flattened !! ("prop_" +:+ key) = props !! key)
  ∧ (∀ k v, flattened !! k = Some v →
       ∃ key, k = "prop_" +:+ key ∧ props !! key = Some v)
  ∧ size flattened = size props
  ∧ Forall (λ k, flattened !! k = None)
      ["id"; "label"; "confidence"; "created_at"; "updated_at"].
Proof.
  intros flattened. unfold flattened. split_and!.
  - apply flattenProperties_lookup.
  - apply flattenProperties_key.
  - apply flattenProperties_size.
  - repeat constructor;
      match goal with
      | |- ?m !! ?k = None =>
          destruct (m !! k) as [v|] eqn:E; [|done];
          apply flattenProperties_key in E as (key & E & _); discriminate E
      end.
Qed.

(** X21.  For a label of ASCII bytes, [escapeLabel] wraps the label in
    backticks or returns it as it is, and never alters its bytes.  It wraps exactly when the upper-cased
    label is a reserved keyword or the label holds one of the listed
    characters; the decision does not depend on the case of the letters,
    while the label keeps its case; the empty label is returned empty; and a
    backtick is not one of the listed characters, so a backtick inside a
    label is neither a reason to wrap nor doubled. *)
Theorem X21_escaped_labels (label : string) (Hascii : asciiText label = true) :
  let quoted := db.backtick +:+ label +:+ db.backtick in
  (db.escapeLabel label = label ∨ db.escapeLabel label = quoted)
  ∧ (db.escapeLabel label = quoted
     ↔ ToUpper label ∈ db.reservedKeywords
       ∨ ContainsAny label db.specialCharacters = true)
  ∧ (∀ label', caseVariant label label' →
       (db.escapeLabel label = label ↔ db.escapeLabel label' = label'))
  ∧ db.escapeLabel "" = ""
  ∧ ContainsAny db.backtick db.specialCharacters = false.
Proof.
  intros quoted. split_and!.
  - unfold db.escapeLabel. case_bool_decide; [by right|].
    destruct (ContainsAny _ _); [by right|by left].
  - unfold db.escapeLabel, quoted. case_bool_decide as Hk.
    + split; [by left|done].
    + destruct (ContainsAny label db.specialCharacters).
      * split; [by right|done].
      * split; [intros E; symmetry in E; by apply quoted_differs in E|].
        intros [?|?]; done.
  - intros label' Hv. rewrite !escapeLabel_bare.
    by rewrite (ToUpper_variant _ _ Hv), (ContainsAny_variant _ _ Hv).
  - vm_compute. reflexivity.
  - vm_compute. reflexivity.
Qed.

Lemma X21_witness :
  asciiText "File" = true
  ∧ db.escapeLabel "File" = db.backtick +:+ "File" +:+ db.backtick.
Proof.
  split; [reflexivity|].
  destruct (X21_escaped_labels "File" eq_refl) as (_ & H & _).
  apply H. left. apply (bool_decide_unpack _). vm_compute. exact I.
Defined.

Section Text.

Lemma allBytes_impl (P Q : ascii → bool) (s : string) :
  (∀ c, P c = true → Q c = true) → allBytes P s = true → allBytes Q s = true.
Proof.
  intros H. induction s as [|c s IH]; [done|]. cbn [allBytes].
  rewrite !andb_true_iff. intros [? ?]. auto.
Qed.

Lemma allBytes_and (P Q : ascii → bool) (s : string) :
  allBytes P s = true → allBytes Q s = true →
  allBytes (λ c, P c && Q c) s = true.
Proof.
  induction s as [|c s IH]; [done|]. cbn [allBytes].
  rewrite !andb_true_iff. intros [? ?] [? ?]. auto.
Qed.

Lemma collapseSpace_bytes (text : string) :
  allBytes (λ c, negb (core.isPatternSpace c) || Ascii.eqb c " ")
    (core.collapseSpace text) = true.
Proof.
  induction text as [|c rest IH]; [done|]. cbn [core.collapseSpace].
  destruct (core.isPatternSpace c) eqn:Hc.
  - destruct rest as [|c' rest']; [done|].
    destruct (core.isPatternSpace c'); [exact IH|].
    cbn [allBytes]. by rewrite IH.
  - cbn [allBytes]. by rewrite Hc, IH.
Qed.

Lemma removeSpecial_kept (text : string) :
  allBytes core.isKept (core.removeSpecial text) = true.
Proof.
  induction text as [|c rest IH]; [done|]. cbn [core.removeSpecial].
  destruct (core.isKept c) eqn:Hc; [|done]. cbn [allBytes]. by rewrite Hc, IH.
Qed.

Lemma removeSpecial_bytes (P : ascii → bool) (text : string) :
  allBytes P text = true → allBytes P (core.removeSpecial text) = true.
Proof.
  induction text as [|c rest IH]; [done|]. cbn [allBytes core.removeSpecial].
  rewrite andb_true_iff. intros [Hc Hr].
  destruct (core.isKept c); [|auto]. cbn [allBytes]. by rewrite Hc, IH.
Qed.

Lemma trimLeft_bytes (P : ascii → bool) (s : string) :
  allBytes P s = true → allBytes P (trimLeft s) = true.
Proof.
  induction s as [|c s IH]; [done|]. cbn [trimLeft].
  destruct (isAsciiSpace c); [|done]. cbn [allBytes].
  rewrite andb_true_iff. intros [_ ?]. auto.
Qed.

Lemma trimRight_bytes (P : ascii → bool) (s : string) :
  allBytes P s = true → allBytes P (trimRight s) = true.
Proof.
  induction s as [|c s IH]; [done|]. cbn [allBytes trimRight].
  rewrite andb_true_iff. intros [Hc Hs]. specialize (IH Hs).
  destruct (trimRight s) as [|a r].
  - destruct (isAsciiSpace c); [done|]. cbn [allBytes]. by rewrite Hc.
  - cbn [allBytes] in *. by rewrite Hc, IH.
Qed.

Lemma trimLeft_first (s : string) (c : ascii) :
  firstByte (trimLeft s) = Some c → isAsciiSpace c = false.
Proof.
  induction s as [|a s IH]; [done|]. cbn [trimLeft].
  destruct (isAsciiSpace a) eqn:Ha; [done|]. by intros [= <-].
Qed.

Lemma trimRight_first (s : string) (c : ascii) :
  firstByte s = Some c → isAsciiSpace c = false → firstByte (trimRight s) = Some c.
Proof.
  destruct s as [|a s]; [done|]. intros [= ->] Hc. cbn [trimRight].
  destruct (trimRight s); [by rewrite Hc|done].
Qed.

Lemma trimRight_first_inv (s : string) (c : ascii) :
  firstByte (trimRight s) = Some c → firstByte s = Some c.
Proof.
  destruct s as [|a s]; [done|]. cbn [trimRight].
  destruct (trimRight s); [|done]. by destruct (isAsciiSpace a).
Qed.

Lemma trimRight_last (s : string) (c : ascii) :
  lastByte (trimRight s) = Some c → isAsciiSpace c = false.
Proof.
  induction s as [|a s IH]; [done|]. cbn [trimRight].
  destruct (trimRight s) as [|b r] eqn:E.
  - destruct (isAsciiSpace a) eqn:Ha; [done|]. by intros [= <-].
  - cbn [lastByte] in *. destruct (lastByte r) as [l|]; [by intros [= <-]; apply IH|].
    intros [= <-]. by apply IH.
Qed.

Lemma clean_of_kept (c : ascii) :
  core.isKept c && (negb (core.isPatternSpace c) || Ascii.eqb c " ") = true →
  isClean c = true.
Proof. destruct c as [[] [] [] [] [] [] [] []]; vm_compute; done. Qed.

Lemma clean_is_plain (c : ascii) :
  isClean c = true → (N_of_ascii c < 128)%N ∧ memByte c patternMarks = false.
Proof. destruct c as [[] [] [] [] [] [] [] []]; vm_compute; done. Qed.

Lemma allBytes_ContainsAny (P : ascii → bool) (chars s : string) :
  (∀ c, P c = true → memByte c chars = false) →
  allBytes P s = true → ContainsAny s chars = false.
Proof.
  intros H. induction s as [|c s IH]; [done|]. cbn [allBytes ContainsAny].
  rewrite andb_true_iff. intros [Hc Hs]. by rewrite (H c Hc), IH.
Qed.

Lemma collapseSpace_blank (text : string) :
  allBytes core.isPatternSpace text = true →
  core.collapseSpace text = "" ∨ core.collapseSpace text = " ".
Proof.
  induction text as [|c rest IH]; [by left|]. cbn [allBytes core.collapseSpace].
  rewrite andb_true_iff. intros [Hc Hr]. rewrite Hc.
  destruct rest as [|c' rest']; [by right|].
  cbn [allBytes] in Hr. apply andb_true_iff in Hr as [Hc' Hr']. rewrite Hc'.
  apply IH. cbn [allBytes]. by rewrite Hc', Hr'.
Qed.

Lemma CleanText_bytes (text : string) :
  allBytes isClean (core.CleanText text) = true.
Proof.
  unfold core.CleanText, TrimSpace.
  apply trimRight_bytes, trimLeft_bytes.
  apply (allBytes_impl
           (λ c, core.isKept c && (negb (core.isPatternSpace c) || Ascii.eqb c " "))).
  - apply clean_of_kept.
  - apply allBytes_and; [apply removeSpecial_kept|].
    apply removeSpecial_bytes, collapseSpace_bytes.
Qed.

End Text.

(** X22.  What [CleanText] returns.  Every byte of the result is an ASCII
    letter, a digit, an underscore, a space or one of . , ! ? ; : ( ) -, so
    the result holds no slash, star, quote or backtick and no byte outside
    ASCII; it neither starts nor ends with white space; a text of white space
    only, the empty text included, is cleaned to the empty text.  Runs of
    white space are collapsed before other characters are removed, so the
    result can hold two spaces in a row, and cleaning it again changes
    it. *)
Theorem X22_cleaned_text (text : string) :
  let cleaned := core.CleanText text in
  allBytes isClean cleaned = true
  ∧ asciiText cleaned = true
  ∧ ContainsAny cleaned patternMarks = false
  ∧ (∀ c, firstByte cleaned = Some c → isAsciiSpace c = false)
  ∧ (∀ c, lastByte cleaned = Some c → isAsciiSpace c = false)
  ∧ (allBytes core.isPatternSpace text = true → cleaned = "")
  ∧ core.CleanText "a # b" = "a  b"
  ∧ core.CleanText (core.CleanText "a # b") = "a b".
Proof.
  intros cleaned. pose proof (CleanText_bytes text) as Hb. fold cleaned in Hb.
  split_and!.
  - exact Hb.
  - revert Hb. apply allBytes_impl. intros c Hc.
    apply N.ltb_lt. by apply clean_is_plain.
  - revert Hb. apply allBytes_ContainsAny. intros c Hc. by apply clean_is_plain.
  - intros c Hc. unfold cleaned, core.CleanText, TrimSpace in Hc.
    apply trimRight_first_inv in Hc. by apply trimLeft_first in Hc.
  - intros c Hc. unfold cleaned, core.CleanText, TrimSpace in Hc.
    by apply trimRight_last in Hc.
  - intros Hblank. unfold cleaned, core.CleanText.
    destruct (collapseSpace_blank text Hblank) as [-> | ->]; vm_compute; reflexivity.
  - vm_compute. reflexivity.
  - vm_compute. reflexivity.
Qed.
